(** * Agent orchestration core of the chart-steering system

    A shallow embedding of the Python sources
    [tools/tool_registry.py], [tools/tool_executor.py],
    [tools/vlm_adapter.py], [core/modes/goal_oriented_mode.py],
    [core/modes/chitchat_mode.py], [core/session_manager.py],
    [config/intent_types.py], [core/utils/json_utils.py] and of tool
    bodies of [tools/line_chart_tools.py], [tools/bar_chart_tools.py] and
    [tools/sankey_tools.py], together with the properties of the
    specification that are stated about them and further properties of
    the code.

    Conventions.
    - A Python [str] is a Rocq [string] holding its UTF-8 encoding.  The
      encoding is injective and commutes with concatenation, so equality
      tests and f-strings are modelled by [=] and [++].  Where the code
      counts characters ([len], in the intent classifier) the string is
      decoded to its list of code points first.
    - A Python [dict] used as a record of the program (parameters, tool
      results, log entries) is a [gmap string value]; a [dict] nested in a
      JSON document is an insertion-ordered association list.
    - External collaborators (model endpoint, renderer, wall clock, the
      numeric libraries) are parameters of the sections that use them. *)

From Stdlib Require Import ZArith Ascii String List Bool Lia.
From stdpp Require Import gmap strings list fin_maps.


(** ** Python values *)

(** JSON-like values exchanged between the engine, the dispatcher and the
    tool bodies.  [VFloat m e] stands for the float written [m * 10^e];
    only its truth value is ever inspected here. *)
#[warnings="-register-all"]
Inductive value : Type :=
| VNone
| VBool (b : bool)
| VInt (n : Z)
| VFloat (m e : Z)
| VStr (s : string)
| VList (items : list value)
| VDict (entries : list (string * value)).

(** The character U+0022, written out because it delimits literals. *)
Definition dquote : string := String (ascii_of_nat 34) EmptyString.

(** Python truth value testing ([if x:], [not x]). *)
Definition truthy (v : value) : bool :=
  match v with
  | VNone => false
  | VBool b => b
  | VInt n => negb (n =? 0)%Z
  | VFloat m _ => negb (m =? 0)%Z
  | VStr s => negb (String.eqb s EmptyString)
  | VList l => match l with [] => false | _ => true end
  | VDict d => match d with [] => false | _ => true end
  end.

(** [d.get(k)] on a nested (association-list) dictionary. *)
Fixpoint dget (k : string) (d : list (string * value)) : option value :=
  match d with
  | [] => None
  | (k', v) :: rest => if String.eqb k k' then Some v else dget k rest
  end.

(** [x.get(k)] as a truth value on a record dictionary. *)
Definition get_truthy (k : string) (d : gmap string value) : bool :=
  match d !! k with
  | Some v => truthy v
  | None => false
  end.


(** [d[k] = v] on a nested dictionary: an existing key keeps its place. *)
Fixpoint dset (k : string) (v : value) (d : list (string * value))
  : list (string * value) :=
  match d with
  | [] => [(k, v)]
  | (k', v') :: rest =>
      if String.eqb k k' then (k, v) :: rest else (k', v') :: dset k v rest
  end.

(** The line feed of the f-strings. *)
Definition nl : string := String (ascii_of_nat 10) EmptyString.

(** Whether a value can be a dictionary key. *)
Definition hashable (v : value) : bool :=
  match v with
  | VList _ | VDict _ => false
  | _ => true
  end.

(** ** Python strings as sequences of code points *)

Module PyStr.

(** UTF-8 decoding of a byte sequence; a byte that does not start a
    well-formed sequence is kept as it is. *)
Fixpoint decode (bytes : list N) : list N :=
  match bytes with
  | [] => []
  | b :: rest =>
      if (b <? 128)%N then b :: decode rest
      else if (b <? 224)%N then
        match rest with
        | b1 :: rest1 => ((b mod 32) * 64 + b1 mod 64)%N :: decode rest1
        | _ => b :: decode rest
        end
      else if (b <? 240)%N then
        match rest with
        | b1 :: b2 :: rest2 =>
            ((b mod 16) * 4096 + (b1 mod 64) * 64 + b2 mod 64)%N
              :: decode rest2
        | _ => b :: decode rest
        end
      else
        match rest with
        | b1 :: b2 :: b3 :: rest3 =>
            ((b mod 8) * 262144 + (b1 mod 64) * 4096
             + (b2 mod 64) * 64 + b3 mod 64)%N :: decode rest3
        | _ => b :: decode rest
        end
  end.

(** The code points of a string given by its UTF-8 bytes. *)
Definition codepoints (s : string) : list N :=
  decode (N_of_ascii <$> list_ascii_of_string s).

(** [s.lower()].  Exact on text whose cased characters are the ASCII
    letters; the keyword tables and the queries of the scenarios are
    ASCII and CJK text, and CJK characters have no case. *)
Definition lower (s : list N) : list N :=
  (fun c => if (65 <=? c)%N && (c <=? 90)%N then (c + 32)%N else c) <$> s.

(** The code points on which [lower] is [str.lower()] whatever stands
    around them: the ASCII range, the CJK blocks from U+2E80 to U+9FFF
    and the full-width punctuation and digits from U+FF00 to U+FF20.
    Of these only the letters A to Z have a lower case of their own. *)
Definition plain_char (c : N) : bool :=
  ((c <? 128) || (11904 <=? c) && (c <=? 40959)
   || (65280 <=? c) && (c <=? 65312))%N.

Definition plain (s : list N) : bool := forallb plain_char s.

(** The same character, or the same ASCII letter in its two cases. *)
Definition same_letter (a b : N) : bool :=
  ((a =? b)
   || (65 <=? a) && (a <=? 90) && (b =? a + 32)
   || (65 <=? b) && (b <=? 90) && (a =? b + 32))%N.

(** [c.isspace()] *)
Definition isspace (c : N) : bool :=
  ((9 <=? c) && (c <=? 13) || (28 <=? c) && (c <=? 32)
   || (c =? 133) || (c =? 160) || (c =? 5760)
   || (8192 <=? c) && (c <=? 8202)
   || (c =? 8232) || (c =? 8233) || (c =? 8239) || (c =? 8287)
   || (c =? 12288))%N.

Fixpoint lstrip (s : list N) : list N :=
  match s with
  | c :: rest => if isspace c then lstrip rest else s
  | [] => []
  end.

(** [s.strip()] *)
Definition strip (s : list N) : list N :=
  rev (lstrip (rev (lstrip s))).

Fixpoint starts_with (prefix s : list N) : bool :=
  match prefix, s with
  | [], _ => true
  | p :: prefix', c :: s' => (p =? c)%N && starts_with prefix' s'
  | _ :: _, [] => false
  end.

(** [needle in s] *)
Fixpoint contains (needle s : list N) : bool :=
  starts_with needle s
  || match s with
     | [] => false
     | _ :: s' => contains needle s'
     end.

(** [any(k in s for k in keywords)], the keywords given as literals. *)
Definition any_in (keywords : list string) (s : list N) : bool :=
  existsb (fun k => contains (codepoints k) s) keywords.

(** The characters of a string, each as the string of its UTF-8 bytes. *)
Fixpoint chars_of (bytes : list ascii) : list string :=
  match bytes with
  | [] => []
  | b :: rest =>
      let n := N_of_ascii b in
      let one := String b EmptyString in
      if (n <? 192)%N then one :: chars_of rest
      else if (n <? 224)%N then
        match rest with
        | b1 :: rest1 => String b (String b1 EmptyString) :: chars_of rest1
        | _ => one :: chars_of rest
        end
      else if (n <? 240)%N then
        match rest with
        | b1 :: b2 :: rest2 =>
            String b (String b1 (String b2 EmptyString)) :: chars_of rest2
        | _ => one :: chars_of rest
        end
      else
        match rest with
        | b1 :: b2 :: b3 :: rest3 =>
            String b (String b1 (String b2 (String b3 EmptyString)))
              :: chars_of rest3
        | _ => one :: chars_of rest
        end
  end.

Definition chars (s : string) : list string :=
  chars_of (list_ascii_of_string s).

(** [needle in s] on strings given by their bytes. *)
Fixpoint is_substring (needle s : string) : bool :=
  String.prefix needle s
  || match s with
     | EmptyString => false
     | String _ rest => is_substring needle rest
     end.

End PyStr.
(** ** Tool catalog ([tools/tool_registry.py]) *)

(** What calling a tool body does: it returns a result dictionary, or it
    raises an [Exception] with a message (and the interpreter's traceback
    text).  A keyword-argument mismatch when the body is called on the
    unpacked dictionary is a [TypeError] raised by the call, hence one of
    the [Raised] outcomes.  So is a body that returns something other
    than a dictionary: the log entry of the success path, written inside
    the same [try] block, then raises an [AttributeError], which the
    handler treats like an exception of the body. *)
Inductive body_outcome : Type :=
| Returned (result : gmap string value)
| Raised (message traceback : string).

Definition tool_function : Type := gmap string value -> body_outcome.

(** One entry of a descriptor's ['params'] table.  [required] is
    [param_spec.get('required', False)]; [default_value] is present exactly when
    the key ['default'] is. *)
Record param_spec : Type := {
  ptype : string;
  required : bool;
  default_value : option value
}.

Record tool_info : Type := {
  function : tool_function;
  category : string;
  description : string;
  param_specs : list (string * param_spec)
}.

Definition req (t : string) : param_spec :=
  {| ptype := t; required := true; default_value := None |}.
Definition opt (t : string) (d : value) : param_spec :=
  {| ptype := t; required := false; default_value := Some d |}.
Definition opt_nodefault (t : string) : param_spec :=
  {| ptype := t; required := false; default_value := None |}.

(** The table built by [ToolRegistry._register_all_tools], in registration
    order.  The implementing functions are supplied by [impl], indexed by
    the Python function's name. *)
Definition registered_tools (impl : string -> tool_function)
  : list (string * tool_info) :=
  let entry name cat descr ps :=
    (name, {| function := impl name; category := cat;
              description := descr; param_specs := ps |}) in
  let spec := ("vega_spec", req "dict") in
  [ entry "get_data_summary" "perception" "获取数据统计摘要"
      [spec; ("scope", opt "str" (VStr "all"))];
    entry "get_tooltip_data" "perception" "获取工具提示数据"
      [spec; ("position", req "list")];
    entry "zoom" "action" "缩放到指定区域"
      [spec; ("area", req "list")];
    entry "filter" "action" "按维度筛选数据"
      [spec; ("dimension", req "str"); ("range", req "list")];
    entry "brush" "action" "刷选区域"
      [spec; ("area", req "list")];
    entry "change_encoding" "action" "更改编码映射"
      [spec; ("channel", req "str"); ("field_name", req "str")];
    entry "highlight" "action" "高亮类别"
      [spec; ("category", req "any")];
    entry "render_chart" "action" "渲染图表"
      [spec];
    entry "sort_bars" "action" "按值排序条形"
      [spec; ("order", opt "str" (VStr "descending"))];
    entry "filter_categories" "action" "筛选特定类别"
      [spec; ("categories", req "list")];
    entry "highlight_top_n" "action" "高亮前N个条形"
      [spec; ("n", opt "int" (VInt 2));
       ("order", opt "str" (VStr "descending"))];
    entry "compare_groups" "analysis" "组间对比"
      [spec; ("group_field", req "str")];
    entry "zoom_time_range" "action" "缩放时间范围"
      [spec; ("start", req "str"); ("end", req "str")];
    entry "highlight_trend" "action" "高亮趋势"
      [spec; ("trend_type", opt "str" (VStr "increasing"))];
    entry "compare_series" "analysis" "对比多条线"
      [spec; ("series_field", req "str")];
    entry "detect_anomalies" "analysis" "检测异常点"
      [spec; ("threshold", opt "float" (VFloat 2 0))];
    entry "select_region" "action" "选择区域"
      [spec; ("x_range", req "tuple"); ("y_range", req "tuple")];
    entry "identify_clusters" "analysis" "识别聚类"
      [spec; ("n_clusters", opt "int" (VInt 3));
       ("method", opt "str" (VStr "kmeans"))];
    entry "calculate_correlation" "analysis" "计算相关性"
      [spec; ("method", opt "str" (VStr "pearson"))];
    entry "zoom_dense_area" "action" "放大密集区域"
      [spec; ("x_range", req "tuple"); ("y_range", req "tuple")];
    entry "adjust_color_scale" "action" "调整颜色比例"
      [spec; ("scheme", opt "str" (VStr "viridis"))];
    entry "filter_cells" "action" "筛选单元格"
      [spec; ("min_value", req "float"); ("max_value", req "float")];
    entry "highlight_region" "action" "高亮区域"
      [spec; ("x_values", req "list"); ("y_values", req "list")];
    entry "cluster_rows_cols" "action" "对行列进行聚类排序"
      [spec; ("cluster_rows", opt "bool" (VBool true));
       ("cluster_cols", opt "bool" (VBool true));
       ("method", opt "str" (VStr "sum"))];
    entry "select_submatrix" "action" "选择子矩阵"
      [spec; ("x_values", opt_nodefault "list");
       ("y_values", opt_nodefault "list")];
    entry "filter_dimension" "action" "按维度筛选"
      [spec; ("dimension", req "str"); ("range", req "list")];
    entry "highlight_cluster" "action" "高亮聚类"
      [spec; ("cluster_id", req "int")];
    entry "reorder_dimensions" "action" "重新排序维度"
      [spec; ("dimension_order", req "list")];
    entry "filter_flow" "action" "筛选流量"
      [spec; ("min_value", req "float")];
    entry "highlight_path" "action" "高亮路径"
      [spec; ("source", req "str"); ("target", req "str")];
    entry "trace_node" "action" "追踪节点"
      [spec; ("node_name", req "str")] ].

(** ** Tool dispatcher ([tools/tool_executor.py]) *)

Module ToolExecutor.

(** One entry of [execution_history]. *)
Record execution_record : Type := {
  timestamp : string;
  tool_name : string;
  params : gmap string value;
  result : gmap string value;
  success : bool
}.

(** The dispatcher object.  [bodies_invoked] is instrumentation and not an
    attribute of the Python class: it lists, in order, the tool bodies that
    [execute] has called, with the arguments they were called on. *)
Record t : Type := {
  execution_history : list execution_record;
  bodies_invoked : list (string * gmap string value)
}.

(** [ToolExecutor.__init__] *)
Definition init : t :=
  {| execution_history := []; bodies_invoked := [] |}.

Record validation_result : Type := {
  valid : bool;
  errors : list string
}.

(** [l[-n:]] for a positive [n]. *)
Definition last_n {A} (n : nat) (l : list A) : list A :=
  drop (length l - n) l.

Section Dispatch.

(** [self.registry._tools], an insertion-ordered dictionary. *)
Variable registry : list (string * tool_info).

(** [ToolRegistry.get_tool] *)
Fixpoint lookup_tool (name : string) (tools : list (string * tool_info))
  : option tool_info :=
  match tools with
  | [] => None
  | (n, info) :: rest =>
      if String.eqb name n then Some info else lookup_tool name rest
  end.

Definition get_tool (name : string) : option tool_info :=
  lookup_tool name registry.

(** [ToolRegistry.list_all_tools] *)
Definition list_all_tools : list string := fst <$> registry.

(** The required parameters of a descriptor that [params] lacks, in
    descriptor order. *)
Definition missing_required (specs : list (string * param_spec))
    (params : gmap string value) : list string :=
  fst <$> filter (fun p => required p.2 = true /\ params !! p.1 = None) specs.

(** [ToolExecutor._validate_params].  The source looks the descriptor
    up again by name; at its only call site that lookup has just
    succeeded with [info]. *)
Definition _validate_params (info : tool_info) (params : gmap string value)
  : validation_result :=
  let errors :=
    (fun name => "Missing required parameter: " +:+ name)
      <$> missing_required (param_specs info) params in
  {| valid := Nat.eqb (length errors) 0; errors := errors |}.

(** [ToolExecutor._fill_default_params] *)
Definition _fill_default_params (info : tool_info)
    (params : gmap string value) : gmap string value :=
  fold_left
    (fun filled p =>
       match filled !! p.1, default_value p.2 with
       | None, Some d => <[p.1 := d]> filled
       | _, _ => filled
       end)
    (param_specs info) params.

(** [ToolExecutor._record_execution]; [now] is what
    [datetime.now().isoformat()] returns at the call. *)
Definition _record_execution (now : string) (self : t) (name : string)
    (params result : gmap string value) (ok : bool) : t :=
  let params_for_log := delete "vega_spec" params in
  let result_for_log := delete "vega_spec" result in
  let record := {| timestamp := now; tool_name := name;
                   params := params_for_log; result := result_for_log;
                   success := ok |} in
  let history := execution_history self ++ [record] in
  {| execution_history :=
       if Nat.ltb 100 (length history) then last_n 100 history else history;
     bodies_invoked := bodies_invoked self |}.

Definition not_found_result (name : string) : gmap string value :=
  {[ "success" := VBool false;
     "error" := VStr ("Tool " +:+ dquote +:+ name +:+ dquote +:+ " not found");
     "available_tools" := VList (VStr <$> list_all_tools) ]}.

Definition validation_failure (v : validation_result) : gmap string value :=
  {[ "success" := VBool false;
     "error" := VStr "Parameter validation failed";
     "details" := VList (VStr <$> errors v) ]}.

Definition error_result (message traceback : string) : gmap string value :=
  {[ "success" := VBool false;
     "error" := VStr message;
     "traceback" := VStr traceback ]}.

(** Instrumentation: note that the body of [name] is being called. *)
Definition with_invocation (self : t) (name : string)
    (params : gmap string value) : t :=
  {| execution_history := execution_history self;
     bodies_invoked := bodies_invoked self ++ [(name, params)] |}.

(** [ToolExecutor.execute].  The [try] block holds the call of the body
    and the success-path log entry; its handler turns a raised
    exception into [error_result] and logs that instead. *)
Definition execute (now : string) (self : t) (name : string)
    (params : gmap string value) (validate : bool)
  : gmap string value * t :=
  match get_tool name with
  | None => (not_found_result name, self)
  | Some info =>
      let v := _validate_params info params in
      if validate && negb (valid v) then (validation_failure v, self)
      else
        let params := _fill_default_params info params in
        let self := with_invocation self name params in
        match function info params with
        | Returned result =>
            (result, _record_execution now self name params result true)
        | Raised message traceback =>
            let err := error_result message traceback in
            (err, _record_execution now self name params err false)
        end
  end.

(** A sequence of dispatches on one executor: each call comes with the
    clock reading it would see. *)
Definition call : Type := string * string * gmap string value * bool.

Definition execute_all (self : t) (calls : list call) : t :=
  fold_left
    (fun st '(now, name, params, validate) =>
       (execute now st name params validate).2)
    calls self.

(** The Tool Body contract of the catalog: whatever a registered body
    returns carries a boolean ['success'] entry. *)
Definition has_success_flag (r : gmap string value) : Prop :=
  exists b, r !! "success" = Some (VBool b).

Definition bodies_flag_success : Prop :=
  forall name info params r,
    get_tool name = Some info ->
    function info params = Returned r ->
    has_success_flag r.

(** The four ways a dispatch ends, with the result each one hands to the
    caller. *)
Inductive dispatch_case (name : string) (params : gmap string value)
    (validate : bool) : gmap string value -> Prop :=
| UnknownTool :
    get_tool name = None ->
    dispatch_case name params validate (not_found_result name)
| ValidationFailed info :
    get_tool name = Some info ->
    validate = true ->
    valid (_validate_params info params) = false ->
    dispatch_case name params validate
      (validation_failure (_validate_params info params))
| BodyRaised info message traceback :
    get_tool name = Some info ->
    function info (_fill_default_params info params)
      = Raised message traceback ->
    dispatch_case name params validate (error_result message traceback)
| BodyReturned info r :
    get_tool name = Some info ->
    function info (_fill_default_params info params) = Returned r ->
    dispatch_case name params validate r.

(** A dispatch reaches the tool body when the name is registered and
    validation is off or passes. *)
Definition reaches_body (name : string) (params : gmap string value)
    (validate : bool) : Prop :=
  exists info, get_tool name = Some info /\
    (validate = false \/ valid (_validate_params info params) = true).

(** What the log says about the bodies called so far. *)
Definition log_mirrors_bodies (self : t) : Prop :=
  (fun r => (tool_name r, params r)) <$> execution_history self
  = (fun p => (p.1, delete "vega_spec" p.2))
      <$> last_n 100 (bodies_invoked self).

Definition log_entry_sound (r : execution_record) : Prop :=
  params r !! "vega_spec" = None
  /\ result r !! "vega_spec" = None
  /\ is_Some (get_tool (tool_name r))
  /\ (success r = false -> result r !! "success" = Some (VBool false)).

(** A call description handed to [execute_batch]: what
    [tool_call.get('tool')] and [tool_call.get('params')] find in it. *)
Record batch_call : Type := {
  bc_tool : option string;
  bc_params : option (gmap string value)
}.

Definition unspecified_result : gmap string value :=
  {[ "success" := VBool false;
     "error" := VStr "Tool name not specified" ]}.

(** One turn of the loop of [execute_batch]: a call whose name is absent
    or empty is answered on the spot, any other goes through [execute]
    with validation on. *)
Definition batch_step (now : string) (self : t) (tool_call : batch_call)
  : gmap string value * t :=
  match bc_tool tool_call with
  | None => (unspecified_result, self)
  | Some name =>
      if String.eqb name "" then (unspecified_result, self)
      else execute now self name (default ∅ (bc_params tool_call)) true
  end.

(** [ToolExecutor.execute_batch]; [clock k] is the clock reading during
    the [k]-th call of the batch, counted from [first]. *)
Fixpoint execute_batch (clock : nat -> string) (first : nat) (self : t)
    (tool_calls : list batch_call) : list (gmap string value) * t :=
  match tool_calls with
  | [] => ([], self)
  | tool_call :: rest =>
      let '(r, self) := batch_step (clock first) self tool_call in
      let '(results, self) := execute_batch clock (S first) self rest in
      (r :: results, self)
  end.

End Dispatch.

(** [l[start:]] for any integer [start]: a negative one counts from the
    end and is clipped at the front of the list. *)
Definition slice_from {A} (start : Z) (l : list A) : list A :=
  if (start <? 0)%Z
  then drop (Z.to_nat (Z.max (Z.of_nat (length l) + start) 0)) l
  else drop (Z.to_nat start) l.

(** [ToolExecutor.get_execution_history]; an absent or empty [name]
    applies no filter. *)
Definition get_execution_history (self : t) (limit : Z)
    (name : option string) : list execution_record :=
  let history := execution_history self in
  let history :=
    match name with
    | None => history
    | Some n =>
        if String.eqb n "" then history
        else filter (fun r => tool_name r = n) history
    end in
  slice_from (- limit) history.

(** [ToolExecutor.clear_history] *)
Definition clear_history (self : t) : t :=
  {| execution_history := []; bodies_invoked := bodies_invoked self |}.

(** A stand-in implementation used to run the dispatcher on the real
    catalog: every body answers with a bare success result, except
    [render_chart], which raises. *)
Definition demo_impl (name : string) : tool_function :=
  fun _ =>
    if String.eqb name "render_chart"
    then Raised "renderer unavailable" "Traceback (most recent call last)"
    else Returned {[ "success" := VBool true; "operation" := VStr name;
                     "vega_spec" := VDict [] ]}.

(** A clock reading for the runs below. *)
Definition demo_clock : string := "2025-01-01T00:00:00".

End ToolExecutor.

(** ** Chart types and the per-chart tool lists
    ([create_config_files.py], [tools/tool_registry.py]) *)

Module ChartTypes.

(** The enumeration written to [config/chart_types.py]. *)
Inductive ChartType : Type :=
| BAR_CHART
| LINE_CHART
| SCATTER_PLOT
| PARALLEL_COORDINATES
| HEATMAP
| SANKEY_DIAGRAM
| UNKNOWN.

Definition chart_value (ct : ChartType) : string :=
  match ct with
  | BAR_CHART => "bar_chart"
  | LINE_CHART => "line_chart"
  | SCATTER_PLOT => "scatter_plot"
  | PARALLEL_COORDINATES => "parallel_coordinates"
  | HEATMAP => "heatmap"
  | SANKEY_DIAGRAM => "sankey_diagram"
  | UNKNOWN => "unknown"
  end.

(** The keys of the seven dictionaries [_register_all_tools] fills the
    catalog from. *)
Definition common_tools : list string :=
  ["get_data_summary"; "get_tooltip_data"; "zoom"; "filter"; "brush";
   "change_encoding"; "highlight"; "render_chart"].
Definition bar_chart_tools_dict : list string :=
  ["sort_bars"; "filter_categories"; "highlight_top_n"; "compare_groups"].
Definition line_chart_tools_dict : list string :=
  ["zoom_time_range"; "highlight_trend"; "compare_series";
   "detect_anomalies"].
Definition scatter_tools : list string :=
  ["select_region"; "identify_clusters"; "calculate_correlation";
   "zoom_dense_area"].
Definition heatmap_tools_dict : list string :=
  ["adjust_color_scale"; "filter_cells"; "highlight_region";
   "cluster_rows_cols"; "select_submatrix"].
Definition parallel_coords_tools_dict : list string :=
  ["filter_dimension"; "highlight_cluster"; "reorder_dimensions"].
Definition sankey_tools_dict : list string :=
  ["filter_flow"; "highlight_path"; "trace_node"].

(** [ToolRegistry._chart_tools]: the chart's own tools, then the common
    ones.  [UNKNOWN] has no entry. *)
Definition _chart_tools (ct : ChartType) : option (list string) :=
  match ct with
  | BAR_CHART => Some (bar_chart_tools_dict ++ common_tools)
  | LINE_CHART => Some (line_chart_tools_dict ++ common_tools)
  | SCATTER_PLOT => Some (scatter_tools ++ common_tools)
  | HEATMAP => Some (heatmap_tools_dict ++ common_tools)
  | PARALLEL_COORDINATES => Some (parallel_coords_tools_dict ++ common_tools)
  | SANKEY_DIAGRAM => Some (sankey_tools_dict ++ common_tools)
  | UNKNOWN => None
  end.

End ChartTypes.

(** ** Schema adapter ([tools/vlm_adapter.py]) *)

Module VLMToolAdapter.

Import ChartTypes.

(** The dictionary [type_mapping] and its [.get(param_type, 'string')]. *)
Definition type_mapping : list (string * string) :=
  [("str", "string"); ("int", "integer"); ("float", "number");
   ("bool", "boolean"); ("list", "array"); ("dict", "object");
   ("tuple", "array"); ("any", "string")].

Fixpoint mapping_get (k : string) (m : list (string * string))
  : option string :=
  match m with
  | [] => None
  | (k', v) :: rest => if String.eqb k k' then Some v else mapping_get k rest
  end.

Definition json_type (param_type : string) : string :=
  default "string" (mapping_get param_type type_mapping).

(** [properties[param_name]] as the loop leaves it. *)
Definition property_of (param_name : string) (ps : param_spec)
  : list (string * value) :=
  let property :=
    [("type", VStr (json_type (ptype ps)));
     ("description",
      VStr ("Parameter " +:+ param_name +:+ " of type " +:+ ptype ps))] in
  match default_value ps with
  | Some d => dset "default" d property
  | None => property
  end.

(** [VLMToolAdapter._convert_params_to_json_schema] *)
Definition _convert_params_to_json_schema
    (params : list (string * param_spec)) : list (string * value) :=
  let properties :=
    fold_left (fun props p => dset p.1 (VDict (property_of p.1 p.2)) props)
      params [] in
  let required :=
    fst <$> filter (fun p => required p.2 = true) params in
  let schema :=
    [("type", VStr "object"); ("properties", VDict properties)] in
  match required with
  | [] => schema
  | _ => dset "required" (VList (VStr <$> required)) schema
  end.

(** One entry of [to_generic_format]. *)
Record tool_desc : Type := {
  td_name : string;
  td_category : string;
  td_description : string;
  td_parameters : string
}.

(** [categories[cat].append(tool)], with [categories[cat] = []] first
    when the category is new. *)
Fixpoint add_to_category (tool : tool_desc)
    (categories : list (string * list tool_desc))
  : list (string * list tool_desc) :=
  match categories with
  | [] => [(td_category tool, [tool])]
  | (cat, cat_tools) :: rest =>
      if String.eqb (td_category tool) cat
      then (cat, cat_tools ++ [tool]) :: rest
      else (cat, cat_tools) :: add_to_category tool rest
  end.

(** The grouping loop of [to_prompt_string]. *)
Definition group_by_category (tools : list tool_desc)
  : list (string * list tool_desc) :=
  fold_left (fun categories tool => add_to_category tool categories)
    tools [].

(** [sep.join(parts)] *)
Fixpoint join (sep : string) (parts : list string) : string :=
  match parts with
  | [] => ""
  | [p] => p
  | p :: rest => p +:+ sep +:+ join sep rest
  end.

(** [''.join(parts)] *)
Definition concat_parts (parts : list string) : string :=
  fold_right String.append "" parts.

(** What the entries of the two function-calling dialects say about a
    tool: its name, its description and its parameter schema. *)
Definition openai_fields (tool : value)
  : option value * option value * option value :=
  match tool with
  | VDict entries =>
      match dget "function" entries with
      | Some (VDict f) =>
          (dget "name" f, dget "description" f, dget "parameters" f)
      | _ => (None, None, None)
      end
  | _ => (None, None, None)
  end.

Definition anthropic_fields (tool : value)
  : option value * option value * option value :=
  match tool with
  | VDict entries =>
      (dget "name" entries, dget "description" entries,
       dget "input_schema" entries)
  | _ => (None, None, None)
  end.

(** The names under ['required'] of a schema; none when the key is
    absent. *)
Definition schema_required (schema : list (string * value)) : list value :=
  match dget "required" schema with
  | Some (VList names) => names
  | _ => []
  end.

Section Adapter.

(** [self.registry._tools] and [self.registry._chart_tools]. *)
Variable registry : list (string * tool_info).
Variable chart_tools : ChartType -> option (list string).

(** [str(x)] on a parameter default, and [s.upper()]. *)
Variable py_str : value -> string.
Variable upper : string -> string.

(** [ToolRegistry.list_tools_for_chart] *)
Definition list_tools_for_chart (chart_type : ChartType) : list string :=
  default (ToolExecutor.list_all_tools registry) (chart_tools chart_type).

(** The tool names each of the three formats starts from; an enumeration
    member is always true. *)
Definition tool_names (chart_type : option ChartType) : list string :=
  match chart_type with
  | Some ct => list_tools_for_chart ct
  | None => ToolExecutor.list_all_tools registry
  end.

(** [VLMToolAdapter.to_openai_format] *)
Definition to_openai_format (chart_type : option ChartType) : list value :=
  omap
    (fun tool_name =>
       match ToolExecutor.get_tool registry tool_name with
       | None => None
       | Some tool_info =>
           Some (VDict
             [("type", VStr "function");
              ("function",
               VDict
                 [("name", VStr tool_name);
                  ("description", VStr (description tool_info));
                  ("parameters",
                   VDict (_convert_params_to_json_schema
                            (param_specs tool_info)))])])
       end)
    (tool_names chart_type).

(** [VLMToolAdapter.to_anthropic_format] *)
Definition to_anthropic_format (chart_type : option ChartType)
  : list value :=
  omap
    (fun tool_name =>
       match ToolExecutor.get_tool registry tool_name with
       | None => None
       | Some tool_info =>
           Some (VDict
             [("name", VStr tool_name);
              ("description", VStr (description tool_info));
              ("input_schema",
               VDict (_convert_params_to_json_schema
                        (param_specs tool_info)))])
       end)
    (tool_names chart_type).

(** One line of the parameter description of [to_generic_format]. *)
Definition param_str (param_name : string) (ps : param_spec) : string :=
  let s := "  - " +:+ param_name +:+ " (" +:+ ptype ps +:+ ")" in
  if required ps then s +:+ " [REQUIRED]"
  else
    match default_value ps with
    | Some d =>
        match d with
        | VStr "N/A" => s
        | _ => s +:+ " [default=" +:+ py_str d +:+ "]"
        end
    | None => s
    end.

(** [VLMToolAdapter.to_generic_format] *)
Definition to_generic_format (chart_type : option ChartType)
  : list tool_desc :=
  omap
    (fun tool_name =>
       match ToolExecutor.get_tool registry tool_name with
       | None => None
       | Some tool_info =>
           let params_desc :=
             (fun p => param_str p.1 p.2) <$> param_specs tool_info in
           Some {| td_name := tool_name;
                   td_category := category tool_info;
                   td_description := description tool_info;
                   td_parameters :=
                     match params_desc with
                     | [] => "No parameters"
                     | _ => join nl params_desc
                     end |}
       end)
    (tool_names chart_type).

(** The parts [to_prompt_string] appends for one category. *)
Definition category_parts (c : string * list tool_desc) : list string :=
  (nl +:+ "## " +:+ upper c.1 +:+ " Tools" +:+ nl)
    :: concat
         ((fun tool =>
             [nl +:+ "### " +:+ td_name tool;
              nl +:+ td_description tool;
              nl +:+ "**Parameters:**" +:+ nl +:+ td_parameters tool +:+ nl])
            <$> c.2).

Definition usage_parts : list string :=
  [nl +:+ "## Tool Usage Format" +:+ nl;
   "To use a tool, respond with JSON in this format:" +:+ nl;
   "```json" +:+ nl;
   "{" +:+ nl;
   "  " +:+ dquote +:+ "tool" +:+ dquote +:+ ": " +:+ dquote +:+ "tool_name"
     +:+ dquote +:+ "," +:+ nl;
   "  " +:+ dquote +:+ "params" +:+ dquote +:+ ": {" +:+ nl;
   "    " +:+ dquote +:+ "vega_spec" +:+ dquote +:+ ": {...}," +:+ nl;
   "    " +:+ dquote +:+ "param1" +:+ dquote +:+ ": " +:+ dquote +:+ "value1"
     +:+ dquote +:+ "," +:+ nl;
   "    " +:+ dquote +:+ "param2" +:+ dquote +:+ ": " +:+ dquote +:+ "value2"
     +:+ dquote +:+ nl;
   "  }," +:+ nl;
   "  " +:+ dquote +:+ "reason" +:+ dquote +:+ ": " +:+ dquote
     +:+ "Why you are calling this tool" +:+ dquote +:+ nl;
   "}" +:+ nl;
   "```" +:+ nl].

(** [VLMToolAdapter.to_prompt_string] *)
Definition to_prompt_string (chart_type : option ChartType) : string :=
  let tools := to_generic_format chart_type in
  let categories := group_by_category tools in
  concat_parts
    (["# Available Tools" +:+ nl]
       ++ concat (category_parts <$> categories)
       ++ usage_parts).

End Adapter.

End VLMToolAdapter.


(** ** Endpoint and renderer interfaces ([core/vlm_service.py],
    [core/vega_service.py]) *)

Inductive role : Type := user | assistant.

Inductive content_part : Type :=
| text (s : string)
| image (url : string).

(** One turn of the transcript sent to the endpoint. *)
Record message : Type := {
  msg_role : role;
  content : list content_part
}.

(** What [VLMService.call] returns with [expect_json=True]: on success the
    reply text and the dictionary extracted from it, otherwise an error
    message. *)
Inductive vlm_response : Type :=
| VlmOk (reply : string) (parsed_json : list (string * value))
| VlmError (error : string).

(** What [VegaService.render] returns. *)
Inductive render_outcome : Type :=
| Rendered (image_base64 : string)
| RenderFailed (error : string).

(** ** Goal-oriented mode ([core/modes/goal_oriented_mode.py]) *)

Module GoalOrientedMode.

Record tool_execution : Type := {
  te_tool_name : value;
  te_tool_params : gmap string value;
  te_tool_result : gmap string value
}.

Record analysis_summary : Type := {
  goal_understanding : value;
  current_gap : value;
  action_plan : value;
  reasoning : value
}.

(** The two shapes of an entry of [iterations]: the record of a round
    whose endpoint call failed, and the record of a round that got a
    decision. *)
Inductive iteration_record : Type :=
| FailedIteration (iteration : nat) (error : string) (timestamp : value)
| Iteration (iteration : nat) (success : bool) (timestamp : value)
    (decision : list (string * value)) (vlm_raw_output : string)
    (images : list string) (summary : analysis_summary)
    (tool_exec : option tool_execution).

Definition iteration_index (r : iteration_record) : nat :=
  match r with
  | FailedIteration i _ _ => i
  | Iteration i _ _ _ _ _ _ _ => i
  end.

Definition iteration_success (r : iteration_record) : bool :=
  match r with
  | FailedIteration _ _ _ => false
  | Iteration _ ok _ _ _ _ _ _ => ok
  end.

(** The part of the session dictionary that [execute] reads and writes
    when it is given a [context]. *)
Record context : Type := {
  goal_oriented_messages : option (list message);
  goal_oriented_iterations : option (list iteration_record)
}.

(** The dictionary [execute] returns. *)
Record result : Type := {
  success : bool;
  mode : string;
  iterations : list iteration_record;
  final_spec : value;
  final_image : string
}.

(** The variables of the loop, with the dispatcher it drives. *)
Record loop_state : Type := {
  messages : list message;
  records : list iteration_record;
  current_spec : value;
  current_image : string;
  tool_executor : ToolExecutor.t
}.

(** How one pass through the loop body ends; [Raise] is an exception
    that leaves [execute]. *)
Inductive step : Type :=
| Continue (s : loop_state)
| Break (s : loop_state)
| Raise.

(** What the engine finds under ['tool_call'] in a decision. *)
Inductive tool_call_shape : Type :=
| NoToolCall
| BadToolCall
| ToolCall (tool_name : value) (tool_params : list (string * value)).

(** [decision.get("tool_call")] is skipped when falsy.  Otherwise
    [tool_call["tool"]] needs a dictionary with that key, the item
    assignment [tool_params['vega_spec'] = ...] needs [params] to be a
    dictionary when present, and the catalog lookup needs a hashable
    name; anything else raises. *)
Definition read_tool_call (decision : list (string * value))
  : tool_call_shape :=
  match dget "tool_call" decision with
  | None => NoToolCall
  | Some tc =>
      if truthy tc then
        match tc with
        | VDict d =>
            match dget "tool" d with
            | None => BadToolCall
            | Some name =>
                match dget "params" d with
                | None =>
                    if hashable name then ToolCall name [] else BadToolCall
                | Some (VDict p) =>
                    if hashable name then ToolCall name p else BadToolCall
                | Some _ => BadToolCall
                end
            end
        | _ => BadToolCall
        end
      else NoToolCall
  end.

(** The log line written right after the endpoint answered evaluates
    [decision.get('tool_call', {}).get('tool', 'None')] whenever
    [decision.get('tool_call')] is truthy; that raises unless the value
    under ['tool_call'] is a dictionary. *)
Definition tool_call_loggable (decision : list (string * value)) : bool :=
  match dget "tool_call" decision with
  | Some tc =>
      if truthy tc then
        match tc with
        | VDict _ => true
        | _ => false
        end
      else true
  | None => true
  end.

(** [decision.get("goal_achieved", False)] as a truth value. *)
Definition goal_achieved (decision : list (string * value)) : bool :=
  truthy (default (VBool false) (dget "goal_achieved" decision)).

(** A structured decision as the engine reads it: a [goal_achieved] flag
    and an optional tool call of the envelope form [{tool, params}].
    These are the decisions on which the loop body raises nothing; on any
    other JSON object (a [tool_call] that is a string, that lacks its
    [tool], whose [params] is no object) an exception leaves [execute]. *)
Definition accepted (decision : list (string * value)) : bool :=
  tool_call_loggable decision
  && (goal_achieved decision
      || match read_tool_call decision with
         | BadToolCall => false
         | _ => true
         end).

(** [tool_params] aliases the dictionary under ['params'] of the decision
    when that key is present, so the item assignment shows in the decision
    kept by the iteration record. *)
Definition decision_after_call (spec : value)
    (decision : list (string * value)) : list (string * value) :=
  match dget "tool_call" decision with
  | Some (VDict d) =>
      match dget "params" d with
      | Some (VDict p) =>
          dset "tool_call"
            (VDict (dset "params" (VDict (dset "vega_spec" spec p)) d))
            decision
      | _ => decision
      end
  | _ => decision
  end.

Definition data_url (image_base64 : string) : string :=
  "data:image/png;base64," +:+ image_base64.

Definition user_message (body image_base64 : string) : message :=
  {| msg_role := user;
     content := [text body; image (data_url image_base64)] |}.

Definition assistant_message (reply : string) : message :=
  {| msg_role := assistant; content := [text reply] |}.

Definition initial_message (user_query image_base64 : string) : message :=
  user_message ("请分析这个视图，用户的分析目标是：" +:+ user_query)
               image_base64.

(** The four feedback turns of the engine. *)
Definition success_feedback (name msg img : string) : message :=
  user_message ("✅ 工具 " +:+ name +:+ " 执行成功。" +:+ nl +:+ nl
                +:+ "结果：" +:+ msg +:+ nl +:+ nl
                +:+ "这是更新后的视图：") img.

Definition render_failure_feedback (name err img : string) : message :=
  user_message ("❌ 工具 " +:+ name +:+ " 执行后渲染失败：" +:+ err
                +:+ nl +:+ nl +:+ "当前视图（未变化）：") img.

Definition analysis_feedback (name msg img : string) : message :=
  user_message ("✅ 工具 " +:+ name +:+ " 执行成功。" +:+ nl +:+ nl
                +:+ "分析结果：" +:+ msg +:+ nl +:+ nl
                +:+ "视图未变化，当前视图：") img.

Definition tool_failure_feedback (name err img : string) : message :=
  user_message ("❌ 工具 " +:+ name +:+ " 执行失败。" +:+ nl +:+ nl
                +:+ "错误原因：" +:+ err +:+ nl +:+ nl
                +:+ "请选择其他可用工具，或如果目标已达成，设置 goal_achieved: true。"
                +:+ nl +:+ nl +:+ "当前视图（未变化）：") img.

(** A user turn built by the engine from a tool outcome. *)
Definition engine_feedback (m : message) : Prop :=
  exists name detail img,
    m = success_feedback name detail img
    \/ m = render_failure_feedback name detail img
    \/ m = analysis_feedback name detail img
    \/ m = tool_failure_feedback name detail img.

Definition role_eqb (a b : role) : bool :=
  match a, b with
  | user, user | assistant, assistant => true
  | _, _ => false
  end.

(** No two neighbouring turns have the same role. *)
Fixpoint alternates (l : list message) : bool :=
  match l with
  | m1 :: rest =>
      match rest with
      | m2 :: _ => negb (role_eqb (msg_role m1) (msg_role m2)) && alternates rest
      | [] => true
      end
  | [] => true
  end.

Section Engine.

(** [Settings.MAX_GOAL_ORIENTED_ITERATIONS]; the settings template of
    the repository sets it to 15. *)
Variable MAX_GOAL_ORIENTED_ITERATIONS : nat.

(** The catalog behind [self.tool_executor]. *)
Variable registry : list (string * tool_info).

(** The external world, indexed by the pass through the loop
    (0-based, as [iteration] in the source): the endpoint's answer to
    [self.vlm.call], the renderer's answer to [self.vega.render], and
    the readings of [time.time()] and of the dispatcher's clock. *)
Variable vlm_call : nat -> vlm_response.
Variable render : nat -> value -> render_outcome.
Variable time_time : nat -> value.
Variable clock : nat -> string.

(** Python's [str] on values other than strings and on result
    dictionaries. *)
Variable py_repr : value -> string.
Variable py_repr_dict : gmap string value -> string.

(** [f"{v}"] *)
Definition str_ (v : value) : string :=
  match v with
  | VStr s => s
  | _ => py_repr v
  end.

(** [self.tool_executor.execute(tool_name, tool_params)].  The catalog
    is keyed by strings, so the lookup of any other hashable name finds
    nothing. *)
Definition dispatch (iteration : nat) (ex : ToolExecutor.t)
    (tool_name : value) (tool_params : gmap string value)
  : gmap string value * ToolExecutor.t :=
  match tool_name with
  | VStr name =>
      ToolExecutor.execute registry (clock iteration) ex name tool_params true
  | _ => (ToolExecutor.not_found_result registry (py_repr tool_name), ex)
  end.

Definition summary_of (decision : list (string * value))
  : analysis_summary :=
  let get k := default VNone (dget k decision) in
  {| goal_understanding := get "goal_understanding";
     current_gap := get "current_gap";
     action_plan := get "action_plan";
     reasoning := get "reasoning" |}.

(** The body of [for iteration in range(...)]. *)
Definition loop_body (iteration : nat) (s : loop_state) : step :=
  match vlm_call iteration with
  | VlmError err =>
      Break {| messages := messages s;
               records := records s
                 ++ [FailedIteration (iteration + 1) err (time_time iteration)];
               current_spec := current_spec s;
               current_image := current_image s;
               tool_executor := tool_executor s |}
  | VlmOk reply decision =>
      let messages1 := messages s ++ [assistant_message reply] in
      let record ok decision images exec :=
        Iteration (iteration + 1) ok (time_time iteration) decision reply
                  images (summary_of decision) exec in
      if negb (tool_call_loggable decision) then Raise
      else if goal_achieved decision then
        Break {| messages := messages1;
                 records := records s
                   ++ [record true decision [current_image s] None];
                 current_spec := current_spec s;
                 current_image := current_image s;
                 tool_executor := tool_executor s |}
      else
        match read_tool_call decision with
        | NoToolCall =>
            Continue {| messages := messages1;
                        records := records s
                          ++ [record true decision [current_image s] None];
                        current_spec := current_spec s;
                        current_image := current_image s;
                        tool_executor := tool_executor s |}
        | BadToolCall => Raise
        | ToolCall tool_name p =>
            let tool_params : gmap string value :=
              <["vega_spec" := current_spec s]> (list_to_map p) in
            let decision := decision_after_call (current_spec s) decision in
            let '(tool_result, ex) :=
              dispatch iteration (tool_executor s) tool_name tool_params in
            let exec :=
              Some {| te_tool_name := tool_name;
                      te_tool_params := delete "vega_spec" tool_params;
                      te_tool_result := tool_result |} in
            let name := str_ tool_name in
            if get_truthy "success" tool_result then
              match tool_result !! "vega_spec" with
              | Some new_spec =>
                  match render iteration new_spec with
                  | Rendered img =>
                      let success_msg :=
                        str_ (default (VStr "操作完成")
                                      (tool_result !! "message")) in
                      Continue
                        {| messages := messages1
                             ++ [success_feedback name success_msg img];
                           records := records s
                             ++ [record true decision
                                   [current_image s; img] exec];
                           current_spec := new_spec;
                           current_image := img;
                           tool_executor := ex |}
                  | RenderFailed render_error =>
                      Continue
                        {| messages := messages1
                             ++ [render_failure_feedback name render_error
                                   (current_image s)];
                           records := records s
                             ++ [record false decision
                                   [current_image s] exec];
                           current_spec := new_spec;
                           current_image := current_image s;
                           tool_executor := ex |}
                  end
              | None =>
                  let analysis_msg :=
                    match tool_result !! "message" with
                    | Some m => str_ m
                    | None => py_repr_dict tool_result
                    end in
                  Continue
                    {| messages := messages1
                         ++ [analysis_feedback name analysis_msg
                               (current_image s)];
                       records := records s
                         ++ [record true decision [current_image s] exec];
                       current_spec := current_spec s;
                       current_image := current_image s;
                       tool_executor := ex |}
              end
            else
              let error_msg :=
                str_ (default (VStr "Unknown error")
                              (tool_result !! "error")) in
              Continue
                {| messages := messages1
                     ++ [tool_failure_feedback name error_msg
                           (current_image s)];
                   records := records s
                     ++ [record false decision [current_image s] exec];
                   current_spec := current_spec s;
                   current_image := current_image s;
                   tool_executor := ex |}
        end
  end.

(** [for iteration in range(iteration, iteration + remaining)], with its
    [break]; [None] when an exception leaves the loop. *)
Fixpoint for_range (iteration remaining : nat) (s : loop_state)
  : option loop_state :=
  match remaining with
  | 0 => Some s
  | S remaining' =>
      match loop_body iteration s with
      | Continue s' => for_range (S iteration) remaining' s'
      | Break s' => Some s'
      | Raise => None
      end
  end.

(** The endpoint answers pass [i] with a decision the engine accepts. *)
Definition round_ok (i : nat) : Prop :=
  exists reply decision,
    vlm_call i = VlmOk reply decision /\ accepted decision = true.

(** The endpoint's decision of pass [i] sets [goal_achieved]. *)
Definition achieved_at (i : nat) : bool :=
  match vlm_call i with
  | VlmOk _ decision => goal_achieved decision
  | VlmError _ => false
  end.

(** The turns one pass adds to the transcript, with whether the loop
    goes on after it. *)
Inductive round_turns (i : nat) : bool -> list message -> Prop :=
| turns_endpoint_failed err :
    vlm_call i = VlmError err -> round_turns i false []
| turns_goal_achieved reply decision :
    vlm_call i = VlmOk reply decision ->
    goal_achieved decision = true ->
    round_turns i false [assistant_message reply]
| turns_no_tool_call reply decision :
    vlm_call i = VlmOk reply decision ->
    goal_achieved decision = false ->
    read_tool_call decision = NoToolCall ->
    round_turns i true [assistant_message reply]
| turns_dispatched reply decision name p m :
    vlm_call i = VlmOk reply decision ->
    goal_achieved decision = false ->
    read_tool_call decision = ToolCall name p ->
    engine_feedback m ->
    round_turns i true [assistant_message reply; m].

(** The turns added by the passes [i], [i+1], ... of a loop with [n]
    passes left. *)
Inductive run_turns : nat -> nat -> list message -> Prop :=
| run_exhausted i : run_turns i 0 []
| run_break i n turns :
    round_turns i false turns -> run_turns i (S n) turns
| run_continue i n turns rest :
    round_turns i true turns ->
    run_turns (S i) n rest ->
    run_turns i (S n) (turns ++ rest).

(** The transcript and the records [execute] starts from. *)
Definition starting_messages (user_query image_base64 : string)
    (ctx : option context) : list message :=
  let messages :=
    match ctx with
    | Some c => default [] (goal_oriented_messages c)
    | None => []
    end in
  match messages with
  | [] => [initial_message user_query image_base64]
  | _ => messages
  end.

Definition starting_records (ctx : option context)
  : list iteration_record :=
  match ctx with
  | Some c => default [] (goal_oriented_iterations c)
  | None => []
  end.

(** The loop of [execute], from the state set up before it. *)
Definition run_loop (user_query : string) (vega_spec : value)
    (image_base64 : string) (ctx : option context) (ex : ToolExecutor.t)
  : option loop_state :=
  for_range 0 MAX_GOAL_ORIENTED_ITERATIONS
    {| messages := starting_messages user_query image_base64 ctx;
       records := starting_records ctx;
       current_spec := vega_spec;
       current_image := image_base64;
       tool_executor := ex |}.

(** [GoalOrientedMode.execute].  It returns the result dictionary, the
    context as it leaves it and the dispatcher, or [None] when an
    exception escapes.  [chart_type] only selects the system prompt,
    which the endpoint of this model does not look at. *)
Definition execute (user_query : string) (vega_spec : value)
    (image_base64 : string) (chart_type : string) (ctx : option context)
    (ex : ToolExecutor.t)
  : option (result * option context * ToolExecutor.t) :=
  match run_loop user_query vega_spec image_base64 ctx ex with
  | None => None
  | Some s =>
      let ctx' :=
        match ctx with
        | Some _ =>
            Some {| goal_oriented_messages := Some (messages s);
                    goal_oriented_iterations := Some (records s) |}
        | None => None
        end in
      Some ({| success := true;
               mode := "goal_oriented";
               iterations := records s;
               final_spec := current_spec s;
               final_image := current_image s |},
            ctx', tool_executor s)
  end.

(** What a pass may change besides the records: it calls at most one
    tool body, keeps the log within its bound, and leaves an image that
    is the one it found or one the renderer returned in this pass for
    the chart it leaves. *)
Definition pass_frame (i : nat) (s s' : loop_state) : Prop :=
  (length (ToolExecutor.bodies_invoked (tool_executor s'))
   <= length (ToolExecutor.bodies_invoked (tool_executor s)) + 1)
  /\ (length (ToolExecutor.execution_history (tool_executor s)) <= 100 ->
      length (ToolExecutor.execution_history (tool_executor s')) <= 100)
  /\ (current_image s' = current_image s
      \/ render i (current_spec s') = Rendered (current_image s')).

End Engine.

(** *** Sample runs *)

(** A decision that calls [brush], one that declares the goal achieved and
    one that does neither. *)
Definition decision_brush : list (string * value) :=
  [("goal_achieved", VBool false);
   ("tool_call",
    VDict [("tool", VStr "brush");
           ("params", VDict [("area", VList [VInt 0; VInt 0; VInt 1; VInt 1])])])].

Definition decision_done : list (string * value) :=
  [("goal_achieved", VBool true)].

Definition decision_idle : list (string * value) :=
  [("reasoning", VStr "still looking"); ("goal_achieved", VBool false)].

(** An endpoint that calls a tool twice and then declares the goal
    achieved. *)
Definition vlm_two_calls (i : nat) : vlm_response :=
  match i with
  | 0 | 1 => VlmOk "brush the unit square" decision_brush
  | _ => VlmOk "goal achieved" decision_done
  end.

(** An endpoint that calls a tool once and then declares the goal
    achieved. *)
Definition vlm_one_call (i : nat) : vlm_response :=
  match i with
  | 0 => VlmOk "brush the unit square" decision_brush
  | _ => VlmOk "goal achieved" decision_done
  end.

(** An endpoint that never declares the goal achieved. *)
Definition vlm_never_done (_ : nat) : vlm_response :=
  VlmOk "brush the unit square" decision_brush.

(** An endpoint that answers twice without a tool call, then declares the
    goal achieved. *)
Definition vlm_idle_twice (i : nat) : vlm_response :=
  match i with
  | 0 | 1 => VlmOk "let me think" decision_idle
  | _ => VlmOk "goal achieved" decision_done
  end.

(** A renderer that works, and one that fails on the first pass only. *)
Definition render_ok (_ : nat) (_ : value) : render_outcome :=
  Rendered "cmVuZGVyZWQ=".

Definition render_fails_first (i : nat) (_ : value) : render_outcome :=
  match i with
  | 0 => RenderFailed "vega-cli execution failed"
  | _ => Rendered "cmVuZGVyZWQ="
  end.

Definition demo_time (i : nat) : value := VInt (1700000000 + Z.of_nat i).
Definition demo_repr (_ : value) : string := "<value>".
Definition demo_repr_dict (_ : gmap string value) : string := "<dict>".

(** The chart and image the sample runs start from. *)
Definition demo_spec : value :=
  VDict [("mark", VStr "point");
         ("encoding", VDict [("x", VDict [("field", VStr "a")]);
                             ("y", VDict [("field", VStr "b")])])].
Definition demo_image : string := "b3JpZ2luYWw=".

(** [execute] on the real catalog with the stand-in bodies, 15 passes at
    most, a fresh session. *)
Definition demo_execute (vlm : nat -> vlm_response)
    (render : nat -> value -> render_outcome)
  : option (result * option context * ToolExecutor.t) :=
  execute 15 (registered_tools ToolExecutor.demo_impl) vlm render demo_time
    (fun _ => ToolExecutor.demo_clock) demo_repr demo_repr_dict
    "brush the unit square" demo_spec demo_image "scatter_plot"
    (Some {| goal_oriented_messages := None;
             goal_oriented_iterations := None |})
    ToolExecutor.init.

(** A decision whose tool call gives the tool under ['name'] where the
    engine reads ['tool']. *)
Definition decision_misnamed : list (string * value) :=
  [("goal_achieved", VBool false);
   ("tool_call",
    VDict [("name", VStr "brush");
           ("params", VDict [("area", VList [VInt 0; VInt 0; VInt 1; VInt 1])])])].

(** An endpoint that answers with that decision first and declares the
    goal achieved next, and one that only ever answers with it. *)
Definition vlm_misnamed_first (i : nat) : vlm_response :=
  match i with
  | 0 => VlmOk "brush the unit square" decision_misnamed
  | _ => VlmOk "goal achieved" decision_done
  end.

Definition vlm_misnamed_always (_ : nat) : vlm_response :=
  VlmOk "brush the unit square" decision_misnamed.

(** An endpoint that calls a tool once and is then out of reach. *)
Definition vlm_fails_second (i : nat) : vlm_response :=
  match i with
  | 0 => VlmOk "brush the unit square" decision_brush
  | _ => VlmError "endpoint unreachable"
  end.

(** A context left by an earlier execution. *)
Definition demo_resumed_context : context :=
  {| goal_oriented_messages :=
       Some [initial_message "brush the unit square" demo_image;
             assistant_message "goal achieved"];
     goal_oriented_iterations := Some [] |}.

End GoalOrientedMode.

(** ** Direct mode ([core/modes/chitchat_mode.py]) *)

Module ChitchatMode.

(** The two dictionaries [execute] returns. *)
Inductive result : Type :=
| Answered (response raw_output : string)
| Failed (error : string).

Definition success (r : result) : bool :=
  match r with
  | Answered _ _ => true
  | Failed _ => false
  end.

Section Engine.

(** [self.vlm.call(messages, full_system_prompt, expect_json=False)] *)
Variable vlm_call : list message -> vlm_response.

(** [ChitchatMode.execute], given the list under ['chitchat_messages'] of
    the context when there is one.  An existing list is appended to in
    place, so the user turn stays in it when the endpoint fails; a new
    list reaches the context on success only. *)
Definition execute (user_query image_base64 : string)
    (chitchat_messages : option (list message))
  : result * option (list message) :=
  let user_message :=
    if negb (String.eqb image_base64 EmptyString) then
      {| msg_role := user;
         content := [text user_query;
                     image ("data:image/png;base64," +:+ image_base64)] |}
    else {| msg_role := user; content := [text user_query] |} in
  let messages := default [] chitchat_messages ++ [user_message] in
  match vlm_call messages with
  | VlmOk reply _ =>
      let assistant_message :=
        {| msg_role := assistant; content := [text reply] |} in
      (Answered reply reply, Some (messages ++ [assistant_message]))
  | VlmError error =>
      (Failed error,
       match chitchat_messages with
       | Some _ => Some messages
       | None => None
       end)
  end.

End Engine.

End ChitchatMode.

(** ** Session manager ([core/session_manager.py]) *)

Module SessionManager.

(** [config/intent_types.py] *)
Inductive IntentType : Type :=
| CHITCHAT
| EXPLICIT_ANALYSIS
| VAGUE_EXPLORATION
| UNKNOWN.

Definition intent_value (it : IntentType) : string :=
  match it with
  | CHITCHAT => "chitchat"
  | EXPLICIT_ANALYSIS => "explicit_analysis"
  | VAGUE_EXPLORATION => "vague_exploration"
  | UNKNOWN => "unknown"
  end.

(** [for it in IntentType: if it.value == intent_str: return it], falling
    through to [UNKNOWN]. *)
Definition intent_of_label (intent_str : value) : IntentType :=
  match intent_str with
  | VStr s =>
      if String.eqb s "chitchat" then CHITCHAT
      else if String.eqb s "explicit_analysis" then EXPLICIT_ANALYSIS
      else if String.eqb s "vague_exploration" then VAGUE_EXPLORATION
      else UNKNOWN
  | _ => UNKNOWN
  end.

Definition greetings : list string :=
  ["你好"; "您好"; "hi"; "hello"; "hey"; "嗨"; "hola";
   "早上好"; "中午好"; "下午好"; "晚上好"; "早安"; "晚安"].

Definition polite_words : list string :=
  ["谢谢"; "多谢"; "thanks"; "thank you"; "thx";
   "再见"; "拜拜"; "bye"; "goodbye"; "see you"].

Definition system_queries : list string :=
  ["你是谁"; "你叫什么"; "你能做什么"; "你会什么";
   "怎么用"; "怎么使用"; "如何使用"; "使用方法";
   "what can you do"; "how to use"; "who are you"].

Definition explicit_actions : list string :=
  ["筛选"; "过滤"; "filter"; "select";
   "放大"; "缩小"; "zoom"; "scale";
   "高亮"; "突出"; "highlight"; "emphasize";
   "排序"; "sort"; "order";
   "显示"; "隐藏"; "show"; "hide";
   "对比"; "比较"; "compare"; "contrast";
   "选择"; "选中"; "choose"; "pick";
   "调整"; "修改"; "adjust"; "modify";
   "聚焦"; "focus";
   "只看"; "只显示"; "only show";
   "去掉"; "删除"; "remove"; "delete";
   "添加"; "增加"; "add";
   "改成"; "换成"; "change to";
   "设置为"; "set to"].

(** [user_query.lower().strip()] *)
Definition query_lower (user_query : string) : list N :=
  PyStr.strip (PyStr.lower (PyStr.codepoints user_query)).

(** The verdict of the keyword rules, when one of them matches. *)
Definition lexical_intent (user_query : string) : option IntentType :=
  let q := query_lower user_query in
  if Nat.ltb (length q) 10
     && (PyStr.any_in greetings q || PyStr.any_in polite_words q)
  then Some CHITCHAT
  else if PyStr.any_in system_queries q then Some CHITCHAT
  else if PyStr.any_in explicit_actions q then Some EXPLICIT_ANALYSIS
  else None.

(** The results a query can end with. *)
Inductive query_result : Type :=
| SessionNotFound
| ChitchatResult (r : ChitchatMode.result)
| GoalResult (r : GoalOrientedMode.result)
| ExploreResult (r : gmap string value).

(** An entry of ['conversation_history'].  It holds the result as it is
    when the entry is appended.  In the source the result of an
    explicit-goal query shares its ['iterations'] list with the session,
    and a later explicit-goal query extends that list in place; what is
    stated below about entries appended earlier is stated about their
    query, intent and timestamp. *)
Record history_entry : Type := {
  query : string;
  intent : string;
  result : query_result;
  timestamp : value
}.

(** A session dictionary.  The last three fields are the keys the direct
    and goal-oriented engines add to it; [extra] holds whatever else an
    engine stores. *)
Record session : Type := {
  session_id : string;
  vega_spec : value;
  original_spec : value;
  current_image : string;
  chart_type : string;
  conversation_history : list history_entry;
  created_at : value;
  last_activity : value;
  chitchat_messages : option (list message);
  goal_oriented_messages : option (list message);
  goal_oriented_iterations : option (list GoalOrientedMode.iteration_record);
  extra : gmap string value
}.

(** The manager with the dispatcher its goal-oriented engine drives. *)
Record t : Type := {
  sessions : gmap string session;
  tool_executor : ToolExecutor.t
}.

Section Manager.

(** [self.vlm.call_with_image(prompt, image, expect_json=True)] and
    [self.prompt_mgr.get_intent_recognition_prompt]. *)
Variable call_with_image : string -> string -> vlm_response.
Variable get_intent_recognition_prompt : string -> string -> string.

(** [SessionManager._recognize_intent].  Next to the intent it returns the
    requests it sent to the endpoint (instrumentation). *)
Definition _recognize_intent (user_query image_base64 chart_type : string)
  : IntentType * list (string * string) :=
  let q := query_lower user_query in
  if Nat.ltb (length q) 10
     && (PyStr.any_in greetings q || PyStr.any_in polite_words q)
  then (CHITCHAT, [])
  else if PyStr.any_in system_queries q then (CHITCHAT, [])
  else if PyStr.any_in explicit_actions q then (EXPLICIT_ANALYSIS, [])
  else
    let intent_prompt := get_intent_recognition_prompt user_query chart_type in
    let request := (intent_prompt, image_base64) in
    match call_with_image intent_prompt image_base64 with
    | VlmOk _ parsed =>
        (intent_of_label (default (VStr "unknown") (dget "intent_type" parsed)),
         [request])
    | VlmError _ => (UNKNOWN, [request])
    end.

(** The engines and the clock of [process_query]. *)
Variable chitchat_vlm : list message -> vlm_response.
Variable goal_execute :
  string -> value -> string -> string -> option GoalOrientedMode.context ->
  ToolExecutor.t ->
  option (GoalOrientedMode.result * option GoalOrientedMode.context
          * ToolExecutor.t).

(** [AutonomousExplorationMode.execute] is not part of the sources at
    hand; it is whatever function of its arguments, returning a result
    dictionary and the session as it leaves it, or raising. *)
Variable explore_execute :
  string -> value -> string -> string -> session ->
  option (gmap string value * session).
Variable time_time : nat -> value.

Definition set_last_activity (now : value) (s : session) : session :=
  {| session_id := session_id s; vega_spec := vega_spec s;
     original_spec := original_spec s; current_image := current_image s;
     chart_type := chart_type s;
     conversation_history := conversation_history s;
     created_at := created_at s; last_activity := now;
     chitchat_messages := chitchat_messages s;
     goal_oriented_messages := goal_oriented_messages s;
     goal_oriented_iterations := goal_oriented_iterations s;
     extra := extra s |}.

Definition set_chitchat_messages (m : option (list message)) (s : session)
  : session :=
  {| session_id := session_id s; vega_spec := vega_spec s;
     original_spec := original_spec s; current_image := current_image s;
     chart_type := chart_type s;
     conversation_history := conversation_history s;
     created_at := created_at s; last_activity := last_activity s;
     chitchat_messages := m;
     goal_oriented_messages := goal_oriented_messages s;
     goal_oriented_iterations := goal_oriented_iterations s;
     extra := extra s |}.

(** The view of the session the goal-oriented engine works on, and its
    write-back. *)
Definition goal_context (s : session) : GoalOrientedMode.context :=
  {| GoalOrientedMode.goal_oriented_messages := goal_oriented_messages s;
     GoalOrientedMode.goal_oriented_iterations := goal_oriented_iterations s |}.

Definition set_goal_context (c : option GoalOrientedMode.context)
    (s : session) : session :=
  match c with
  | None => s
  | Some c =>
      {| session_id := session_id s; vega_spec := vega_spec s;
         original_spec := original_spec s; current_image := current_image s;
         chart_type := chart_type s;
         conversation_history := conversation_history s;
         created_at := created_at s; last_activity := last_activity s;
         chitchat_messages := chitchat_messages s;
         goal_oriented_messages :=
           GoalOrientedMode.goal_oriented_messages c;
         goal_oriented_iterations :=
           GoalOrientedMode.goal_oriented_iterations c;
         extra := extra s |}
  end.

(** [session["vega_spec"] = ...; session["current_image"] = ...] *)
Definition set_view (spec : value) (img : string) (s : session) : session :=
  {| session_id := session_id s; vega_spec := spec;
     original_spec := original_spec s; current_image := img;
     chart_type := chart_type s;
     conversation_history := conversation_history s;
     created_at := created_at s; last_activity := last_activity s;
     chitchat_messages := chitchat_messages s;
     goal_oriented_messages := goal_oriented_messages s;
     goal_oriented_iterations := goal_oriented_iterations s;
     extra := extra s |}.

Definition append_history (e : history_entry) (s : session) : session :=
  {| session_id := session_id s; vega_spec := vega_spec s;
     original_spec := original_spec s; current_image := current_image s;
     chart_type := chart_type s;
     conversation_history := conversation_history s ++ [e];
     created_at := created_at s; last_activity := last_activity s;
     chitchat_messages := chitchat_messages s;
     goal_oriented_messages := goal_oriented_messages s;
     goal_oriented_iterations := goal_oriented_iterations s;
     extra := extra s |}.

(** Step 2 of [process_query]: the engine selected by the intent, run on
    the session.  [None] when an exception leaves the engine. *)
Definition dispatch_mode (it : IntentType) (user_query : string)
    (s : session) (ex : ToolExecutor.t)
  : option (query_result * session * ToolExecutor.t) :=
  match it with
  | CHITCHAT =>
      let '(r, msgs) :=
        ChitchatMode.execute chitchat_vlm user_query (current_image s)
          (chitchat_messages s) in
      Some (ChitchatResult r, set_chitchat_messages msgs s, ex)
  | EXPLICIT_ANALYSIS =>
      match goal_execute user_query (vega_spec s) (current_image s)
              (chart_type s) (Some (goal_context s)) ex with
      | None => None
      | Some (r, c, ex') =>
          let s := set_goal_context c s in
          let s :=
            if GoalOrientedMode.success r
            then set_view (GoalOrientedMode.final_spec r)
                          (GoalOrientedMode.final_image r) s
            else s in
          Some (GoalResult r, s, ex')
      end
  | _ =>
      match explore_execute user_query (vega_spec s) (current_image s)
              (chart_type s) s with
      | None => None
      | Some (r, s') => Some (ExploreResult r, s', ex)
      end
  end.

(** [SessionManager.process_query] *)
Definition process_query (self : t) (sid user_query : string)
  : option (query_result * t) :=
  match sessions self !! sid with
  | None => Some (SessionNotFound, self)
  | Some s =>
      let s := set_last_activity (time_time 0) s in
      let it :=
        (_recognize_intent user_query (current_image s) (chart_type s)).1 in
      match dispatch_mode it user_query s (tool_executor self) with
      | None => None
      | Some (r, s, ex) =>
          let s :=
            append_history
              {| query := user_query; intent := intent_value it;
                 result := r; timestamp := time_time 1 |} s in
          Some (r, {| sessions := <[sid := s]> (sessions self);
                      tool_executor := ex |})
      end
  end.

End Manager.

(** *** A sample manager *)

Definition demo_session : session :=
  {| session_id := "s-1"; vega_spec := GoalOrientedMode.demo_spec;
     original_spec := GoalOrientedMode.demo_spec;
     current_image := GoalOrientedMode.demo_image;
     chart_type := "scatter_plot"; conversation_history := [];
     created_at := VInt 1700000000; last_activity := VInt 1700000000;
     chitchat_messages := None; goal_oriented_messages := None;
     goal_oriented_iterations := None; extra := ∅ |}.

Definition demo_manager : t :=
  {| sessions := {[ "s-1" := demo_session ]};
     tool_executor := ToolExecutor.init |}.

(** An exploration engine that reports one insight and notes in the
    session that it ran. *)
Definition demo_explore (user_query : string) (spec : value)
    (img chart : string) (s : session)
  : option (gmap string value * session) :=
  Some ({[ "success" := VBool true; "mode" := VStr "autonomous_exploration" ]},
        {| session_id := session_id s; vega_spec := vega_spec s;
           original_spec := original_spec s; current_image := current_image s;
           chart_type := chart_type s;
           conversation_history := conversation_history s;
           created_at := created_at s; last_activity := last_activity s;
           chitchat_messages := chitchat_messages s;
           goal_oriented_messages := goal_oriented_messages s;
           goal_oriented_iterations := goal_oriented_iterations s;
           extra := <["exploration_messages" := VList []]> (extra s) |}).

(** [process_query] with an intent endpoint that is down, the real
    goal-oriented engine on the stand-in catalog and [demo_explore]. *)
Definition demo_process_query (self : t) (sid user_query : string)
  : option (query_result * t) :=
  process_query
    (fun _ _ => VlmError "endpoint unreachable")
    (fun q _ => "classify: " +:+ q)
    (fun _ => VlmOk "hello" [])
    (GoalOrientedMode.execute 15 (registered_tools ToolExecutor.demo_impl)
       GoalOrientedMode.vlm_one_call GoalOrientedMode.render_ok
       GoalOrientedMode.demo_time (fun _ => ToolExecutor.demo_clock)
       GoalOrientedMode.demo_repr GoalOrientedMode.demo_repr_dict)
    demo_explore GoalOrientedMode.demo_time self sid user_query.

(** *** Intent names ([config/intent_types.py]) *)

(** [s.replace(old, new)] for single characters. *)
Definition replace_char (old new : N) (s : list N) : list N :=
  (fun c => if (c =? old)%N then new else c) <$> s.

(** [IntentType.from_string].  The members are tried in declaration
    order.  [PyStr.lower] changes ASCII letters only; this is exact here,
    because the only other character whose lower case is made of ASCII
    letters is the Kelvin sign, which gives [k], and the only value with
    a [k] is that of [UNKNOWN], the result of a failed search as well. *)
Definition from_string (intent : string) : IntentType :=
  let intent_lower :=
    replace_char 45 95
      (replace_char 32 95 (PyStr.lower (PyStr.codepoints intent))) in
  let is_value (it : IntentType) : bool :=
    bool_decide (PyStr.codepoints (intent_value it) = intent_lower) in
  if is_value CHITCHAT then CHITCHAT
  else if is_value EXPLICIT_ANALYSIS then EXPLICIT_ANALYSIS
  else if is_value VAGUE_EXPLORATION then VAGUE_EXPLORATION
  else UNKNOWN.

(** *** Creating, reading and resetting sessions *)

(** [for ct in ChartType: if ct.value == chart_type_str: return ct] *)
Definition chart_of_label (chart_type_str : value)
  : option ChartTypes.ChartType :=
  match chart_type_str with
  | VStr s =>
      snd <$>
        list_find (fun ct => ChartTypes.chart_value ct = s)
          [ChartTypes.BAR_CHART; ChartTypes.LINE_CHART;
           ChartTypes.SCATTER_PLOT; ChartTypes.PARALLEL_COORDINATES;
           ChartTypes.HEATMAP; ChartTypes.SANKEY_DIAGRAM;
           ChartTypes.UNKNOWN]
  | _ => None
  end.

(** The prompt of [_identify_chart_type]. *)
Definition chart_type_prompt : string :=
  "请识别这个图表的类型。返回JSON格式：" +:+ nl +:+
  "{" +:+ nl +:+
  "    " +:+ dquote +:+ "chart_type" +:+ dquote +:+ ": " +:+ dquote +:+
  "bar_chart|line_chart|scatter_plot|parallel_coordinates|heatmap|sankey_diagram"
  +:+ dquote +:+ "," +:+ nl +:+
  "    " +:+ dquote +:+ "confidence" +:+ dquote +:+ ": 0.0-1.0," +:+ nl +:+
  "    " +:+ dquote +:+ "reasoning" +:+ dquote +:+ ": " +:+ dquote +:+
  "判断理由" +:+ dquote +:+ nl +:+
  "}".

Section Lifecycle.

(** [self.vega.render], [self.vlm.call_with_image],
    [get_candidate_chart_types] of [config/chart_types.py], the wall
    clock, and the text under which a chart type is carried in the
    session record. *)
Variable vega_render : value -> render_outcome.
Variable call_with_image : string -> string -> vlm_response.
Variable get_candidate_chart_types : value -> list ChartTypes.ChartType.
Variable time_time : nat -> value.
Variable chart_repr : ChartTypes.ChartType -> string.

(** The second half of [_identify_chart_type]: ask the endpoint. *)
Definition chart_type_by_sight (image_base64 : string)
  : ChartTypes.ChartType :=
  match call_with_image chart_type_prompt image_base64 with
  | VlmOk _ parsed =>
      default ChartTypes.UNKNOWN
        (chart_of_label (default (VStr "unknown") (dget "chart_type" parsed)))
  | VlmError _ => ChartTypes.UNKNOWN
  end.

(** [SessionManager._identify_chart_type] *)
Definition _identify_chart_type (vega_spec : value) (image_base64 : string)
  : ChartTypes.ChartType :=
  match get_candidate_chart_types vega_spec with
  | [candidate] =>
      match candidate with
      | ChartTypes.UNKNOWN => chart_type_by_sight image_base64
      | _ => candidate
      end
  | _ => chart_type_by_sight image_base64
  end.

(** [SessionManager.create_session]; [new_id] is what
    [str(uuid.uuid4())] returns. *)
Definition create_session (self : t) (new_id : string) (spec : value)
  : option string * t :=
  match vega_render spec with
  | RenderFailed _ => (None, self)
  | Rendered image_base64 =>
      let chart := _identify_chart_type spec image_base64 in
      let s :=
        {| session_id := new_id; vega_spec := spec; original_spec := spec;
           current_image := image_base64; chart_type := chart_repr chart;
           conversation_history := [];
           created_at := time_time 0; last_activity := time_time 1;
           chitchat_messages := None; goal_oriented_messages := None;
           goal_oriented_iterations := None; extra := ∅ |} in
      (Some new_id,
       {| sessions := <[new_id := s]> (sessions self);
          tool_executor := tool_executor self |})
  end.

(** [SessionManager.get_session] *)
Definition get_session (self : t) (sid : string) : option session :=
  sessions self !! sid.

(** [SessionManager.reset_view] *)
Definition reset_view (self : t) (sid : string)
  : gmap string value * t :=
  match sessions self !! sid with
  | None =>
      ({[ "success" := VBool false; "error" := VStr "Session not found" ]},
       self)
  | Some s =>
      let s := set_view (original_spec s) (current_image s) s in
      let s :=
        match vega_render (vega_spec s) with
        | Rendered image_base64 => set_view (vega_spec s) image_base64 s
        | RenderFailed _ => s
        end in
      ({[ "success" := VBool true;
          "message" := VStr "View reset to original state" ]},
       {| sessions := <[sid := s]> (sessions self);
          tool_executor := tool_executor self |})
  end.

End Lifecycle.

Section Conversation.

Variable call_with_image : string -> string -> vlm_response.
Variable get_intent_recognition_prompt : string -> string -> string.
Variable chitchat_vlm : list message -> vlm_response.
Variable goal_execute :
  string -> value -> string -> string -> option GoalOrientedMode.context ->
  ToolExecutor.t ->
  option (GoalOrientedMode.result * option GoalOrientedMode.context
          * ToolExecutor.t).
Variable explore_execute :
  string -> value -> string -> string -> session ->
  option (gmap string value * session).
Variable time_time : nat -> value.

(** A conversation: queries, each addressed to a session, processed one
    after the other; [None] when an exception leaves one of them. *)
Fixpoint process_queries (self : t) (queries : list (string * string))
  : option t :=
  match queries with
  | [] => Some self
  | (sid, user_query) :: rest =>
      match process_query call_with_image get_intent_recognition_prompt
              chitchat_vlm goal_execute explore_execute time_time
              self sid user_query with
      | Some (_, self) => process_queries self rest
      | None => None
      end
  end.

(** What the exploration engine, whose source is not at hand, is
    expected to leave alone in the session. *)
Definition explore_keeps_record : Prop :=
  forall user_query spec img chart s r s',
    explore_execute user_query spec img chart s = Some (r, s') ->
    original_spec s' = original_spec s
    /\ conversation_history s' = conversation_history s.

End Conversation.

(** [process_queries] with the engines of [demo_process_query]. *)
Definition demo_process_queries (self : t) (queries : list (string * string))
  : option t :=
  process_queries
    (fun _ _ => VlmError "endpoint unreachable")
    (fun q _ => "classify: " +:+ q)
    (fun _ => VlmOk "hello" [])
    (GoalOrientedMode.execute 15 (registered_tools ToolExecutor.demo_impl)
       GoalOrientedMode.vlm_one_call GoalOrientedMode.render_ok
       GoalOrientedMode.demo_time (fun _ => ToolExecutor.demo_clock)
       GoalOrientedMode.demo_repr GoalOrientedMode.demo_repr_dict)
    demo_explore GoalOrientedMode.demo_time self queries.

(** A renderer that works and one that is down. *)
Definition demo_render (_ : value) : render_outcome := Rendered "cmVzZXQ=".
Definition demo_render_down (_ : value) : render_outcome :=
  RenderFailed "renderer unavailable".

End SessionManager.

(** ** JSON extraction ([core/utils/json_utils.py]) *)

Module JsonUtils.

(** What [json.loads] does with a text: it returns the value read,
    raises [json.JSONDecodeError] on a text that is no JSON document, or
    raises another exception: a [ValueError] for an integer literal of
    more digits than the interpreter converts ([int_max_str_digits]), a
    [RecursionError] for a document nested deeper than its stack goes. *)
Inductive loads_outcome : Type :=
| Loaded (v : value)
| DecodeError
| OtherError.

(** *** A reader for JSON texts

    [json_loads] stands for Python's [json.loads] on the texts it covers:
    RFC 8259 documents whose strings use no [\u] escape, whose floats
    are not rounded to zero and whose nesting stays within the
    interpreter's stack.  Outside of that fragment (also for the [NaN]
    and [Infinity] literals Python accepts) it answers [DecodeError];
    the properties of the extraction below are stated for an arbitrary
    reader and use this one for sample texts only. *)

(** The result of reading a part of the text: what was read and the
    text after it, or one of the two ways of raising. *)
Inductive scan (A : Type) : Type :=
| Scanned (a : A) (rest : list ascii)
| ScanDecodeError
| ScanOtherError.

Arguments Scanned {A} a rest.
Arguments ScanDecodeError {A}.
Arguments ScanOtherError {A}.

(** [sys.get_int_max_str_digits()], by default. *)
Definition int_max_str_digits : nat := 4300.

Definition quote_char : ascii := ascii_of_nat 34.

Definition is_ws (c : ascii) : bool :=
  let n := nat_of_ascii c in
  Nat.eqb n 32 || Nat.eqb n 9 || Nat.eqb n 10 || Nat.eqb n 13.

Fixpoint skip_ws (s : list ascii) : list ascii :=
  match s with
  | c :: rest => if is_ws c then skip_ws rest else s
  | [] => []
  end.

Definition digit_of (c : ascii) : option Z :=
  let n := nat_of_ascii c in
  if Nat.leb 48 n && Nat.leb n 57 then Some (Z.of_nat (n - 48)) else None.

(** Reads a run of digits: the number read so far, how many digits were
    read, and the rest. *)
Fixpoint read_digits (acc : Z) (count : nat) (s : list ascii)
  : Z * nat * list ascii :=
  match s with
  | c :: rest =>
      match digit_of c with
      | Some d => read_digits (acc * 10 + d) (S count) rest
      | None => (acc, count, s)
      end
  | [] => (acc, count, s)
  end.

(** The integer part: [0] or a digit run without leading zero, with
    the number of its digits. *)
Definition read_int_part (s : list ascii) : option (Z * nat * list ascii) :=
  match s with
  | c :: rest =>
      match digit_of c with
      | Some 0%Z => Some (0%Z, 1, rest)
      | Some d => Some (read_digits d 1 rest)
      | None => None
      end
  | [] => None
  end.

(** A number: a float when a fraction or an exponent follows the
    integer part, otherwise an integer, whose conversion raises a
    [ValueError] past the digit limit. *)
Definition read_number (s : list ascii) : scan value :=
  let '(negative, s1) :=
    match s with
    | "-"%char :: rest => (true, rest)
    | _ => (false, s)
    end in
  match read_int_part s1 with
  | None => ScanDecodeError
  | Some (n, int_digits, s2) =>
      let sign (z : Z) := if negative : bool then (- z)%Z else z in
      let '(m, frac_digits, s3, has_frac) :=
        match s2 with
        | "."%char :: rest =>
            let '(m, count, rest') := read_digits n 0 rest in
            match count with
            | 0 => (n, 0, s2, false)
            | _ => (m, count, rest', true)
            end
        | _ => (n, 0, s2, false)
        end in
      let exponent :=
        match s3 with
        | c :: rest =>
            if Ascii.eqb c "e" || Ascii.eqb c "E" then
              let '(neg_e, rest1) :=
                match rest with
                | "-"%char :: r => (true, r)
                | "+"%char :: r => (false, r)
                | _ => (false, rest)
                end in
              let '(e, count, rest2) := read_digits 0 0 rest1 in
              match count with
              | 0 => None
              | _ => Some ((if neg_e : bool then (- e)%Z else e), rest2)
              end
            else None
        | [] => None
        end in
      match exponent with
      | Some (e, s4) =>
          Scanned (VFloat (sign m) (e - Z.of_nat frac_digits)) s4
      | None =>
          if has_frac : bool
          then Scanned (VFloat (sign m) (- Z.of_nat frac_digits)) s3
          else if Nat.ltb int_max_str_digits int_digits then ScanOtherError
          else Scanned (VInt (sign n)) s3
      end
  end.

(** The characters of a string up to its closing quote, the opening one
    already read. *)
Fixpoint read_string (acc : string) (s : list ascii)
  : option (string * list ascii) :=
  match s with
  | [] => None
  | c :: rest =>
      if Ascii.eqb c quote_char then Some (acc, rest)
      else if Ascii.eqb c "\" then
        match rest with
        | e :: rest' =>
            let put (n : nat) :=
              read_string (acc +:+ String (ascii_of_nat n) EmptyString) rest' in
            if Ascii.eqb e quote_char then put 34
            else if Ascii.eqb e "\" then put 92
            else if Ascii.eqb e "/" then put 47
            else if Ascii.eqb e "b" then put 8
            else if Ascii.eqb e "f" then put 12
            else if Ascii.eqb e "n" then put 10
            else if Ascii.eqb e "r" then put 13
            else if Ascii.eqb e "t" then put 9
            else None
        | [] => None
        end
      else if Nat.ltb (nat_of_ascii c) 32 then None
      else read_string (acc +:+ String c EmptyString) rest
  end.

Fixpoint expect (word : list ascii) (s : list ascii) : option (list ascii) :=
  match word, s with
  | [], _ => Some s
  | w :: word', c :: s' => if Ascii.eqb w c then expect word' s' else None
  | _ :: _, [] => None
  end.

(** The items of an array after its first one, up to the bracket. *)
Fixpoint read_more_items (read_value : list ascii -> scan value)
    (fuel : nat) (acc : list value) (s : list ascii)
  : scan (list value) :=
  match fuel with
  | 0 => ScanDecodeError
  | S fuel' =>
      match skip_ws s with
      | "]"%char :: rest => Scanned acc rest
      | ","%char :: rest =>
          match read_value rest with
          | Scanned v rest' =>
              read_more_items read_value fuel' (acc ++ [v]) rest'
          | ScanDecodeError => ScanDecodeError
          | ScanOtherError => ScanOtherError
          end
      | _ => ScanDecodeError
      end
  end.

(** One [key : value] member, from its opening quote on. *)
Definition read_member (read_value : list ascii -> scan value)
    (s : list ascii) : scan (string * value) :=
  match skip_ws s with
  | c :: rest =>
      if Ascii.eqb c quote_char then
        match read_string EmptyString rest with
        | Some (key, rest1) =>
            match skip_ws rest1 with
            | ":"%char :: rest2 =>
                match read_value rest2 with
                | Scanned v rest3 => Scanned (key, v) rest3
                | ScanDecodeError => ScanDecodeError
                | ScanOtherError => ScanOtherError
                end
            | _ => ScanDecodeError
            end
        | None => ScanDecodeError
        end
      else ScanDecodeError
  | [] => ScanDecodeError
  end.

(** The members of an object after its first one, up to the brace; a
    repeated key keeps its place and takes the later value. *)
Fixpoint read_more_members (read_value : list ascii -> scan value)
    (fuel : nat) (acc : list (string * value)) (s : list ascii)
  : scan (list (string * value)) :=
  match fuel with
  | 0 => ScanDecodeError
  | S fuel' =>
      match skip_ws s with
      | "}"%char :: rest => Scanned acc rest
      | ","%char :: rest =>
          match read_member read_value rest with
          | Scanned (key, v) rest' =>
              read_more_members read_value fuel' (dset key v acc) rest'
          | ScanDecodeError => ScanDecodeError
          | ScanOtherError => ScanOtherError
          end
      | _ => ScanDecodeError
      end
  end.

(** A word of the grammar, its first letter already read. *)
Definition read_word (word : string) (v : value) (s : list ascii)
  : scan value :=
  match expect (list_ascii_of_string word) s with
  | Some rest => Scanned v rest
  | None => ScanDecodeError
  end.

Fixpoint read_value (fuel : nat) (s : list ascii) : scan value :=
  match fuel with
  | 0 => ScanDecodeError
  | S fuel' =>
      match skip_ws s with
      | [] => ScanDecodeError
      | c :: rest =>
          if Ascii.eqb c "{" then
            match skip_ws rest with
            | "}"%char :: rest' => Scanned (VDict []) rest'
            | _ =>
                match read_member (read_value fuel') rest with
                | Scanned (key, v) rest' =>
                    match read_more_members (read_value fuel') (length rest')
                            [(key, v)] rest' with
                    | Scanned members rest'' => Scanned (VDict members) rest''
                    | ScanDecodeError => ScanDecodeError
                    | ScanOtherError => ScanOtherError
                    end
                | ScanDecodeError => ScanDecodeError
                | ScanOtherError => ScanOtherError
                end
            end
          else if Ascii.eqb c "[" then
            match skip_ws rest with
            | "]"%char :: rest' => Scanned (VList []) rest'
            | _ =>
                match read_value fuel' rest with
                | Scanned v rest' =>
                    match read_more_items (read_value fuel') (length rest')
                            [v] rest' with
                    | Scanned items rest'' => Scanned (VList items) rest''
                    | ScanDecodeError => ScanDecodeError
                    | ScanOtherError => ScanOtherError
                    end
                | ScanDecodeError => ScanDecodeError
                | ScanOtherError => ScanOtherError
                end
            end
          else if Ascii.eqb c quote_char then
            match read_string EmptyString rest with
            | Some (str, rest') => Scanned (VStr str) rest'
            | None => ScanDecodeError
            end
          else if Ascii.eqb c "t" then read_word "rue" (VBool true) rest
          else if Ascii.eqb c "f" then read_word "alse" (VBool false) rest
          else if Ascii.eqb c "n" then read_word "ull" VNone rest
          else read_number (c :: rest)
      end
  end.

(** A whole document: one value and nothing but white space around it. *)
Definition json_loads (text : string) : loads_outcome :=
  let s := list_ascii_of_string text in
  match read_value (S (length s)) s with
  | Scanned v rest =>
      match skip_ws rest with
      | [] => Loaded v
      | _ => DecodeError
      end
  | ScanDecodeError => DecodeError
  | ScanOtherError => OtherError
  end.

(** *** The extraction *)

(** [text.find(c)] and [text.rfind(c)] for a one-character [c]; [None]
    is Python's [-1]. *)
Fixpoint find (c : ascii) (text : string) : option nat :=
  match text with
  | EmptyString => None
  | String a rest =>
      if Ascii.eqb a c then Some 0 else S <$> find c rest
  end.

Fixpoint rfind (c : ascii) (text : string) : option nat :=
  match text with
  | EmptyString => None
  | String a rest =>
      match rfind c rest with
      | Some i => Some (S i)
      | None => if Ascii.eqb a c then Some 0 else None
      end
  end.

(** [text[i:j]] for [i <= j <= len(text)] *)
Definition slice (text : string) (i j : nat) : string :=
  String.substring i (j - i) text.

Section Extraction.

(** [json.loads] *)
Variable loads : string -> loads_outcome.

(** [safe_json_loads(json_str)], called without a default: the value
    read, [None] on a decode error.  The handler names
    [json.JSONDecodeError] only, so any other exception leaves the
    function; that is the result [None] of this model. *)
Definition safe_json_loads (json_str : string) : option value :=
  match loads json_str with
  | Loaded v => Some v
  | DecodeError => Some VNone
  | OtherError => None
  end.

Definition span_between (opening closing : ascii) (text : string)
  : option string :=
  match find opening text with
  | Some start_idx =>
      match rfind closing text with
      | Some end_idx =>
          if Nat.ltb start_idx end_idx
          then Some (slice text start_idx (end_idx + 1))
          else None
      | None => None
      end
  | None => None
  end.

(** The second search of [extract_json_from_text], for an array, down to
    the final [return {}]. *)
Definition array_search (text : string) : option (list (string * value)) :=
  match span_between "[" "]" text with
  | Some json_str =>
      match safe_json_loads json_str with
      | Some result => if truthy result then Some [] else Some []
      | None => None
      end
  | None => Some []
  end.

(** [extract_json_from_text]: the dictionary it returns, as its list of
    entries, or [None] when an exception leaves it. *)
Definition extract_json_from_text (text : string)
  : option (list (string * value)) :=
  match span_between "{" "}" text with
  | Some json_str =>
      match safe_json_loads json_str with
      | Some result =>
          if truthy result then
            match result with
            | VDict d => Some d
            | _ => array_search text
            end
          else array_search text
      | None => None
      end
  | None => array_search text
  end.

(** *** The extraction the specification describes

    Following the specification's words: the first balanced [{...}]
    group of the text, read as JSON; an empty object when there is none
    (a balanced [[...]] group alone yields an empty object too). *)

(** The shortest prefix of [s] that closes the group opened before it,
    [depth] groups being open. *)
Fixpoint balanced_prefix (opening closing : ascii) (depth : nat) (s : string)
  : option string :=
  match s with
  | EmptyString => None
  | String a rest =>
      if Ascii.eqb a closing then
        match depth with
        | 0 => Some (String a EmptyString)
        | S depth' =>
            String a <$> balanced_prefix opening closing depth' rest
        end
      else if Ascii.eqb a opening then
        String a <$> balanced_prefix opening closing (S depth) rest
      else String a <$> balanced_prefix opening closing depth rest
  end.

(** The first balanced group of the text. *)
Fixpoint first_balanced (opening closing : ascii) (text : string)
  : option string :=
  match text with
  | EmptyString => None
  | String a rest =>
      if Ascii.eqb a opening then
        match balanced_prefix opening closing 0 rest with
        | Some group => Some (String a group)
        | None => first_balanced opening closing rest
        end
      else first_balanced opening closing rest
  end.

Definition first_balanced_object_value (text : string)
  : list (string * value) :=
  match first_balanced "{" "}" text with
  | Some group =>
      match loads group with
      | Loaded (VDict d) => d
      | _ => []
      end
  | None => []
  end.

End Extraction.

(** A reply holding two objects, and its first one. *)
Definition two_objects : string :=
  "{" +:+ dquote +:+ "a" +:+ dquote +:+ ":1} {" +:+ dquote +:+ "b"
  +:+ dquote +:+ ":2}".

Definition first_object : string :=
  "{" +:+ dquote +:+ "a" +:+ dquote +:+ ":1}".

(** [c * n] for a one-character string. *)
Fixpoint repeat_char (c : ascii) (n : nat) : string :=
  match n with
  | 0 => EmptyString
  | S n' => String c (repeat_char c n')
  end.

(** A reply whose object holds an integer of [digits] digits. *)
Definition long_integer_reply (digits : nat) : string :=
  "count: {" +:+ dquote +:+ "n" +:+ dquote +:+ ":"
  +:+ repeat_char "1" digits +:+ "}".

End JsonUtils.

(** ** Tool bodies on the object store

    The chart specification a tool body receives is a mutable object
    graph.  To tell a fresh copy from a shared one, the bodies modelled
    here run on a store of dictionaries and lists; a reference is an
    index into the store and allocation appends to it. *)

Module PyHeap.

Inductive hval : Type :=
| HNone
| HBool (b : bool)
| HInt (n : Z)
| HFloat (m e : Z)
| HStr (s : string)
| HRef (l : nat).

Inductive obj : Type :=
| ODict (entries : list (string * hval))
| OList (items : list hval).

Definition heap : Type := list obj.

(** A computation on the store: its value, or [None] when it raises, and
    the store it leaves. *)
Definition M (A : Type) : Type := heap -> option A * heap.

Definition ret {A} (a : A) : M A := fun h => (Some a, h).
Definition raise {A} : M A := fun h => (None, h).
Definition bind {A B} (c : M A) (k : A -> M B) : M B :=
  fun h => match c h with
           | (Some a, h') => k a h'
           | (None, h') => (None, h')
           end.

Notation "'do' x <- c ; k" := (bind c (fun x => k))
  (at level 10, x name, c at level 100, k at level 200).

(** *** Dictionaries as ordered entries *)

Fixpoint entries_get (k : string) (es : list (string * hval)) : option hval :=
  match es with
  | [] => None
  | (k', v) :: rest => if String.eqb k k' then Some v else entries_get k rest
  end.

Fixpoint entries_set (k : string) (v : hval) (es : list (string * hval))
  : list (string * hval) :=
  match es with
  | [] => [(k, v)]
  | (k', v') :: rest =>
      if String.eqb k k' then (k, v) :: rest
      else (k', v') :: entries_set k v rest
  end.

Definition entries_del (k : string) (es : list (string * hval))
  : list (string * hval) :=
  filter (fun e => e.1 <> k) es.

(** *** Primitive operations *)

(** A dictionary or list display: a new object. *)
Definition alloc (o : obj) : M hval :=
  fun h => (Some (HRef (length h)), h ++ [o]).

Definition new_dict (es : list (string * hval)) : M hval := alloc (ODict es).
Definition new_list (items : list hval) : M hval := alloc (OList items).

Definition read (v : hval) : M obj :=
  fun h => match v with
           | HRef l => (h !! l, h)
           | _ => (None, h)
           end.

(** [d.get(k, default)]; only dictionaries have the method. *)
Definition dict_get (d : hval) (k : string) (dflt : hval) : M hval :=
  do o <- read d;
  match o with
  | ODict es => ret (default dflt (entries_get k es))
  | OList _ => raise
  end.

(** [d.get(k, {})]: the default is built before the call. *)
Definition dict_get_or_new (d : hval) (k : string) : M hval :=
  do fresh <- new_dict [];
  dict_get d k fresh.

(** [k in x] for a string [k]: a key of a dictionary, an item of a list,
    a substring of a string; a [TypeError] on anything else. *)
Definition key_in (k : string) (x : hval) : M bool :=
  match x with
  | HStr s => ret (PyStr.is_substring k s)
  | _ =>
      do o <- read x;
      match o with
      | ODict es => ret (bool_decide (is_Some (entries_get k es)))
      | OList items =>
          ret (existsb (fun v => match v with
                                 | HStr s => String.eqb s k
                                 | _ => false
                                 end) items)
      end
  end.

(** [d[k]] for a string [k]: a [KeyError] when missing, a [TypeError] on
    a list. *)
Definition getitem (d : hval) (k : string) : M hval :=
  do o <- read d;
  match o with
  | ODict es =>
      match entries_get k es with
      | Some v => ret v
      | None => raise
      end
  | OList _ => raise
  end.

(** [x[i]] for a natural [i]: an item of a list or a character of a
    string, an [IndexError] past the end; a [KeyError] on a dictionary
    (its keys are strings). *)
Definition index (x : hval) (i : nat) : M hval :=
  match x with
  | HStr s =>
      match PyStr.chars s !! i with
      | Some c => ret (HStr c)
      | None => raise
      end
  | _ =>
      do o <- read x;
      match o with
      | OList items =>
          match items !! i with
          | Some v => ret v
          | None => raise
          end
      | ODict _ => raise
      end
  end.

(** [len(x)] of a list, a dictionary or a string. *)
Definition len (x : hval) : M nat :=
  match x with
  | HStr s => ret (length (PyStr.chars s))
  | _ =>
      do o <- read x;
      match o with
      | OList items => ret (length items)
      | ODict es => ret (length es)
      end
  end.

Definition write (l : nat) (o : obj) : M unit :=
  fun h => (Some tt, <[l := o]> h).

(** [d[k] = v] *)
Definition setitem (d : hval) (k : string) (v : hval) : M unit :=
  do o <- read d;
  match d, o with
  | HRef l, ODict es => write l (ODict (entries_set k v es))
  | _, _ => raise
  end.

(** [del d[k]] *)
Definition delitem (d : hval) (k : string) : M unit :=
  do o <- read d;
  match d, o with
  | HRef l, ODict es =>
      match entries_get k es with
      | Some _ => write l (ODict (entries_del k es))
      | None => raise
      end
  | _, _ => raise
  end.

(** [l.append(v)]; dictionaries have no such method. *)
Definition list_append (l : hval) (v : hval) : M unit :=
  do o <- read l;
  match l, o with
  | HRef loc, OList items => write loc (OList (items ++ [v]))
  | _, _ => raise
  end.

(** Truth value testing. *)
Definition is_true (v : hval) : M bool :=
  match v with
  | HNone => ret false
  | HBool b => ret b
  | HInt n => ret (negb (n =? 0)%Z)
  | HFloat m _ => ret (negb (m =? 0)%Z)
  | HStr s => ret (negb (String.eqb s EmptyString))
  | HRef _ => do n <- len v; ret (negb (Nat.eqb n 0))
  end.

(** *** [copy.deepcopy]

    The copy keeps a memo from originals to copies, so shared and cyclic
    structure is copied once; a container is entered in the memo before
    its contents are copied.  [fuel] bounds the nesting of containers
    and is given as the size of the store. *)

Definition memo : Type := list (nat * nat).

Fixpoint memo_get (l : nat) (m : memo) : option nat :=
  match m with
  | [] => None
  | (a, b) :: rest => if Nat.eqb l a then Some b else memo_get l rest
  end.

(** Copies the values of a list in order, threading memo and store. *)
Fixpoint copy_all (copy : hval -> memo -> heap -> option (hval * memo * heap))
    (vs : list hval) (m : memo) (h : heap)
  : option (list hval * memo * heap) :=
  match vs with
  | [] => Some ([], m, h)
  | v :: rest =>
      match copy v m h with
      | Some (v', m1, h1) =>
          match copy_all copy rest m1 h1 with
          | Some (rest', m2, h2) => Some (v' :: rest', m2, h2)
          | None => None
          end
      | None => None
      end
  end.

Fixpoint deepcopy_val (fuel : nat) (v : hval) (m : memo) (h : heap)
  : option (hval * memo * heap) :=
  match v with
  | HRef l =>
      match memo_get l m with
      | Some l' => Some (HRef l', m, h)
      | None =>
          match fuel, h !! l with
          | S fuel', Some o =>
              let l' := length h in
              let m1 := (l, l') :: m in
              match o with
              | ODict es =>
                  match copy_all (deepcopy_val fuel') (snd <$> es) m1
                          (h ++ [ODict []]) with
                  | Some (vs, m2, h2) =>
                      Some (HRef l', m2,
                            <[l' := ODict (zip (fst <$> es) vs)]> h2)
                  | None => None
                  end
              | OList items =>
                  match copy_all (deepcopy_val fuel') items m1
                          (h ++ [OList []]) with
                  | Some (vs, m2, h2) =>
                      Some (HRef l', m2, <[l' := OList vs]> h2)
                  | None => None
                  end
              end
          | _, _ => None
          end
      end
  | _ => Some (v, m, h)
  end.

(** [copy.deepcopy(v)] *)
Definition deepcopy (v : hval) : M hval :=
  fun h => match deepcopy_val (S (length h)) v [] h with
           | Some (v', _, h') => (Some v', h')
           | None => (None, h)
           end.

(** *** Reading documents off the store *)

Inductive selector : Type :=
| Key (k : string)
| Idx (i : nat).

(** [v[s1][s2]...] *)
Fixpoint follow (h : heap) (v : hval) (path : list selector) : option hval :=
  match path with
  | [] => Some v
  | s :: path' =>
      match v with
      | HRef l =>
          match h !! l, s with
          | Some (ODict es), Key k =>
              match entries_get k es with
              | Some v' => follow h v' path'
              | None => None
              end
          | Some (OList items), Idx i =>
              match items !! i with
              | Some v' => follow h v' path'
              | None => None
              end
          | _, _ => None
          end
      | _ => None
      end
  end.

(** The document a value denotes, as a tree; [None] when [fuel] does not
    cover its depth. *)
Fixpoint document (fuel : nat) (h : heap) (v : hval) : option value :=
  match v with
  | HNone => Some VNone
  | HBool b => Some (VBool b)
  | HInt n => Some (VInt n)
  | HFloat m e => Some (VFloat m e)
  | HStr s => Some (VStr s)
  | HRef l =>
      match fuel, h !! l with
      | S fuel', Some (ODict es) =>
          VDict <$> mapM (fun e => pair e.1 <$> document fuel' h e.2) es
      | S fuel', Some (OList items) =>
          VList <$> mapM (document fuel' h) items
      | _, _ => None
      end
  end.

(** The locations a value reaches, itself included, each listed once;
    [fuel] bounds the number of objects visited along a path. *)
Fixpoint reach (fuel : nat) (h : heap) (seen : list nat) (v : hval)
  : list nat :=
  match v with
  | HRef l =>
      if bool_decide (l ∈ seen) then seen
      else
        match fuel, h !! l with
        | S fuel', Some (ODict es) =>
            fold_left (reach fuel' h) (snd <$> es) (l :: seen)
        | S fuel', Some (OList items) =>
            fold_left (reach fuel' h) items (l :: seen)
        | _, _ => l :: seen
        end
  | _ => seen
  end.

Definition reachable (h : heap) (v : hval) : list nat :=
  reach (length h) h [] v.

(** *** [highlight_trend] and [compare_series]
    ([tools/line_chart_tools.py]) *)

(** The encoding block a line tool works on: that of the first layer when
    the chart is layered, the chart's own otherwise. *)
Definition working_encoding (spec : hval) : M hval :=
  do layered <- key_in "layer" spec;
  do first_layer <-
    (if layered : bool then
       do layers <- getitem spec "layer";
       do n <- len layers;
       ret (Nat.ltb 0 n)
     else ret false);
  if first_layer : bool then
    do layers <- getitem spec "layer";
    do layer0 <- index layers 0;
    dict_get_or_new layer0 "encoding"
  else dict_get_or_new spec "encoding".

(** [encoding.get(axis, {}).get('field')] *)
Definition axis_field (encoding : hval) (axis : string) : M hval :=
  do a <- dict_get_or_new encoding axis;
  dict_get a "field" HNone.

(** [encoding[axis].get('type', dflt)] *)
Definition axis_type (encoding : hval) (axis dflt : string) : M hval :=
  do a <- getitem encoding axis;
  dict_get a "type" (HStr dflt).

(** [if key in d: del d[key]] *)
Definition discard (d : hval) (key : string) : M unit :=
  do present <- key_in key d;
  if present : bool then delitem d key else ret tt.

Definition highlight_trend (vega_spec : hval) (trend_type : string) : M hval :=
  do new_spec <- deepcopy vega_spec;
  do encoding <- working_encoding new_spec;
  do y_field <- axis_field encoding "y";
  do x_field <- axis_field encoding "x";
  do has_y <- is_true y_field;
  do has_x <- is_true x_field;
  if negb has_y || negb has_x then
    new_dict [("success", HBool false);
              ("error", HStr "Cannot find x or y field for trend line")]
  else
    do layered <- key_in "layer" new_spec;
    do new_spec <-
      (if layered : bool then ret new_spec
       else
         do original_layer <- deepcopy new_spec;
         do _ <- discard original_layer "mark";
         do _ <- discard original_layer "encoding";
         do mark <- dict_get vega_spec "mark" (HStr "line");
         do enc <- dict_get_or_new vega_spec "encoding";
         do layer <- new_dict [("mark", mark); ("encoding", enc)];
         do layers <- new_list [layer];
         do _ <- setitem original_layer "layer" layers;
         ret original_layer);
    do layers <- getitem new_spec "layer";
    do dash <- new_list [HInt 5; HInt 5];
    do mark <- new_dict [("type", HStr "line"); ("color", HStr "red");
                         ("strokeDash", dash); ("strokeWidth", HInt 2)];
    do regression <- new_dict [("regression", y_field); ("on", x_field)];
    do transform <- new_list [regression];
    do x_type <- axis_type encoding "x" "temporal";
    do x_enc <- new_dict [("field", x_field); ("type", x_type)];
    do y_type <- axis_type encoding "y" "quantitative";
    do y_enc <- new_dict [("field", y_field); ("type", y_type)];
    do trend_enc <- new_dict [("x", x_enc); ("y", y_enc)];
    do trend_layer <- new_dict [("mark", mark); ("transform", transform);
                                ("encoding", trend_enc)];
    do _ <- list_append layers trend_layer;
    do details <-
      new_list [HStr ("Trend line shows overall " +:+ trend_type +:+ " pattern")];
    new_dict [("success", HBool true);
              ("operation", HStr "highlight_trend");
              ("vega_spec", new_spec);
              ("message",
               HStr ("Added " +:+ trend_type +:+ " regression trend line"));
              ("details", details)].

(** [d.get(k, [])] *)
Definition dict_get_or_new_list (d : hval) (k : string) : M hval :=
  do fresh <- new_list [];
  dict_get d k fresh.

Definition compare_series (vega_spec : hval) (series_field : string)
  : M hval :=
  do new_spec <- deepcopy vega_spec;
  do data_block <- dict_get_or_new new_spec "data";
  do data <- dict_get_or_new_list data_block "values";
  do has_data <- is_true data;
  do field_missing <-
    (if has_data : bool then
       do row <- index data 0;
       do present <- key_in series_field row;
       ret (negb present)
     else ret false);
  if field_missing : bool then
    new_dict [("success", HBool false);
              ("error", HStr ("Field " +:+ dquote +:+ series_field +:+ dquote
                              +:+ " not found in data"))]
  else
    do has_encoding <- key_in "encoding" new_spec;
    do _ <-
      (if has_encoding : bool then ret tt
       else
         do fresh <- new_dict [];
         setitem new_spec "encoding" fresh);
    do legend <- new_dict [("title", HStr series_field)];
    do color <- new_dict [("field", HStr series_field);
                          ("type", HStr "nominal"); ("legend", legend)];
    do encoding <- getitem new_spec "encoding";
    do _ <- setitem encoding "color" color;
    do encoding <- getitem new_spec "encoding";
    do has_detail <- key_in "detail" encoding;
    do _ <-
      (if has_detail : bool then ret tt
       else
         do detail <- new_dict [("field", HStr series_field);
                                ("type", HStr "nominal")];
         do encoding <- getitem new_spec "encoding";
         setitem encoding "detail" detail);
    do details <-
      new_list [HStr ("Each unique value in " +:+ series_field
                      +:+ " is shown as a separate colored line")];
    new_dict [("success", HBool true);
              ("operation", HStr "compare_series");
              ("vega_spec", new_spec);
              ("message", HStr ("Comparing series by " +:+ series_field));
              ("details", details)].

(** *** A line chart in the store *)

(** The chart [{mark: line, encoding: {x: {field: t, type: temporal},
    y: {field: v, type: quantitative}}, data: {values: [{t: 1, v: 2}]}}],
    its root last. *)
Definition line_chart_heap : heap :=
  [ ODict [("field", HStr "t"); ("type", HStr "temporal")];
    ODict [("field", HStr "v"); ("type", HStr "quantitative")];
    ODict [("x", HRef 0); ("y", HRef 1)];
    ODict [("t", HInt 1); ("v", HInt 2)];
    OList [HRef 3];
    ODict [("values", HRef 4)];
    ODict [("mark", HStr "line"); ("encoding", HRef 2); ("data", HRef 5)] ].

Definition line_chart : hval := HRef 6.

(** *** Objects made during a call

    With respect to a store of [n0] objects that a call started from: a
    value is [fresh] when it is no reference into those objects, and an
    object is fresh when it holds fresh values only. *)

Definition fresh_val (n0 : nat) (v : hval) : Prop :=
  match v with
  | HRef l => n0 <= l
  | _ => True
  end.

Definition obj_vals (o : obj) : list hval :=
  match o with
  | ODict es => snd <$> es
  | OList items => items
  end.

Definition fresh_obj (n0 : nat) (o : obj) : Prop :=
  Forall (fresh_val n0) (obj_vals o).

(** The store [h] is the store [h0] untouched, followed by fresh
    objects. *)
Definition grown_from (h0 h : heap) : Prop :=
  exists added, h = h0 ++ added /\ Forall (fresh_obj (length h0)) added.

(** A computation that, started on a store grown from [h0], leaves a
    store grown from [h0] whether it returns or raises, and returns
    values that satisfy [Q]. *)
Definition keeps (h0 : heap) {A} (c : M A) (Q : A -> Prop) : Prop :=
  forall h, grown_from h0 h ->
    grown_from h0 (c h).2 /\ forall a, (c h).1 = Some a -> Q a.

Definition memo_fresh (n0 : nat) (m : memo) : Prop :=
  Forall (fun p => n0 <= p.2) m.

(** A copying function that makes fresh objects only. *)
Definition copies_fresh (h0 : heap)
    (copy : hval -> memo -> heap -> option (hval * memo * heap)) : Prop :=
  forall v m h v' m' h',
    copy v m h = Some (v', m', h') ->
    grown_from h0 h -> memo_fresh (length h0) m ->
    grown_from h0 h' /\ memo_fresh (length h0) m'
    /\ (match v with HRef _ => fresh_val (length h0) v' | _ => v' = v end).

(** What the dispatcher expects of a result dictionary: a boolean under
    ['success'], and a chart under ['vega_spec'] when it is true. *)
Definition result_entries (es : list (string * hval)) : Prop :=
  exists b, entries_get "success" es = Some (HBool b)
            /\ (b = true -> is_Some (entries_get "vega_spec" es)).

(** A tool body that, started on a store grown from [h0], keeps it so,
    and whose return value is a fresh dictionary of the expected
    shape. *)
Definition tool_on (h0 : heap) (c : M hval) : Prop :=
  forall h, grown_from h0 h ->
    grown_from h0 (c h).2
    /\ forall res, (c h).1 = Some res ->
         exists l es, res = HRef l /\ length h0 <= l
                      /\ (c h).2 !! l = Some (ODict es)
                      /\ result_entries es.

(** A tool body works on a copy when, on any store, it leaves every
    object the store held as it was, whether it returns or raises, and
    returns a result dictionary from which no object the store held
    can be reached. *)
Definition works_on_a_copy (tool : M hval) : Prop :=
  forall h : heap,
    let out := tool h in
    take (length h) out.2 = h
    /\ forall res,
         out.1 = Some res ->
         (exists b,
            follow out.2 res [Key "success"] = Some (HBool b)
            /\ (b = true ->
                is_Some (follow out.2 res [Key "vega_spec"])))
         /\ Forall (fun l => length h <= l) (reachable out.2 res)
         /\ forall path v,
              follow out.2 res path = Some v ->
              Forall (fun l => length h <= l) (reachable out.2 v).

(** *** Bar chart and Sankey tools
    ([tools/bar_chart_tools.py], [tools/sankey_tools.py]) *)

(** The attribute lookup [x.append]: only lists have the method. *)
Definition append_method (x : hval) : M unit :=
  do o <- read x;
  match o with
  | OList _ => ret tt
  | ODict _ => raise
  end.

(** [if key not in d: d[key] = {}] and the same with [[]]. *)
Definition ensure_dict (d : hval) (key : string) : M unit :=
  do present <- key_in key d;
  if present : bool then ret tt
  else
    do fresh <- new_dict [];
    setitem d key fresh.

Definition ensure_list (d : hval) (key : string) : M unit :=
  do present <- key_in key d;
  if present : bool then ret tt
  else
    do fresh <- new_list [];
    setitem d key fresh.

(** [new_spec.get('encoding', {}).get(axis, {}).get('field')] *)
Definition encoding_field (new_spec : hval) (axis : string) : M hval :=
  do encoding <- dict_get_or_new new_spec "encoding";
  do a <- dict_get_or_new encoding axis;
  dict_get a "field" HNone.

Definition sort_bars (vega_spec : hval) (order : string) : M hval :=
  do new_spec <- deepcopy vega_spec;
  do y_field <- encoding_field new_spec "y";
  do has_y <- is_true y_field;
  if negb has_y then
    new_dict [("success", HBool false);
              ("error", HStr "Cannot find value field")]
  else
    do _ <- ensure_dict new_spec "encoding";
    do encoding <- getitem new_spec "encoding";
    do has_x <- key_in "x" encoding;
    do _ <-
      (if has_x : bool then ret tt
       else
         do fresh <- new_dict [];
         do encoding <- getitem new_spec "encoding";
         setitem encoding "x" fresh);
    do sort <- new_dict [("field", y_field); ("order", HStr order)];
    do encoding <- getitem new_spec "encoding";
    do x <- getitem encoding "x";
    do _ <- setitem x "sort" sort;
    new_dict [("success", HBool true);
              ("operation", HStr "sort_bars");
              ("vega_spec", new_spec);
              ("message", HStr ("Sorted bars in " +:+ order +:+ " order"))].

Definition compare_groups (vega_spec : hval) (group_field : string)
  : M hval :=
  do new_spec <- deepcopy vega_spec;
  do _ <- ensure_dict new_spec "encoding";
  do color <- new_dict [("field", HStr group_field);
                        ("type", HStr "nominal")];
  do encoding <- getitem new_spec "encoding";
  do _ <- setitem encoding "color" color;
  new_dict [("success", HBool true);
            ("operation", HStr "compare_groups");
            ("vega_spec", new_spec);
            ("message", HStr ("Grouped by " +:+ group_field))].

(** [new_spec['encoding']['opacity'] = {'condition': {'test': test,
    'value': 1.0}, 'value': dimmed}], after making sure of
    ['encoding']. *)
Definition set_opacity (new_spec : hval) (test : string) (dimmed : hval)
  : M unit :=
  do _ <- ensure_dict new_spec "encoding";
  do condition <- new_dict [("test", HStr test); ("value", HFloat 10 (-1))];
  do opacity <- new_dict [("condition", condition); ("value", dimmed)];
  do encoding <- getitem new_spec "encoding";
  setitem encoding "opacity" opacity.

Definition highlight_path (vega_spec : hval) (source target : string)
  : M hval :=
  do new_spec <- deepcopy vega_spec;
  do _ <- set_opacity new_spec
            ("datum.source == " +:+ dquote +:+ source +:+ dquote
             +:+ " && datum.target == " +:+ dquote +:+ target +:+ dquote)
            (HFloat 2 (-1));
  new_dict [("success", HBool true);
            ("operation", HStr "highlight_path");
            ("vega_spec", new_spec);
            ("message",
             HStr ("Highlighted path " +:+ source +:+ " -> " +:+ target))].

Definition trace_node (vega_spec : hval) (node_name : string) : M hval :=
  do new_spec <- deepcopy vega_spec;
  do _ <- set_opacity new_spec
            ("datum.source == " +:+ dquote +:+ node_name +:+ dquote
             +:+ " || datum.target == " +:+ dquote +:+ node_name +:+ dquote)
            (HFloat 2 (-1));
  new_dict [("success", HBool true);
            ("operation", HStr "trace_node");
            ("vega_spec", new_spec);
            ("message", HStr ("Traced connections of " +:+ node_name))].

Section Formatting.

(** [str(x)], as the f-strings apply it to a value that is not a
    string; for a container it reads the store. *)
Variable py_str : heap -> hval -> string.

Definition format (v : hval) : M string :=
  fun h => (Some match v with
                 | HStr s => s
                 | _ => py_str h v
                 end, h).

Definition filter_categories (vega_spec : hval) (categories : list string)
  : M hval :=
  do new_spec <- deepcopy vega_spec;
  do x_field <- encoding_field new_spec "x";
  do has_x <- is_true x_field;
  if negb has_x then
    new_dict [("success", HBool false);
              ("error", HStr "Cannot find category field")]
  else
    do _ <- ensure_list new_spec "transform";
    let category_str :=
      VLMToolAdapter.join ","
        ((fun c => dquote +:+ c +:+ dquote) <$> categories) in
    do transform <- getitem new_spec "transform";
    do _ <- append_method transform;
    do x_text <- format x_field;
    do condition <-
      new_dict [("filter",
                 HStr ("indexof([" +:+ category_str +:+ "], datum."
                       +:+ x_text +:+ ") >= 0"))];
    do _ <- list_append transform condition;
    do count <- format (HInt (Z.of_nat (length categories)));
    new_dict [("success", HBool true);
              ("operation", HStr "filter_categories");
              ("vega_spec", new_spec);
              ("message", HStr ("Filtered to " +:+ count +:+ " categories"))].

End Formatting.

End PyHeap.

(** ** Tool bodies called on documents

    The dispatcher and the engines above pass charts by value.  To call
    a body of the object store on such a chart, the chart is laid out in
    an empty store, the body runs there, and the dictionary it returns
    is read back as a document. *)

Module ToolBodies.

Import PyHeap.

(** Lays a document out in the store, one object for each list and each
    dictionary, contents first; the value that stands for it. *)
Fixpoint store (v : value) (h : heap) : hval * heap :=
  match v with
  | VNone => (HNone, h)
  | VBool b => (HBool b, h)
  | VInt n => (HInt n, h)
  | VFloat m e => (HFloat m e, h)
  | VStr s => (HStr s, h)
  | VList items =>
      let '(vs, h1) :=
        (fix store_items (l : list value) (h : heap) : list hval * heap :=
           match l with
           | [] => ([], h)
           | x :: rest =>
               let '(x', h1) := store x h in
               let '(rest', h2) := store_items rest h1 in
               (x' :: rest', h2)
           end) items h in
      (HRef (length h1), h1 ++ [OList vs])
  | VDict entries =>
      let '(es, h1) :=
        (fix store_entries (l : list (string * value)) (h : heap)
           : list (string * hval) * heap :=
           match l with
           | [] => ([], h)
           | (k, x) :: rest =>
               let '(x', h1) := store x h in
               let '(rest', h2) := store_entries rest h1 in
               ((k, x') :: rest', h2)
           end) entries h in
      (HRef (length h1), h1 ++ [ODict es])
  end.

(** The result dictionary behind [res], its values read as documents;
    [None] when [res] is no dictionary of documents. *)
Definition read_result (h : heap) (res : hval) : option (gmap string value) :=
  match res with
  | HRef l =>
      match h !! l with
      | Some (ODict es) =>
          list_to_map
            <$> mapM (fun e => pair e.1 <$> document (length h) h e.2) es
      | _ => None
      end
  | _ => None
  end.

Section Bodies.

(** The implementing functions that are not modelled here, by name, and
    the texts [str(e)] and [traceback.format_exc()] of the exception a
    call of a modelled one raises. *)
Variable other_bodies : string -> tool_function.
Variable exception_text : string -> gmap string value -> string * string.

Definition raised (name : string) (params : gmap string value)
  : body_outcome :=
  Raised (exception_text name params).1 (exception_text name params).2.

(** [bar_chart_tools.compare_groups] called on the unpacked dictionary
    [params].  The call itself raises a [TypeError] unless the keys are
    the two parameters of the function.  The body is the one of the
    object store, which takes [group_field] as a string; a call with
    another kind of value there is left to [other_bodies]. *)
Definition compare_groups (params : gmap string value) : body_outcome :=
  match params !! "vega_spec", params !! "group_field" with
  | Some vega_spec, Some group_field =>
      if negb (Nat.eqb (size params) 2) then raised "compare_groups" params
      else
        match group_field with
        | VStr group_field =>
            let '(spec, h) := store vega_spec [] in
            match PyHeap.compare_groups spec group_field h with
            | (Some res, h') =>
                match read_result h' res with
                | Some result => Returned result
                | None => other_bodies "compare_groups" params
                end
            | (None, _) => raised "compare_groups" params
            end
        | _ => other_bodies "compare_groups" params
        end
  | _, _ => raised "compare_groups" params
  end.

(** The implementing functions of the catalog. *)
Definition tool_bodies (name : string) : tool_function :=
  if String.eqb name "compare_groups" then compare_groups
  else other_bodies name.

End Bodies.

(** *** A run of the goal-oriented engine on this catalog *)

(** A bar chart, and the same chart grouped by [region]. *)
Definition bar_encoding : list (string * value) :=
  [("x", VDict [("field", VStr "category"); ("type", VStr "nominal")]);
   ("y", VDict [("field", VStr "sales"); ("type", VStr "quantitative")])].

Definition bar_spec : value :=
  VDict [("mark", VStr "bar"); ("encoding", VDict bar_encoding)].

Definition bar_spec_by_region : value :=
  VDict [("mark", VStr "bar");
         ("encoding",
          VDict (bar_encoding
                   ++ [("color", VDict [("field", VStr "region");
                                        ("type", VStr "nominal")])]))].

(** A decision that calls [compare_groups]. *)
Definition decision_compare : list (string * value) :=
  [("goal_achieved", VBool false);
   ("tool_call",
    VDict [("tool", VStr "compare_groups");
           ("params", VDict [("group_field", VStr "region")])])].

(** An endpoint that calls the tool once and then declares the goal
    achieved. *)
Definition vlm_compare_once (i : nat) : vlm_response :=
  match i with
  | 0 => VlmOk "group the bars by region" decision_compare
  | _ => VlmOk "goal achieved" GoalOrientedMode.decision_done
  end.

End ToolBodies.

(** * Properties *)

(** ** The dispatcher *)

Section DispatcherFacts.

Import ToolExecutor.

Variable registry : list (string * tool_info).

Lemma lookup_tool_elem name tools info :
  lookup_tool name tools = Some info -> (name, info) ∈ tools.
Proof.
  induction tools as [|[n i] rest IH]; simpl; [discriminate|].
  destruct (String.eqb_spec name n) as [->|Hne].
  - intros [= ->]. left.
  - intros H. right. auto.
Qed.

Lemma missing_required_spec specs (params : gmap string value) name :
  name ∈ missing_required specs params <->
  exists ps, (name, ps) ∈ specs /\ required ps = true /\ params !! name = None.
Proof.
  unfold missing_required. rewrite list_elem_of_fmap. split.
  - intros [[n ps] [-> Hin]]. apply list_elem_of_filter in Hin as [[Hr Hp] Hin].
    exists ps. auto.
  - intros (ps & Hin & Hr & Hp). exists (name, ps). split; [done|].
    apply list_elem_of_filter. auto.
Qed.

Lemma valid_iff_none_missing info (params : gmap string value) :
  valid (_validate_params info params) = true <->
  missing_required (param_specs info) params = [].
Proof.
  unfold _validate_params. simpl. rewrite length_fmap, Nat.eqb_eq.
  split; [apply length_zero_iff_nil | intros ->; done].
Qed.

Lemma last_n_length {A} n (l : list A) :
  n <= length l -> length (last_n n l) = n.
Proof. intros. unfold last_n. rewrite length_drop. lia. Qed.

Lemma last_n_suffix {A} n (l : list A) :
  l = take (length l - n) l ++ last_n n l.
Proof. unfold last_n. by rewrite take_drop. Qed.

Lemma record_execution_history now self name params result ok :
  let record := {| timestamp := now; tool_name := name;
                   params := delete "vega_spec" params;
                   result := delete "vega_spec" result;
                   success := ok |} in
  exists evicted,
    execution_history self ++ [record]
      = evicted ++ execution_history
                     (_record_execution now self name params result ok)
    /\ length (execution_history
                 (_record_execution now self name params result ok))
       = Nat.min 100 (length (execution_history self) + 1).
Proof.
  intros record. unfold _record_execution. cbn [execution_history]. fold record.
  set (h := execution_history self ++ [record]).
  assert (Hlen : length h = length (execution_history self) + 1)
    by (unfold h; rewrite length_app; simpl; lia).
  destruct (Nat.ltb_spec 100 (length h)) as [Hgt|Hle].
  - exists (take (length h - 100) h). split; [apply last_n_suffix|].
    rewrite last_n_length by lia. lia.
  - exists []. split; [done|]. lia.
Qed.

Lemma execute_history_bound now self name params validate :
  length (execution_history self) <= 100 ->
  length (execution_history
            (execute registry now self name params validate).2) <= 100.
Proof.
  intros Hb. unfold execute.
  destruct (get_tool registry name) as [info|]; [|done].
  destruct (validate && negb (valid (_validate_params info params)));
    [done|].
  destruct (function info (_fill_default_params info params));
    cbn [snd];
    match goal with
    | |- context [_record_execution ?n ?s ?nm ?p ?r ?b] =>
        destruct (record_execution_history n s nm p r b) as (? & _ & ->)
    end; apply Nat.le_min_l.
Qed.

Lemma execute_all_history_bound calls self :
  length (execution_history self) <= 100 ->
  length (execution_history (execute_all registry self calls)) <= 100.
Proof.
  revert self. induction calls as [|[[[now name] params] validate] rest IH];
    intros self Hb; simpl; [done|].
  apply IH. by apply execute_history_bound.
Qed.

(** The three exits of [execute]. *)
Lemma execute_unknown now self name params validate :
  get_tool registry name = None ->
  execute registry now self name params validate
    = (not_found_result registry name, self).
Proof. intros H. unfold execute. by rewrite H. Qed.

Lemma execute_invalid now self name info params :
  get_tool registry name = Some info ->
  valid (_validate_params info params) = false ->
  execute registry now self name params true
    = (validation_failure (_validate_params info params), self).
Proof. intros H Hv. unfold execute. rewrite H. cbv zeta. by rewrite Hv. Qed.

Lemma execute_body now self name info params validate :
  get_tool registry name = Some info ->
  validate = false \/ valid (_validate_params info params) = true ->
  execute registry now self name params validate
    = let filled := _fill_default_params info params in
      let self' := with_invocation self name filled in
      match function info filled with
      | Returned r => (r, _record_execution now self' name filled r true)
      | Raised message traceback =>
          let err := error_result message traceback in
          (err, _record_execution now self' name filled err false)
      end.
Proof.
  intros H Hv. unfold execute. rewrite H. cbv zeta.
  destruct Hv as [-> | ->]; [|rewrite andb_false_r]; reflexivity.
Qed.

Lemma reaches_body_dec name info params validate :
  get_tool registry name = Some info ->
  {validate = false \/ valid (_validate_params info params) = true}
  + {validate = true /\ valid (_validate_params info params) = false}.
Proof.
  intros _. destruct validate; [|left; by left].
  destruct (valid (_validate_params info params)); [left; by right|by right].
Qed.

(** C4.  Dispatch is total: for every tool name, parameter dictionary
    and [validate] flag, [execute] hands its caller a result dictionary
    produced in one of four ways (unknown tool, validation failure, body
    exception, body success).  An exception raised by the tool body
    never reaches the caller: it is turned into a result with
    [success = False] whose [error] is the exception's message.  In all
    four cases the result carries an explicit boolean [success] entry,
    the body-success case by the Tool Body contract of the catalog. *)
Theorem execute_never_raises now self name params validate :
  bodies_flag_success registry ->
  let r := (execute registry now self name params validate).1 in
  dispatch_case registry name params validate r
  /\ has_success_flag r
  /\ (forall info message traceback,
        reaches_body registry name params validate ->
        get_tool registry name = Some info ->
        function info (_fill_default_params info params)
          = Raised message traceback ->
        r = error_result message traceback
        /\ r !! "success" = Some (VBool false)
        /\ r !! "error" = Some (VStr message)).
Proof.
  intros Hc r. subst r.
  destruct (get_tool registry name) as [info|] eqn:Hget.
  2:{ rewrite execute_unknown by done. split; [by constructor|].
      split; [by exists false|]. intros ? ? ? _ [=]. }
  destruct (reaches_body_dec name info params validate Hget)
    as [Hreach | [-> Hbad]].
  - rewrite (execute_body _ _ _ info) by done. cbv zeta.
    destruct (function info (_fill_default_params info params))
      as [r0|msg tb] eqn:Hf; cbn [fst].
    + split; [by eapply BodyReturned|]. split; [by eapply Hc|].
      intros ? ? ? _ [= <-]. congruence.
    + split; [by eapply BodyRaised|]. split; [by exists false|].
      intros ? ? ? _ [= <-] Hr. rewrite Hf in Hr. by injection Hr as -> ->.
  - rewrite (execute_invalid _ _ _ info) by done. cbn [fst].
    split; [by eapply ValidationFailed|]. split; [by exists false|].
    intros ? ? ? (info' & Hget' & [?|Hok]) _ _; [done|].
    congruence.
Qed.

(** C5.  For a registered tool dispatched with validation on, a
    parameter dictionary that lacks at least one required parameter is
    rejected: the result has [success = False], its [details] name
    every missing required parameter (all of them, in descriptor
    order), the dispatcher is left as it was and no tool body is
    invoked. *)
Theorem missing_required_rejected now self name info args :
  get_tool registry name = Some info ->
  (exists p ps, (p, ps) ∈ param_specs info
                /\ required ps = true /\ args !! p = None) ->
  let missing := missing_required (param_specs info) args in
  let out := execute registry now self name args true in
  out.1 = {[ "success" := VBool false;
             "error" := VStr "Parameter validation failed";
             "details" :=
               VList (VStr <$> ((fun p => "Missing required parameter: " +:+ p)
                                  <$> missing)) ]}
  /\ (forall p, p ∈ missing <->
                exists ps, (p, ps) ∈ param_specs info
                           /\ required ps = true /\ args !! p = None)
  /\ out.2 = self
  /\ bodies_invoked out.2 = bodies_invoked self.
Proof.
  intros Hget (p & ps & Hin & Hreq & Hnone) missing out.
  assert (Hbad : valid (_validate_params info args) = false).
  { destruct (valid (_validate_params info args)) eqn:Hv; [|done].
    apply valid_iff_none_missing in Hv.
    assert (Hp : p ∈ missing) by (apply missing_required_spec; eauto).
    unfold missing in Hp. rewrite Hv in Hp. by apply elem_of_nil in Hp. }
  subst out. rewrite (execute_invalid _ _ _ info) by done. cbn [fst snd].
  split; [reflexivity|]. split; [|done].
  intros q. apply missing_required_spec.
Qed.

(** C6 (as amended).  A dispatch that reaches the tool body, whether the
    body raises or returns, appends exactly one record to the execution
    log: it carries the clock reading, the tool name, the filled
    parameters and the result, both without their [vega_spec] entry,
    and a flag telling whether the body returned.  The oldest record is
    evicted when the log would exceed 100 entries.  A dispatch that
    stops at the catalog lookup or at validation leaves the log
    untouched.  A log of at most 100 entries stays so, hence the log of
    an executor started empty never exceeds 100 entries. *)
Theorem execution_log_discipline now self name args validate :
  let out := execute registry now self name args validate in
  (~ reaches_body registry name args validate ->
     execution_history out.2 = execution_history self)
  /\ (forall info,
        get_tool registry name = Some info ->
        validate = false \/ valid (_validate_params info args) = true ->
        let filled := _fill_default_params info args in
        let record :=
          {| timestamp := now; tool_name := name;
             params := delete "vega_spec" filled;
             result := delete "vega_spec" out.1;
             success := match function info filled with
                        | Returned _ => true
                        | Raised _ _ => false
                        end |} in
        params record !! "vega_spec" = None
        /\ result record !! "vega_spec" = None
        /\ exists evicted,
             execution_history self ++ [record]
               = evicted ++ execution_history out.2
             /\ length (execution_history out.2)
                = Nat.min 100 (length (execution_history self) + 1))
  /\ (length (execution_history self) <= 100 ->
      length (execution_history out.2) <= 100)
  /\ (forall calls,
        length (execution_history (execute_all registry init calls)) <= 100).
Proof.
  intros out. split; [|split; [|split]].
  - intros Hno. subst out.
    destruct (get_tool registry name) as [info|] eqn:Hget.
    2:{ by rewrite execute_unknown. }
    destruct (reaches_body_dec name info args validate Hget)
      as [Hreach | [-> Hbad]].
    + destruct Hno. by exists info.
    + by rewrite (execute_invalid _ _ _ info).
  - intros info Hget Hreach filled record.
    split; [apply lookup_delete_eq|]. split; [apply lookup_delete_eq|].
    subst record out. rewrite (execute_body _ _ _ info) by done.
    cbv zeta. fold filled.
    destruct (function info filled) as [r|msg tb]; cbn [fst snd].
    + apply (record_execution_history now
               (with_invocation self name filled) name filled r true).
    + apply (record_execution_history now
               (with_invocation self name filled) name filled
               (error_result msg tb) false).
  - apply execute_history_bound.
  - intros calls. apply execute_all_history_bound. simpl. lia.
Qed.

End DispatcherFacts.

Section DispatcherOnCatalog.

Import ToolExecutor.

Lemma registered_function impl name info :
  (name, info) ∈ registered_tools impl -> function info = impl name.
Proof.
  intros Hin.
  assert (Hall : Forall (fun e => function e.2 = impl e.1)
                        (registered_tools impl))
    by (unfold registered_tools; repeat constructor).
  rewrite Forall_forall in Hall. apply (Hall (name, info) Hin).
Qed.

Lemma demo_bodies_flag_success :
  bodies_flag_success (registered_tools demo_impl).
Proof.
  intros name info args r Hget Hf.
  apply lookup_tool_elem, registered_function in Hget.
  rewrite Hget in Hf. unfold demo_impl in Hf.
  destruct (String.eqb name "render_chart"); [discriminate|].
  injection Hf as <-. by exists true.
Qed.

(** A body that raises, dispatched on the real catalog. *)
Lemma execute_never_raises_witness :
  let r := (execute (registered_tools demo_impl) demo_clock init
              "render_chart" {[ "vega_spec" := VDict [] ]} true).1 in
  dispatch_case (registered_tools demo_impl) "render_chart"
    {[ "vega_spec" := VDict [] ]} true r
  /\ has_success_flag r
  /\ (forall info message traceback,
        reaches_body (registered_tools demo_impl) "render_chart"
          {[ "vega_spec" := VDict [] ]} true ->
        get_tool (registered_tools demo_impl) "render_chart" = Some info ->
        function info (_fill_default_params info {[ "vega_spec" := VDict [] ]})
          = Raised message traceback ->
        r = error_result message traceback
        /\ r !! "success" = Some (VBool false)
        /\ r !! "error" = Some (VStr message)).
Proof.
  apply (execute_never_raises (registered_tools demo_impl)).
  exact demo_bodies_flag_success.
Defined.

(** [zoom] dispatched without any parameter: both [vega_spec] and [area]
    are reported. *)
Lemma missing_required_rejected_witness :
  exists info,
    get_tool (registered_tools demo_impl) "zoom" = Some info
    /\ missing_required (param_specs info) ∅ = ["vega_spec"; "area"]
    /\ let out := execute (registered_tools demo_impl) demo_clock init
                    "zoom" ∅ true in
       out.1 = {[ "success" := VBool false;
                  "error" := VStr "Parameter validation failed";
                  "details" :=
                    VList [VStr "Missing required parameter: vega_spec";
                           VStr "Missing required parameter: area"] ]}
       /\ bodies_invoked out.2 = [].
Proof.
  eexists. split; [reflexivity|]. split; [reflexivity|].
  cbv zeta.
  edestruct (missing_required_rejected (registered_tools demo_impl)
               demo_clock init "zoom" _ ∅ eq_refl) as (H1 & _ & _ & H4).
  { exists "area", (req "list"). split; [|split; reflexivity].
    cbn [param_specs]. apply list_elem_of_In. simpl. auto. }
  split; [exact H1 | exact H4].
Defined.

(** C6 as stated fails: a dispatch of an unknown tool, and one that
    fails validation, return a failure result and append no record. *)
Lemma unlogged_dispatch_counterexample :
  let unknown := execute (registered_tools demo_impl) demo_clock init
                   "no_such_tool" {[ "vega_spec" := VDict [] ]} true in
  let invalid := execute (registered_tools demo_impl) demo_clock init
                   "zoom" ∅ true in
  unknown.1 !! "success" = Some (VBool false)
  /\ invalid.1 !! "success" = Some (VBool false)
  /\ execution_history unknown.2 = []
  /\ execution_history invalid.2 = []
  /\ ~ (exists record,
          execution_history unknown.2 = execution_history init ++ [record])
  /\ ~ (exists record,
          execution_history invalid.2 = execution_history init ++ [record]).
Proof.
  cbv zeta. repeat split; try reflexivity; intros [record H]; discriminate H.
Qed.

(** [brush] reaches its body on the real catalog: one record, without
    the chart specification, is appended to the empty log. *)
Lemma execution_log_discipline_witness :
  let args : gmap string value :=
    {[ "vega_spec" := VDict []; "area" := VList [VInt 0; VInt 0; VInt 1; VInt 1] ]} in
  let out := execute (registered_tools demo_impl) demo_clock init
               "brush" args true in
  reaches_body (registered_tools demo_impl) "brush" args true
  /\ execution_history out.2
     = [ {| timestamp := demo_clock; tool_name := "brush";
            params := {[ "area" := VList [VInt 0; VInt 0; VInt 1; VInt 1] ]};
            result := {[ "success" := VBool true;
                         "operation" := VStr "brush" ]};
            success := true |} ].
Proof.
  intros args out.
  assert (Hreach : reaches_body (registered_tools demo_impl) "brush" args true).
  { eexists. split; [reflexivity|]. right. reflexivity. }
  split; [exact Hreach|].
  destruct (execution_log_discipline (registered_tools demo_impl)
              demo_clock init "brush" args true) as (_ & Hlog & _ & _).
  destruct Hreach as (info & Hget & Hv).
  destruct (Hlog info Hget Hv) as (_ & _ & evicted & Happ & Hlen).
  injection Hget as <-.
  change (Nat.min 100 (length (execution_history init) + 1)) with 1 in Hlen.
  fold out in Happ, Hlen.
  destruct (execution_history out.2) as [|r [|r' rest]]; try discriminate Hlen.
  destruct evicted as [|e evicted].
  - simpl in Happ. injection Happ as <-. reflexivity.
  - exfalso. apply (f_equal length) in Happ. simpl in Happ.
    rewrite length_app in Happ. simpl in Happ. lia.
Defined.

End DispatcherOnCatalog.

(** ** More on the dispatcher *)

Section DispatcherMore.

Import ToolExecutor.

Variable registry : list (string * tool_info).

Lemma lookup_tool_none name tools :
  lookup_tool name tools = None <-> name ∉ (fst <$> tools).
Proof.
  induction tools as [|[n info] rest IH]; simpl.
  - split; [intros _; apply not_elem_of_nil | reflexivity].
  - destruct (String.eqb_spec name n) as [->|Hne].
    + split; [discriminate | intros H; exfalso; apply H; left].
    + rewrite IH, not_elem_of_cons. tauto.
Qed.

Lemma lookup_tool_listed name tools :
  is_Some (lookup_tool name tools) <-> name ∈ (fst <$> tools).
Proof.
  destruct (lookup_tool name tools) as [info|] eqn:E.
  - split; [intros _ | eauto].
    apply lookup_tool_elem in E. apply list_elem_of_fmap.
    exists (name, info). auto.
  - apply lookup_tool_none in E.
    split; [intros [? ?]; discriminate | contradiction].
Qed.

(** X1.  A dispatch under a name the catalog does not hold changes
    nothing and calls nothing; its failure result lists, in registration
    order, exactly the names a dispatch would find, and the requested
    name is not one of them. *)
Theorem unknown_tool_lists_catalog now self name params validate :
  get_tool registry name = None ->
  let out := execute registry now self name params validate in
  out.2 = self
  /\ out.1 !! "success" = Some (VBool false)
  /\ out.1 !! "error"
     = Some (VStr ("Tool " +:+ dquote +:+ name +:+ dquote +:+ " not found"))
  /\ out.1 !! "available_tools"
     = Some (VList (VStr <$> list_all_tools registry))
  /\ (forall n, n ∈ list_all_tools registry
                <-> is_Some (get_tool registry n))
  /\ name ∉ list_all_tools registry.
Proof.
  intros Hnone out. subst out.
  rewrite (execute_unknown registry now self name params validate Hnone).
  cbn [fst snd]. unfold not_found_result.
  repeat split.
  - intros Hin. apply lookup_tool_listed. exact Hin.
  - intros Hs. apply lookup_tool_listed. exact Hs.
  - apply lookup_tool_none. exact Hnone.
Qed.

(** What [_fill_default_params] leaves under a key, reading the
    descriptor from left to right. *)
Lemma fill_default_lookup specs (params : gmap string value) k :
  NoDup (fst <$> specs) ->
  fold_left
    (fun filled p =>
       match filled !! p.1, default_value p.2 with
       | None, Some d => <[p.1 := d]> filled
       | _, _ => filled
       end) specs params !! k
  = match params !! k with
    | Some v => Some v
    | None =>
        match list_find (fun p => p.1 = k) specs with
        | Some (_, p) => default_value p.2
        | None => None
        end
    end.
Proof.
  revert params. induction specs as [|[n ps] rest IH]; intros params Hnd.
  - simpl. destruct (params !! k); reflexivity.
  - apply NoDup_cons in Hnd as [Hn Hnd]. cbn [fold_left fst snd].
    rewrite IH by exact Hnd. clear IH.
    cbn [list_find fst]. destruct (decide (n = k)) as [->|Hne].
    + cbn [fmap option_fmap option_map snd].
      assert (Hrest : list_find (fun p : string * param_spec => p.1 = k) rest
                      = None).
      { apply list_find_None, Forall_forall. intros [n' ps'] Hin Heq.
        simpl in Heq. subst n'. apply Hn, list_elem_of_fmap.
        exists (k, ps'). auto. }
      destruct (params !! k) as [v|] eqn:Hk.
      * rewrite Hk. reflexivity.
      * destruct (default_value ps) as [d|].
        -- rewrite lookup_insert_eq. reflexivity.
        -- rewrite Hk, Hrest. reflexivity.
    + assert (Hk : match params !! n, default_value ps with
                   | None, Some d => <[n := d]> params
                   | _, _ => params
                   end !! k = params !! k).
      { destruct (params !! n), (default_value ps);
          rewrite ?lookup_insert_ne by exact Hne; reflexivity. }
      rewrite Hk.
      destruct (list_find (fun p : string * param_spec => p.1 = k) rest)
        as [[i p]|]; reflexivity.
Qed.

(** X2.  When a dispatch reaches the body of a tool whose descriptor
    names each parameter once, the body is called once, on the caller's
    arguments completed by the declared defaults: every argument given
    is passed on unchanged, every absent parameter with a default gets
    that default, nothing else is added, and after validation every
    required parameter is present. *)
Theorem body_receives_defaults now self name info args validate :
  get_tool registry name = Some info ->
  NoDup (fst <$> param_specs info) ->
  validate = false \/ valid (_validate_params info args) = true ->
  exists filled,
    bodies_invoked (execute registry now self name args validate).2
      = bodies_invoked self ++ [(name, filled)]
    /\ (forall k v, args !! k = Some v -> filled !! k = Some v)
    /\ (forall k ps d,
          (k, ps) ∈ param_specs info -> args !! k = None ->
          default_value ps = Some d -> filled !! k = Some d)
    /\ (forall k v,
          filled !! k = Some v ->
          args !! k = Some v
          \/ exists ps, (k, ps) ∈ param_specs info
                        /\ default_value ps = Some v)
    /\ (validate = true ->
        forall k ps, (k, ps) ∈ param_specs info -> required ps = true ->
                     is_Some (filled !! k)).
Proof.
  intros Hget Hnd Hpass.
  exists (_fill_default_params info args).
  rewrite (execute_body registry now self name info args validate Hget Hpass).
  cbv zeta.
  assert (Hlook := fun k => fill_default_lookup (param_specs info) args k Hnd).
  fold (_fill_default_params info args) in Hlook.
  split; [|split; [|split; [|split]]].
  - destruct (function info (_fill_default_params info args)); reflexivity.
  - intros k v Hk. rewrite Hlook, Hk. reflexivity.
  - intros k ps d Hin Hk Hd. rewrite Hlook, Hk.
    destruct (list_find (fun p : string * param_spec => p.1 = k)
                (param_specs info)) as [[i [k' ps']]|] eqn:Hf.
    + apply list_find_Some in Hf as (Hi & Hk' & _). simpl in Hk'. subst k'.
      apply list_elem_of_lookup_2 in Hi.
      assert (ps' = ps) as ->.
      { apply list_elem_of_lookup in Hi as [i1 Hi1].
        apply list_elem_of_lookup in Hin as [i2 Hi2].
        assert (i1 = i2) as ->.
        { apply (NoDup_lookup _ i1 i2 k Hnd);
            rewrite list_lookup_fmap; [rewrite Hi1|rewrite Hi2]; reflexivity. }
        congruence. }
      exact Hd.
    + exfalso. apply list_find_None in Hf.
      rewrite Forall_forall in Hf. apply (Hf (k, ps) Hin). reflexivity.
  - intros k v Hk. rewrite Hlook in Hk.
    destruct (args !! k) as [v'|]; [left; exact Hk|right].
    destruct (list_find (fun p : string * param_spec => p.1 = k)
                (param_specs info)) as [[i [k' ps']]|] eqn:Hf;
      [|discriminate].
    apply list_find_Some in Hf as (Hi & Hk' & _). simpl in Hk'. subst k'.
    exists ps'. split; [eapply list_elem_of_lookup_2; exact Hi | exact Hk].
  - intros -> k ps Hin Hreq.
    destruct Hpass as [Hv|Hv]; [discriminate|].
    apply valid_iff_none_missing in Hv.
    destruct (args !! k) as [v|] eqn:Hk.
    + exists v. rewrite Hlook, Hk. reflexivity.
    + exfalso.
      assert (Hm : k ∈ missing_required (param_specs info) args).
      { apply missing_required_spec. exists ps. auto. }
      rewrite Hv in Hm. by apply elem_of_nil in Hm.
Qed.

Lemma last_n_all {A} n (l : list A) : length l <= n -> last_n n l = l.
Proof.
  intros H. unfold last_n. replace (length l - n) with 0 by lia. reflexivity.
Qed.

Lemma last_n_snoc {A} n (l : list A) y :
  0 < n -> last_n n (last_n n l ++ [y]) = last_n n (l ++ [y]).
Proof.
  intros Hn. destruct (decide (length l <= n)) as [Hle|Hgt].
  - rewrite (last_n_all n l Hle). reflexivity.
  - unfold last_n at 1 3. rewrite !length_app. unfold last_n.
    rewrite length_drop. cbn [length].
    replace (length l - (length l - n) + 1 - n) with 1 by lia.
    rewrite !drop_app_le by (rewrite ?length_drop; lia).
    rewrite drop_drop. f_equal. f_equal. lia.
Qed.

Lemma last_n_fmap {A B} (f : A -> B) n (l : list A) :
  f <$> last_n n l = last_n n (f <$> l).
Proof. unfold last_n. rewrite fmap_drop, length_fmap. reflexivity. Qed.

Lemma record_execution_trim now self name params result ok :
  execution_history (_record_execution now self name params result ok)
  = last_n 100
      (execution_history self
         ++ [ {| timestamp := now; tool_name := name;
                 params := delete "vega_spec" params;
                 result := delete "vega_spec" result;
                 success := ok |} ]).
Proof.
  unfold _record_execution. cbn [execution_history].
  destruct (Nat.ltb_spec 100
              (length (execution_history self
                 ++ [ {| timestamp := now; tool_name := name;
                         params := delete "vega_spec" params;
                         result := delete "vega_spec" result;
                         success := ok |} ]))) as [Hlt|Hge].
  - reflexivity.
  - symmetry. apply last_n_all. exact Hge.
Qed.

Lemma execute_keeps_log now self name args validate :
  log_mirrors_bodies self ->
  Forall (log_entry_sound registry) (execution_history self) ->
  let st := (execute registry now self name args validate).2 in
  log_mirrors_bodies st /\ Forall (log_entry_sound registry) (execution_history st).
Proof.
  intros Hm Hs. cbv zeta.
  destruct (get_tool registry name) as [info|] eqn:Hget.
  2:{ rewrite (execute_unknown registry now self name args validate Hget).
      auto. }
  destruct (reaches_body_dec registry name info args validate Hget)
    as [Hpass|[-> Hbad]].
  2:{ rewrite (execute_invalid registry now self name info args Hget Hbad).
      auto. }
  rewrite (execute_body registry now self name info args validate Hget Hpass).
  cbv zeta.
  set (filled := _fill_default_params info args).
  assert (Hstep : forall r ok,
            (ok = false -> delete "vega_spec" r !! "success"
                           = Some (VBool false)) ->
            let st := _record_execution now (with_invocation self name filled)
                        name filled r ok in
            log_mirrors_bodies st
            /\ Forall (log_entry_sound registry) (execution_history st)).
  { intros r ok Hok st. subst st. split.
    - unfold log_mirrors_bodies.
      rewrite record_execution_trim.
      cbn [with_invocation execution_history bodies_invoked _record_execution].
      rewrite !last_n_fmap, !fmap_app, !fmap_cons, !fmap_nil.
      unfold log_mirrors_bodies in Hm.
      rewrite Hm, last_n_fmap, last_n_snoc by lia. reflexivity.
    - rewrite record_execution_trim. unfold last_n.
      apply Forall_drop, Forall_app. split; [exact Hs|].
      constructor; [|constructor].
      unfold log_entry_sound. cbn [params result tool_name success].
      rewrite !lookup_delete_eq, Hget. repeat split; eauto. }
  destruct (function info filled) as [r|message traceback].
  - apply Hstep. discriminate.
  - apply Hstep. intros _. unfold error_result.
    rewrite lookup_delete_ne by discriminate.
    reflexivity.
Qed.

(** X3.  On a dispatcher that starts empty, after any sequence of
    dispatches the log is the record of the last hundred body calls:
    same tools, same arguments less the chart, in the same order.  No
    entry holds a chart, every entry names a registered tool, and an
    entry marked failed carries a failure result. *)
Theorem log_is_last_hundred_calls calls :
  let st := execute_all registry init calls in
  (fun r => (tool_name r, params r)) <$> execution_history st
  = (fun p => (p.1, delete "vega_spec" p.2))
      <$> last_n 100 (bodies_invoked st)
  /\ length (execution_history st) = Nat.min 100 (length (bodies_invoked st))
  /\ Forall (fun r =>
       params r !! "vega_spec" = None
       /\ result r !! "vega_spec" = None
       /\ is_Some (get_tool registry (tool_name r))
       /\ (success r = false -> result r !! "success" = Some (VBool false)))
       (execution_history st).
Proof.
  cbv zeta.
  assert (Hinv : forall calls self,
            log_mirrors_bodies self ->
            Forall (log_entry_sound registry) (execution_history self) ->
            log_mirrors_bodies (execute_all registry self calls)
            /\ Forall (log_entry_sound registry)
                 (execution_history (execute_all registry self calls))).
  { clear calls. induction calls as [|[[[now name] args] validate] rest IH];
      intros self Hm Hs.
    - auto.
    - unfold execute_all. cbn [fold_left].
      destruct (execute_keeps_log now self name args validate Hm Hs)
        as [Hm' Hs'].
      exact (IH _ Hm' Hs'). }
  destruct (Hinv calls init) as [Hm Hs].
  { reflexivity. }
  { constructor. }
  split; [exact Hm|split; [|exact Hs]].
  apply (f_equal length) in Hm. rewrite !length_fmap in Hm. rewrite Hm.
  unfold last_n. rewrite length_drop. lia.
Qed.

Lemma execute_flags_success now self name args validate :
  bodies_flag_success registry ->
  has_success_flag (execute registry now self name args validate).1.
Proof.
  intros Hflag.
  destruct (get_tool registry name) as [info|] eqn:Hget.
  2:{ rewrite (execute_unknown registry now self name args validate Hget).
      exists false. reflexivity. }
  destruct (reaches_body_dec registry name info args validate Hget)
    as [Hpass|[-> Hbad]].
  2:{ rewrite (execute_invalid registry now self name info args Hget Hbad).
      exists false. reflexivity. }
  rewrite (execute_body registry now self name info args validate Hget Hpass).
  cbv zeta.
  destruct (function info (_fill_default_params info args))
    as [r|message traceback] eqn:Hbody.
  - exact (Hflag name info _ r Hget Hbody).
  - exists false. reflexivity.
Qed.

Lemma batch_step_flags_success now self c :
  bodies_flag_success registry ->
  has_success_flag (batch_step registry now self c).1.
Proof.
  intros Hflag. unfold batch_step.
  destruct (bc_tool c) as [name|]; [|exists false; reflexivity].
  destruct (String.eqb name ""); [exists false; reflexivity|].
  apply execute_flags_success. exact Hflag.
Qed.

Lemma batch_step_history_bound now self c :
  length (execution_history self) <= 100 ->
  length (execution_history (batch_step registry now self c).2) <= 100.
Proof.
  intros H. unfold batch_step.
  destruct (bc_tool c) as [name|]; [|exact H].
  destruct (String.eqb name ""); [exact H|].
  apply execute_history_bound. exact H.
Qed.

Lemma execute_batch_cons clock first self c rest :
  execute_batch registry clock first self (c :: rest)
  = let step := batch_step registry (clock first) self c in
    let tail := execute_batch registry clock (S first) step.2 rest in
    (step.1 :: tail.1, tail.2).
Proof.
  cbn [execute_batch].
  destruct (batch_step registry (clock first) self c) as [r st].
  cbn [fst snd].
  destruct (execute_batch registry clock (S first) st rest) as [rs st'].
  reflexivity.
Qed.

Lemma execute_batch_length clock first self tool_calls :
  length (execute_batch registry clock first self tool_calls).1
  = length tool_calls.
Proof.
  revert first self. induction tool_calls as [|c rest IH]; intros first self.
  - reflexivity.
  - rewrite execute_batch_cons. cbv zeta. cbn [fst length].
    rewrite IH. reflexivity.
Qed.

(** Composition: a batch is its first part followed by the rest, run on
    the dispatcher the first part leaves. *)
Lemma execute_batch_app clock first self calls1 calls2 :
  execute_batch registry clock first self (calls1 ++ calls2)
  = let head := execute_batch registry clock first self calls1 in
    let tail :=
      execute_batch registry clock (first + length calls1) head.2 calls2 in
    (head.1 ++ tail.1, tail.2).
Proof.
  revert first self. induction calls1 as [|c rest IH]; intros first self.
  - cbn [app execute_batch length fst snd]. rewrite Nat.add_0_r.
    destruct (execute_batch registry clock first self calls2); reflexivity.
  - rewrite <- app_comm_cons, !execute_batch_cons. cbv zeta.
    rewrite IH. cbv zeta. cbn [fst snd length].
    replace (S first + length rest) with (first + S (length rest)) by lia.
    reflexivity.
Qed.

(** X4.  [execute_batch] answers every call of the batch, in order, and
    never stops early: the [i]-th answer is what a single dispatch of
    the [i]-th call, with validation on, returns on the dispatcher the
    calls before it left (an unnamed call is answered without one and
    leaves the dispatcher as it is); every answer carries a boolean
    success flag, and the log stays within its bound. *)
Theorem execute_batch_sequential clock first self tool_calls :
  bodies_flag_success registry ->
  let out := execute_batch registry clock first self tool_calls in
  length out.1 = length tool_calls
  /\ Forall has_success_flag out.1
  /\ (forall i c,
        tool_calls !! i = Some c ->
        let before :=
          (execute_batch registry clock first self (take i tool_calls)).2 in
        let after :=
          (execute_batch registry clock first self
             (take (S i) tool_calls)).2 in
        match bc_tool c with
        | Some name =>
            if String.eqb name ""
            then out.1 !! i = Some unspecified_result /\ after = before
            else
              let single :=
                execute registry (clock (first + i)) before name
                  (default ∅ (bc_params c)) true in
              out.1 !! i = Some single.1 /\ after = single.2
        | None => out.1 !! i = Some unspecified_result /\ after = before
        end)
  /\ (length (execution_history self) <= 100 ->
      length (execution_history out.2) <= 100).
Proof.
  intros Hflag out. subst out.
  split; [apply execute_batch_length|split; [|split]].
  - revert first self. induction tool_calls as [|c rest IH]; intros first self.
    + constructor.
    + rewrite execute_batch_cons. cbv zeta. cbn [fst].
      constructor; [apply batch_step_flags_success; exact Hflag | apply IH].
  - intros i c Hi. cbv zeta.
    assert (Hlen : length (take i tool_calls) = i).
    { apply length_take_le. apply lookup_lt_Some in Hi. lia. }
    assert (Hsplit : tool_calls
                     = take i tool_calls ++ c :: drop (S i) tool_calls).
    { symmetry. apply take_drop_middle. exact Hi. }
    assert (Htake : take (S i) tool_calls = take i tool_calls ++ [c]).
    { apply take_S_r. exact Hi. }
    rewrite Htake. rewrite (execute_batch_app clock first self _ [c]).
    cbv zeta. cbn [snd]. rewrite Hlen.
    set (before := (execute_batch registry clock first self
                      (take i tool_calls)).2).
    assert (Hres : (execute_batch registry clock first self tool_calls).1 !! i
                   = Some (batch_step registry (clock (first + i)) before c).1).
    { rewrite Hsplit at 1. rewrite execute_batch_app. cbv zeta. cbn [fst].
      rewrite Hlen, execute_batch_cons. cbv zeta. cbn [fst].
      rewrite lookup_app_r by (rewrite execute_batch_length; lia).
      rewrite execute_batch_length, Hlen, Nat.sub_diag. reflexivity. }
    rewrite Hres, execute_batch_cons. cbv zeta. cbn [execute_batch snd].
    fold before. unfold batch_step.
    destruct (bc_tool c) as [name|]; [|auto].
    destruct (String.eqb name ""); auto.
  - revert first self. induction tool_calls as [|c rest IH];
      intros first self Hb.
    + exact Hb.
    + rewrite execute_batch_cons. cbv zeta. cbn [snd].
      apply IH, batch_step_history_bound, Hb.
Qed.


End DispatcherMore.

Section HistoryQueries.

Import ToolExecutor.

Lemma slice_from_zero {A} (l : list A) : slice_from 0 l = l.
Proof. reflexivity. Qed.

(** X5.  [get_execution_history] keeps the order of the log and, under
    a non-empty tool name, only the entries of that tool.  A positive
    [limit] gives the newest [limit] of them (all, when there are
    fewer).  A [limit] of zero does not give an empty list but every
    entry, and a negative one drops the oldest [-limit] entries. *)
Theorem execution_history_query self limit name :
  let shown := get_execution_history self limit name in
  let pool := get_execution_history self 0 name in
  sublist pool (execution_history self)
  /\ (forall r, r ∈ pool <->
        r ∈ execution_history self
        /\ match name with
           | Some n => n = "" \/ tool_name r = n
           | None => True
           end)
  /\ ((0 < limit)%Z ->
      exists older,
        pool = older ++ shown
        /\ length shown = Nat.min (Z.to_nat limit) (length pool))
  /\ ((limit <= 0)%Z -> shown = drop (Z.to_nat (- limit)) pool).
Proof.
  cbv zeta. unfold get_execution_history.
  change (- 0)%Z with 0%Z. rewrite !slice_from_zero.
  set (pool := match name with
               | Some n =>
                   if String.eqb n "" then execution_history self
                   else filter (fun r => tool_name r = n)
                          (execution_history self)
               | None => execution_history self
               end).
  split; [|split; [|split]].
  - subst pool. destruct name as [n|]; [|reflexivity].
    destruct (String.eqb n ""); [reflexivity|apply sublist_filter].
  - intros r. subst pool. destruct name as [n|]; [|tauto].
    destruct (String.eqb_spec n "") as [->|Hne]; [tauto|].
    rewrite list_elem_of_filter. tauto.
  - intros Hpos. unfold slice_from.
    assert (Hneg : (- limit <? 0)%Z = true) by (apply Z.ltb_lt; lia).
    rewrite Hneg.
    set (k := Z.to_nat (Z.max (Z.of_nat (length pool) + - limit) 0)).
    exists (take k pool). split; [symmetry; apply take_drop|].
    rewrite length_drop. subst k. lia.
  - intros Hle. unfold slice_from.
    assert (Hneg : (- limit <? 0)%Z = false) by (apply Z.ltb_ge; lia).
    rewrite Hneg. reflexivity.
Qed.

(** [clear_history] empties the log and nothing else; the next body call
    is then the only entry. *)
Lemma clear_history_then_execute registry now self name args validate :
  let st := (execute registry now (clear_history self) name args validate).2 in
  length (execution_history st) <= 1.
Proof.
  cbv zeta.
  destruct (get_tool registry name) as [info|] eqn:Hget.
  2:{ rewrite (execute_unknown registry now _ name args validate Hget).
      cbn. lia. }
  destruct (reaches_body_dec registry name info args validate Hget)
    as [Hpass|[-> Hbad]].
  2:{ rewrite (execute_invalid registry now _ name info args Hget Hbad).
      cbn. lia. }
  rewrite (execute_body registry now _ name info args validate Hget Hpass).
  cbv zeta.
  destruct (function info (_fill_default_params info args)); cbn; lia.
Qed.

End HistoryQueries.

Section CatalogDispatch.

Import ToolExecutor.

Variable impl : string -> tool_function.

Lemma catalog_names_distinct : NoDup (fst <$> registered_tools impl).
Proof.
  apply (bool_decide_unpack _). vm_compute. reflexivity.
Qed.

Lemma catalog_params_distinct name info :
  get_tool (registered_tools impl) name = Some info ->
  NoDup (fst <$> param_specs info).
Proof.
  intros Hget. apply lookup_tool_elem in Hget.
  assert (Hall : Forall (fun e : string * tool_info =>
                           NoDup (fst <$> param_specs e.2))
                   (registered_tools impl)).
  { unfold registered_tools.
    repeat (constructor;
            [cbn [snd param_specs];
             apply (bool_decide_unpack _); vm_compute; reflexivity|]).
    constructor. }
  rewrite Forall_forall in Hall. exact (Hall _ Hget).
Qed.

Lemma catalog_chart_first name info :
  get_tool (registered_tools impl) name = Some info ->
  exists rest, param_specs info = ("vega_spec", req "dict") :: rest.
Proof.
  intros Hget. apply lookup_tool_elem in Hget.
  assert (Hall : Forall (fun e : string * tool_info =>
                           exists rest, param_specs e.2
                                        = ("vega_spec", req "dict") :: rest)
                   (registered_tools impl)).
  { unfold registered_tools.
    repeat (constructor; [cbn [snd param_specs]; eexists; reflexivity|]).
    constructor. }
  rewrite Forall_forall in Hall. exact (Hall _ Hget).
Qed.

(** X6.  Every tool of the catalog takes the chart as its first,
    required parameter: a validated dispatch of any registered tool
    without ['vega_spec'] is refused, its first complaint is the missing
    chart, and neither a body call nor a log entry results. *)
Theorem catalog_tools_require_chart now self name info args :
  get_tool (registered_tools impl) name = Some info ->
  args !! "vega_spec" = None ->
  let out := execute (registered_tools impl) now self name args true in
  out.2 = self
  /\ out.1 !! "success" = Some (VBool false)
  /\ out.1 !! "error" = Some (VStr "Parameter validation failed")
  /\ exists others,
       out.1 !! "details"
       = Some (VList (VStr "Missing required parameter: vega_spec"
                        :: others)).
Proof.
  intros Hget Hargs out. subst out.
  destruct (catalog_chart_first name info Hget) as [rest Hspecs].
  assert (Hmiss : exists more,
            missing_required (param_specs info) args = "vega_spec" :: more).
  { rewrite Hspecs. unfold missing_required.
    rewrite filter_cons_True by (cbn; auto).
    rewrite fmap_cons. eexists. reflexivity. }
  destruct Hmiss as [more Hmiss].
  assert (Hbad : valid (_validate_params info args) = false).
  { unfold _validate_params. rewrite Hmiss. reflexivity. }
  rewrite (execute_invalid _ now self name info args Hget Hbad).
  cbn [fst snd]. unfold validation_failure, _validate_params.
  cbn [errors]. rewrite Hmiss.
  repeat split. eexists. reflexivity.
Qed.

End CatalogDispatch.

Section DispatcherMoreOnCatalog.

Import ToolExecutor.

(** A name outside the catalog, dispatched on the real catalog. *)
Lemma unknown_tool_lists_catalog_witness :
  let out := execute (registered_tools demo_impl) demo_clock init
               "no_such_tool" ∅ true in
  out.2 = init
  /\ out.1 !! "success" = Some (VBool false)
  /\ "zoom" ∈ list_all_tools (registered_tools demo_impl)
  /\ "no_such_tool" ∉ list_all_tools (registered_tools demo_impl).
Proof.
  destruct (unknown_tool_lists_catalog (registered_tools demo_impl)
              demo_clock init "no_such_tool" ∅ true eq_refl)
    as (H1 & H2 & _ & _ & H5 & H6).
  split; [exact H1|]. split; [exact H2|]. split; [|exact H6].
  apply H5. eexists. reflexivity.
Defined.

(** [sort_bars] dispatched with the chart only: its body is called with
    [order] set to the declared default. *)
Lemma body_receives_defaults_witness :
  exists filled,
    bodies_invoked
      (execute (registered_tools demo_impl) demo_clock init "sort_bars"
         {[ "vega_spec" := VDict [] ]} true).2
    = [("sort_bars", filled)]
    /\ filled !! "vega_spec" = Some (VDict [])
    /\ filled !! "order" = Some (VStr "descending").
Proof.
  edestruct (body_receives_defaults (registered_tools demo_impl) demo_clock
               init "sort_bars" _ {[ "vega_spec" := VDict [] ]} true eq_refl)
    as (filled & Hcall & Hkept & Hdef & _ & _).
  { apply (catalog_params_distinct demo_impl "sort_bars"). reflexivity. }
  { right. reflexivity. }
  exists filled. split; [exact Hcall|]. split.
  - apply Hkept. reflexivity.
  - apply (Hdef "order" (opt "str" (VStr "descending"))).
    + cbn [param_specs]. apply list_elem_of_In. simpl. auto.
    + reflexivity.
    + reflexivity.
Defined.

(** A batch of four calls on the real catalog: a good one, one without a
    name, one under an unknown name and one that fails validation.  All
    four are answered, and only the first reaches the log. *)
Lemma execute_batch_sequential_witness :
  let calls :=
    [ {| bc_tool := Some "brush";
         bc_params := Some {[ "vega_spec" := VDict [];
                              "area" := VList [VInt 0; VInt 0; VInt 1; VInt 1] ]} |};
      {| bc_tool := None; bc_params := None |};
      {| bc_tool := Some "no_such_tool"; bc_params := None |};
      {| bc_tool := Some "zoom"; bc_params := None |} ] in
  let out := execute_batch (registered_tools demo_impl)
               (fun _ => demo_clock) 0 init calls in
  length out.1 = 4
  /\ Forall has_success_flag out.1
  /\ out.1 !! 1 = Some unspecified_result
  /\ length (execution_history out.2) <= 100.
Proof.
  intros calls out.
  destruct (execute_batch_sequential (registered_tools demo_impl)
              (fun _ => demo_clock) 0 init calls demo_bodies_flag_success)
    as (Hlen & Hflags & Heach & Hbound).
  split; [exact Hlen|]. split; [exact Hflags|]. split.
  - exact (proj1 (Heach 1 {| bc_tool := None; bc_params := None |} eq_refl)).
  - apply Hbound. cbn. lia.
Defined.

(** Three logged calls, queried with limits 2, 0 and -1. *)
Lemma execution_history_query_witness :
  let brush :=
    (demo_clock, "brush",
     ({[ "vega_spec" := VDict [];
         "area" := VList [VInt 0; VInt 0; VInt 1; VInt 1] ]}
        : gmap string value), true) in
  let sort :=
    (demo_clock, "sort_bars",
     ({[ "vega_spec" := VDict [] ]} : gmap string value), true) in
  let st := execute_all (registered_tools demo_impl) init
              [brush; sort; brush] in
  length (get_execution_history st 2 None) = 2
  /\ get_execution_history st 0 None = execution_history st
  /\ get_execution_history st (-1) (Some "brush")
     = drop 1 (get_execution_history st 0 (Some "brush")).
Proof.
  intros brush sort st.
  destruct (execution_history_query st 2 None) as (_ & _ & Hpos & _).
  destruct (execution_history_query st 0 None) as (_ & _ & _ & Hzero).
  destruct (execution_history_query st (-1) (Some "brush"))
    as (_ & _ & _ & Hneg).
  split; [|split].
  - destruct Hpos as (older & _ & Hlen); [lia|]. rewrite Hlen. reflexivity.
  - rewrite Hzero by lia. reflexivity.
  - apply Hneg. lia.
Defined.

(** [zoom] dispatched with an area but no chart. *)
Lemma catalog_tools_require_chart_witness :
  let out := execute (registered_tools demo_impl) demo_clock init "zoom"
               {[ "area" := VList [VInt 0; VInt 0; VInt 1; VInt 1] ]} true in
  out.2 = init
  /\ exists others,
       out.1 !! "details"
       = Some (VList (VStr "Missing required parameter: vega_spec"
                        :: others)).
Proof.
  edestruct (catalog_tools_require_chart demo_impl demo_clock init "zoom" _
               {[ "area" := VList [VInt 0; VInt 0; VInt 1; VInt 1] ]}
               eq_refl)
    as (Hst & _ & _ & Hdetails).
  { reflexivity. }
  split; [exact Hst | exact Hdetails].
Defined.

End DispatcherMoreOnCatalog.

(** ** The schema adapter *)

Section AdapterFacts.

Import ChartTypes VLMToolAdapter.

Variable registry : list (string * tool_info).
Variable chart_tools : ChartType -> option (list string).

Lemma omap_registered {A} (f : string -> tool_info -> A) names :
  length (omap (fun n => match ToolExecutor.get_tool registry n with
                         | None => None
                         | Some info => Some (f n info)
                         end) names)
  = length (filter (fun n => is_Some (ToolExecutor.get_tool registry n))
              names).
Proof.
  induction names as [|n rest IH]; [reflexivity|].
  cbn [omap list_omap]. rewrite filter_cons.
  destruct (ToolExecutor.get_tool registry n) as [info|] eqn:Hget.
  - rewrite decide_True by eauto. cbn [length]. f_equal. exact IH.
  - rewrite decide_False by (intros [? ?]; discriminate). exact IH.
Qed.

(** X7.  The two function-calling dialects describe the same tools: for
    every chart type, or none, they list the registered names among the
    requested ones, in the same order, each with the same description
    and the same parameter schema; a name the catalog does not hold is
    left out of both. *)
Theorem dialects_describe_same_tools chart_type :
  let openai := to_openai_format registry chart_tools chart_type in
  let anthropic := to_anthropic_format registry chart_tools chart_type in
  openai_fields <$> openai = anthropic_fields <$> anthropic
  /\ (fun tool => (openai_fields tool).1.1) <$> openai
     = (fun n => Some (VStr n))
         <$> filter (fun n => is_Some (ToolExecutor.get_tool registry n))
               (tool_names registry chart_tools chart_type)
  /\ Forall (fun tool =>
       exists n info,
         ToolExecutor.get_tool registry n = Some info
         /\ openai_fields tool
            = (Some (VStr n), Some (VStr (description info)),
               Some (VDict (_convert_params_to_json_schema
                              (param_specs info))))) openai.
Proof.
  cbv zeta. unfold to_openai_format, to_anthropic_format.
  generalize (tool_names registry chart_tools chart_type) as names.
  induction names as [|n rest (IH1 & IH2 & IH3)].
  - repeat split. constructor.
  - cbn [omap list_omap]. rewrite filter_cons.
    destruct (ToolExecutor.get_tool registry n) as [info|] eqn:Hget.
    + rewrite decide_True by eauto. rewrite !fmap_cons.
      split; [|split].
      * f_equal. exact IH1.
      * f_equal. exact IH2.
      * constructor; [|exact IH3]. exists n, info. split; [exact Hget|].
        reflexivity.
    + rewrite decide_False by (intros [? ?]; discriminate). auto.
Qed.

Lemma schema_required_names specs :
  schema_required (_convert_params_to_json_schema specs)
  = VStr <$> (fst <$> filter (fun p => required p.2 = true) specs).
Proof.
  unfold schema_required, _convert_params_to_json_schema.
  destruct (fst <$> filter (fun p : string * param_spec => required p.2 = true)
              specs) as [|n rest]; reflexivity.
Qed.

Lemma schema_required_absent specs :
  dget "required" (_convert_params_to_json_schema specs) = None
  <-> Forall (fun p => required p.2 = false) specs.
Proof.
  unfold _convert_params_to_json_schema.
  destruct (fst <$> filter (fun p : string * param_spec => required p.2 = true)
              specs) as [|n rest] eqn:Hreq.
  - split; [intros _|reflexivity].
    apply fmap_nil_inv in Hreq.
    apply Forall_forall. intros p Hin.
    destruct (required p.2) eqn:Hp; [|reflexivity].
    assert (Hf : p ∈ filter (fun p : string * param_spec => required p.2 = true)
                   specs) by (apply list_elem_of_filter; auto).
    rewrite Hreq in Hf. by apply elem_of_nil in Hf.
  - split; [discriminate|]. intros Hall. exfalso.
    assert (Hin : n ∈ fst <$> filter (fun p : string * param_spec =>
                                        required p.2 = true) specs)
      by (rewrite Hreq; left).
    apply list_elem_of_fmap in Hin as (p & _ & Hp).
    apply list_elem_of_filter in Hp as [Hr Hp].
    rewrite Forall_forall in Hall. rewrite (Hall p Hp) in Hr. discriminate.
Qed.

(** X8.  The schema handed to the model and the dispatcher's validation
    agree: the names under ['required'] of a tool's schema are its
    required parameters, so arguments pass validation exactly when they
    hold every name the schema requires; the key is left out exactly
    when nothing is required. *)
Theorem schema_required_is_validated info (args : gmap string value) :
  let schema := _convert_params_to_json_schema (param_specs info) in
  (forall n, VStr n ∈ schema_required schema
             <-> exists ps, (n, ps) ∈ param_specs info /\ required ps = true)
  /\ (ToolExecutor.valid (ToolExecutor._validate_params info args) = true
      <-> forall n, VStr n ∈ schema_required schema -> is_Some (args !! n))
  /\ (dget "required" schema = None
      <-> forall a : gmap string value,
            ToolExecutor.valid (ToolExecutor._validate_params info a) = true).
Proof.
  cbv zeta.
  assert (Hnames : forall n,
            VStr n ∈ schema_required
                       (_convert_params_to_json_schema (param_specs info))
            <-> exists ps, (n, ps) ∈ param_specs info /\ required ps = true).
  { intros n. rewrite schema_required_names, list_elem_of_fmap. split.
    - intros (n' & Heq & Hin). injection Heq as <-.
      apply list_elem_of_fmap in Hin as ([n' ps] & -> & Hin).
      apply list_elem_of_filter in Hin as [Hr Hin]. eauto.
    - intros (ps & Hin & Hr). exists n. split; [reflexivity|].
      apply list_elem_of_fmap. exists (n, ps). split; [reflexivity|].
      apply list_elem_of_filter. auto. }
  assert (Hvalid : forall a : gmap string value,
            ToolExecutor.valid (ToolExecutor._validate_params info a) = true
            <-> forall n ps, (n, ps) ∈ param_specs info ->
                             required ps = true -> is_Some (a !! n)).
  { intros a. rewrite valid_iff_none_missing. split.
    - intros Hnone n ps Hin Hr.
      destruct (a !! n) as [v|] eqn:Hn; [eauto|exfalso].
      assert (Hm : n ∈ ToolExecutor.missing_required (param_specs info) a)
        by (apply missing_required_spec; eauto).
      rewrite Hnone in Hm. by apply elem_of_nil in Hm.
    - intros Hall.
      destruct (ToolExecutor.missing_required (param_specs info) a)
        as [|n rest] eqn:Hm; [reflexivity|exfalso].
      assert (Hin : n ∈ ToolExecutor.missing_required (param_specs info) a)
        by (rewrite Hm; left).
      apply missing_required_spec in Hin as (ps & Hin & Hr & Hn).
      destruct (Hall n ps Hin Hr) as [v Hv]. congruence. }
  split; [exact Hnames|split].
  - rewrite Hvalid. split.
    + intros Hall n Hn. apply Hnames in Hn as (ps & Hin & Hr). eauto.
    + intros Hall n ps Hin Hr. apply Hall, Hnames. eauto.
  - rewrite schema_required_absent. split.
    + intros Hnone a. apply Hvalid. intros n ps Hin Hr.
      rewrite Forall_forall in Hnone. specialize (Hnone _ Hin).
      simpl in Hnone. congruence.
    + intros Hall. apply Forall_forall. intros [n ps] Hin. simpl.
      destruct (required ps) eqn:Hr; [exfalso|reflexivity].
      destruct (proj1 (Hvalid ∅) (Hall ∅) n ps Hin Hr) as [v Hv].
      rewrite lookup_empty in Hv. discriminate.
Qed.

End AdapterFacts.

Section Grouping.

Import ChartTypes VLMToolAdapter.

Lemma add_to_category_keys tool categories :
  fst <$> add_to_category tool categories
  = if decide (td_category tool ∈ fst <$> categories)
    then fst <$> categories
    else (fst <$> categories) ++ [td_category tool].
Proof.
  induction categories as [|[cat cat_tools] rest IH].
  - reflexivity.
  - cbn [add_to_category]. destruct (String.eqb_spec (td_category tool) cat)
      as [Heq|Hne].
    + rewrite decide_True by (rewrite fmap_cons; simpl; rewrite Heq; left).
      reflexivity.
    + rewrite !fmap_cons, IH. cbn [fst].
      destruct (decide (td_category tool ∈ fst <$> rest)) as [Hin|Hnin].
      * rewrite decide_True by (right; exact Hin). reflexivity.
      * rewrite decide_False; [reflexivity|].
        intros Hin. apply elem_of_cons in Hin as [Heq|Hin]; contradiction.
Qed.

Lemma add_to_category_elem tool categories c ts :
  NoDup (fst <$> categories) ->
  (c, ts) ∈ add_to_category tool categories <->
  (c <> td_category tool /\ (c, ts) ∈ categories)
  \/ (c = td_category tool
      /\ ((exists before, (c, before) ∈ categories /\ ts = before ++ [tool])
          \/ ((c ∉ fst <$> categories) /\ ts = [tool]))).
Proof.
  induction categories as [|[cat cat_tools] rest IH]; intros Hnd.
  - cbn [add_to_category]. rewrite list_elem_of_singleton. split.
    + intros Heq. injection Heq as -> ->. right. split; [reflexivity|].
      right. split; [apply not_elem_of_nil|reflexivity].
    + intros [[_ Hin]|[-> [(before & Hin & _)|[_ ->]]]].
      * by apply elem_of_nil in Hin.
      * by apply elem_of_nil in Hin.
      * reflexivity.
  - rewrite fmap_cons in Hnd. apply NoDup_cons in Hnd as [Hcat Hnd].
    cbn [fst] in Hcat. specialize (IH Hnd).
    cbn [add_to_category].
    destruct (String.eqb_spec (td_category tool) cat) as [Heq|Hne].
    + subst cat. split.
      * intros Hin. apply elem_of_cons in Hin as [Heq|Hin].
        -- injection Heq as -> ->. right. split; [reflexivity|]. left.
           exists cat_tools. split; [left|]; reflexivity.
        -- left. split; [|right; exact Hin].
           intros ->. apply Hcat, list_elem_of_fmap.
           exists (td_category tool, ts). auto.
      * intros [[Hne Hin]|[-> [(before & Hin & ->)|[Hnin _]]]].
        -- apply elem_of_cons in Hin as [Heq|Hin].
           ++ injection Heq as -> ->. contradiction.
           ++ right; exact Hin.
        -- apply elem_of_cons in Hin as [Heq|Hin].
           ++ injection Heq as ->. left.
           ++ exfalso. apply Hcat, list_elem_of_fmap.
              exists (td_category tool, before). auto.
        -- exfalso. apply Hnin. rewrite fmap_cons. left.
    + rewrite elem_of_cons, IH. split.
      * intros [Heq|[[Hc Hin]|[-> [(before & Hin & ->)|[Hnin ->]]]]].
        -- injection Heq as -> ->. left. split; [congruence|left].
        -- left. split; [exact Hc|right; exact Hin].
        -- right. split; [reflexivity|]. left. exists before.
           split; [right; exact Hin|reflexivity].
        -- right. split; [reflexivity|]. right. split; [|reflexivity].
           rewrite fmap_cons. apply not_elem_of_cons. auto.
      * intros [[Hc Hin]|[-> [(before & Hin & ->)|[Hnin ->]]]].
        -- apply elem_of_cons in Hin as [Heq|Hin]; [left; exact Heq|].
           right. left. auto.
        -- apply elem_of_cons in Hin as [Heq|Hin].
           ++ injection Heq as Heq _. contradiction.
           ++ right. right. split; [reflexivity|]. left. eauto.
        -- rewrite fmap_cons in Hnin. apply not_elem_of_cons in Hnin as [_ Hnin].
           right. right. split; [reflexivity|]. right. auto.
Qed.

Lemma group_by_category_snoc tools tool :
  group_by_category (tools ++ [tool])
  = add_to_category tool (group_by_category tools).
Proof. unfold group_by_category. rewrite fold_left_app. reflexivity. Qed.

(** X9.  The grouping loop of [to_prompt_string] puts every tool under
    exactly one heading: the headings are the categories that occur,
    each once, and the tools under a heading are all the tools of that
    category, in the order they were listed. *)
Theorem group_by_category_partitions tools :
  let categories := group_by_category tools in
  NoDup (fst <$> categories)
  /\ (forall c, c ∈ fst <$> categories <-> c ∈ td_category <$> tools)
  /\ (forall c cat_tools,
        (c, cat_tools) ∈ categories ->
        cat_tools <> []
        /\ cat_tools = filter (fun tool => td_category tool = c) tools).
Proof.
  cbv zeta. induction tools as [|tool tools (IHnd & IHkeys & IHgroups)]
    using rev_ind.
  - split; [constructor|]. split.
    + intros c. reflexivity.
    + intros c ts Hin. by apply elem_of_nil in Hin.
  - rewrite group_by_category_snoc.
    split; [|split].
    + rewrite add_to_category_keys.
      destruct (decide (td_category tool ∈ fst <$> group_by_category tools))
        as [Hin|Hnin]; [exact IHnd|].
      apply NoDup_app. split; [exact IHnd|]. split.
      * intros c Hc Hc'. apply list_elem_of_singleton in Hc'. subst c.
        contradiction.
      * apply NoDup_singleton.
    + intros c. rewrite add_to_category_keys, fmap_app, elem_of_app.
      rewrite fmap_cons, fmap_nil, list_elem_of_singleton.
      destruct (decide (td_category tool ∈ fst <$> group_by_category tools))
        as [Hin|Hnin].
      * rewrite IHkeys. split; [auto|].
        intros [H | ->]; [exact H|]. apply IHkeys. exact Hin.
      * rewrite elem_of_app, list_elem_of_singleton, IHkeys. reflexivity.
    + intros c ts Hin.
      apply (add_to_category_elem _ _ _ _ IHnd) in Hin.
      rewrite filter_app, filter_cons, filter_nil.
      destruct Hin as [[Hne Hin]|[-> [(before & Hin & ->)|[Hnin ->]]]].
      * rewrite decide_False by congruence. rewrite app_nil_r.
        exact (IHgroups c ts Hin).
      * rewrite decide_True by reflexivity.
        destruct (IHgroups _ _ Hin) as [_ Hb]. rewrite <- Hb.
        split; [|reflexivity]. intros Heq. by apply app_nil in Heq as [_ ?].
      * rewrite decide_True by reflexivity.
        split; [discriminate|].
        assert (Hnone : filter (fun t => td_category t = td_category tool) tools
                        = []).
        { destruct (filter (fun t => td_category t = td_category tool) tools)
            as [|t rest] eqn:Hf; [reflexivity|exfalso].
          assert (Ht : t ∈ filter (fun t => td_category t = td_category tool)
                         tools) by (rewrite Hf; left).
          apply list_elem_of_filter in Ht as [Hcat Ht].
          apply Hnin, IHkeys, list_elem_of_fmap. exists t. auto. }
        rewrite Hnone. reflexivity.
Qed.

End Grouping.

Lemma filter_all {A} (P : A -> Prop) `{forall x, Decision (P x)} (l : list A) :
  Forall P l -> filter P l = l.
Proof.
  induction 1 as [|x l Hx _ IH]; [reflexivity|].
  rewrite filter_cons, decide_True by exact Hx. f_equal. exact IH.
Qed.

Section AdapterOnCatalog.

Import ChartTypes VLMToolAdapter.

Variable impl : string -> tool_function.

(** The catalog is the seven dictionaries, one after the other. *)
Lemma catalog_is_the_seven_dictionaries :
  ToolExecutor.list_all_tools (registered_tools impl)
  = common_tools ++ bar_chart_tools_dict ++ line_chart_tools_dict
      ++ scatter_tools ++ heatmap_tools_dict ++ parallel_coords_tools_dict
      ++ sankey_tools_dict.
Proof. reflexivity. Qed.

(** X10.  On the catalog, whatever chart type is asked for, or none,
    every name the adapter starts from is registered and occurs once, so
    no tool is skipped; the eight common tools are always offered; an
    unknown chart type, like no chart type, gets the whole catalog; and
    every registered tool is offered under some known chart type. *)
Theorem chart_tool_lists_are_registered chart_type :
  let names := tool_names (registered_tools impl) _chart_tools chart_type in
  Forall (fun n => is_Some (ToolExecutor.get_tool (registered_tools impl) n))
    names
  /\ NoDup names
  /\ common_tools ⊆ names
  /\ length (to_openai_format (registered_tools impl) _chart_tools chart_type)
     = length names
  /\ tool_names (registered_tools impl) _chart_tools (Some UNKNOWN)
     = tool_names (registered_tools impl) _chart_tools None
  /\ (forall n,
        is_Some (ToolExecutor.get_tool (registered_tools impl) n) ->
        exists ct, ct <> UNKNOWN
                   /\ n ∈ list_tools_for_chart (registered_tools impl)
                          _chart_tools ct).
Proof.
  cbv zeta.
  assert (Hreg : Forall (fun n => is_Some (ToolExecutor.get_tool
                                             (registered_tools impl) n))
                   (tool_names (registered_tools impl) _chart_tools
                      chart_type)).
  { assert (Hsub : tool_names (registered_tools impl) _chart_tools chart_type
                     ⊆ fst <$> registered_tools impl).
    { apply (bool_decide_unpack _).
      destruct chart_type as [[]|]; vm_compute; reflexivity. }
    apply Forall_forall. intros n Hn. apply lookup_tool_listed, Hsub, Hn. }
  split; [exact Hreg|]. split; [|split; [|split; [|split]]].
  - apply (bool_decide_unpack _).
    destruct chart_type as [[]|]; vm_compute; reflexivity.
  - apply (bool_decide_unpack _).
    destruct chart_type as [[]|]; vm_compute; reflexivity.
  - unfold to_openai_format. rewrite omap_registered.
    f_equal. apply filter_all. exact Hreg.
  - reflexivity.
  - intros n Hn. apply lookup_tool_listed in Hn.
    change (fst <$> registered_tools impl)
      with (ToolExecutor.list_all_tools (registered_tools impl)) in Hn.
    rewrite catalog_is_the_seven_dictionaries in Hn.
    repeat (apply elem_of_app in Hn as [Hn|Hn]).
    + exists BAR_CHART. split; [discriminate|]. apply elem_of_app. right.
      exact Hn.
    + exists BAR_CHART. split; [discriminate|]. apply elem_of_app. left.
      exact Hn.
    + exists LINE_CHART. split; [discriminate|]. apply elem_of_app. left.
      exact Hn.
    + exists SCATTER_PLOT. split; [discriminate|]. apply elem_of_app. left.
      exact Hn.
    + exists HEATMAP. split; [discriminate|]. apply elem_of_app. left.
      exact Hn.
    + exists PARALLEL_COORDINATES. split; [discriminate|].
      apply elem_of_app. left. exact Hn.
    + exists SANKEY_DIAGRAM. split; [discriminate|]. apply elem_of_app. left.
      exact Hn.
Qed.

End AdapterOnCatalog.

Section AdapterWitnesses.

Import ChartTypes VLMToolAdapter.

(** The schema of [zoom] requires the chart and the area; arguments that
    hold both pass validation. *)
Lemma schema_required_is_validated_witness :
  exists info,
    ToolExecutor.get_tool (registered_tools ToolExecutor.demo_impl) "zoom"
      = Some info
    /\ schema_required (_convert_params_to_json_schema (param_specs info))
       = [VStr "vega_spec"; VStr "area"]
    /\ ToolExecutor.valid
         (ToolExecutor._validate_params info
            {[ "vega_spec" := VDict [];
               "area" := VList [VInt 0; VInt 0; VInt 1; VInt 1] ]}) = true.
Proof.
  eexists. split; [reflexivity|]. split; [reflexivity|].
  apply (proj1 (proj2 (schema_required_is_validated _ _))).
  intros n Hn. change (VStr n ∈ [VStr "vega_spec"; VStr "area"]) in Hn.
  apply elem_of_cons in Hn as [Hn|Hn].
  - injection Hn as ->. eexists. reflexivity.
  - apply list_elem_of_singleton in Hn. injection Hn as ->.
    eexists. reflexivity.
Defined.

(** The tools offered for a bar chart, grouped: the perception tools
    get a heading, and no heading occurs twice. *)
Lemma group_by_category_partitions_witness :
  let tools :=
    to_generic_format (registered_tools ToolExecutor.demo_impl) _chart_tools
      GoalOrientedMode.demo_repr (Some BAR_CHART) in
  NoDup (fst <$> group_by_category tools)
  /\ "perception" ∈ fst <$> group_by_category tools.
Proof.
  intros tools.
  destruct (group_by_category_partitions tools) as (Hnd & Hkeys & _).
  split; [exact Hnd|]. apply Hkeys.
  apply (bool_decide_unpack _). vm_compute. reflexivity.
Defined.

(** [sort_bars] is registered, so some known chart type offers it. *)
Lemma chart_tool_lists_are_registered_witness :
  exists ct,
    ct <> UNKNOWN
    /\ "sort_bars" ∈ list_tools_for_chart
                       (registered_tools ToolExecutor.demo_impl)
                       _chart_tools ct.
Proof.
  destruct (chart_tool_lists_are_registered ToolExecutor.demo_impl None)
    as (_ & _ & _ & _ & _ & Hcover).
  apply Hcover. eexists. reflexivity.
Defined.

End AdapterWitnesses.
(** ** The goal-oriented loop *)

Section GoalLoopFacts.

Import GoalOrientedMode.

Variable MAX : nat.
Variable registry : list (string * tool_info).
Variable vlm_call : nat -> vlm_response.
Variable render : nat -> value -> render_outcome.
Variable time_time : nat -> value.
Variable clock : nat -> string.
Variable py_repr : value -> string.
Variable py_repr_dict : gmap string value -> string.

Abbreviation loop_body :=
  (loop_body registry vlm_call render time_time clock py_repr py_repr_dict).
Abbreviation for_range :=
  (for_range registry vlm_call render time_time clock py_repr py_repr_dict).
Abbreviation run_loop :=
  (run_loop MAX registry vlm_call render time_time clock py_repr
            py_repr_dict).
Abbreviation execute :=
  (execute MAX registry vlm_call render time_time clock py_repr
           py_repr_dict).

(** Case analysis of one pass, following the branches of the body. *)
Ltac body_cases :=
  unfold GoalOrientedMode.loop_body;
  repeat match goal with
         | |- context [match vlm_call ?i with _ => _ end] =>
             destruct (vlm_call i) as [?reply ?decision|?err] eqn:?
         | |- context [if negb (tool_call_loggable ?d) then _ else _] =>
             destruct (tool_call_loggable d) eqn:?; cbn [negb]
         | |- context [if goal_achieved ?d then _ else _] =>
             destruct (goal_achieved d) eqn:?
         | |- context [match read_tool_call ?d with _ => _ end] =>
             destruct (read_tool_call d) as [| |?name ?p] eqn:?
         | |- context [let '(_, _) := ?x in _] =>
             destruct x as [?tool_result ?ex] eqn:?
         | |- context [if get_truthy ?k ?r then _ else _] =>
             destruct (get_truthy k r) eqn:?
         | |- context [match ?r !! "vega_spec" with _ => _ end] =>
             destruct (r !! "vega_spec") as [?new_spec|] eqn:?
         | |- context [match render ?i ?v with _ => _ end] =>
             destruct (render i v) as [?img|?render_error] eqn:?
         end.

(** Every pass that does not raise appends exactly one record, numbered
    one more than the pass. *)
Lemma loop_body_records i s :
  match loop_body i s with
  | Continue s' | Break s' =>
      exists r, records s' = records s ++ [r] /\ iteration_index r = i + 1
  | Raise => True
  end.
Proof. body_cases; cbn [records]; eauto. Qed.

Lemma loop_body_continue i s :
  round_ok vlm_call i -> achieved_at vlm_call i = false ->
  exists s', loop_body i s = Continue s'.
Proof.
  intros (reply & d & Hcall & Hacc) Hgoal.
  unfold achieved_at in Hgoal. rewrite Hcall in Hgoal.
  unfold accepted in Hacc. rewrite Hgoal in Hacc.
  apply andb_true_iff in Hacc as [Hlog Hshape]. cbn [orb] in Hshape.
  unfold GoalOrientedMode.loop_body. rewrite Hcall, Hlog, Hgoal. cbn [negb].
  destruct (read_tool_call d); [| discriminate |]; body_cases; eauto.
Qed.

Lemma loop_body_break i s :
  round_ok vlm_call i -> achieved_at vlm_call i = true ->
  exists s' r, loop_body i s = Break s'
               /\ records s' = records s ++ [r]
               /\ iteration_index r = i + 1
               /\ iteration_success r = true.
Proof.
  intros (reply & d & Hcall & Hacc) Hgoal.
  unfold achieved_at in Hgoal. rewrite Hcall in Hgoal.
  unfold accepted in Hacc. apply andb_true_iff in Hacc as [Hlog _].
  unfold GoalOrientedMode.loop_body. rewrite Hcall, Hlog, Hgoal. cbn [negb].
  eexists _, _. split; [reflexivity|]. cbn [records]. eauto.
Qed.

(** A loop whose next [n] passes are accepted and do not achieve the
    goal runs them all. *)
Lemma for_range_exhausts n : forall i s,
  (forall j, i <= j < i + n ->
             round_ok vlm_call j /\ achieved_at vlm_call j = false) ->
  exists s' produced,
    for_range i n s = Some s'
    /\ records s' = records s ++ produced
    /\ iteration_index <$> produced = seq (i + 1) n.
Proof.
  induction n as [|n IH]; intros i s Hall; cbn [GoalOrientedMode.for_range].
  - exists s, []. by rewrite app_nil_r.
  - destruct (Hall i ltac:(lia)) as [Hok Hno].
    destruct (loop_body_continue i s Hok Hno) as [s1 Hs1].
    pose proof (loop_body_records i s) as Hrec. rewrite Hs1 in *.
    destruct Hrec as (r & Hr & Hidx).
    destruct (IH (S i) s1) as (s' & produced & Hrun & Hrecs & Hseq).
    { intros j Hj. apply Hall. lia. }
    exists s', (r :: produced). split; [done|]. split.
    + rewrite Hrecs, Hr, <- app_assoc. done.
    + cbn [fmap list_fmap seq]. rewrite Hidx. f_equal.
      replace (S (i + 1)) with (S i + 1) by lia. exact Hseq.
Qed.

(** A loop whose pass [i + m] is the first to achieve the goal stops
    there. *)
Lemma for_range_stops m : forall n i s,
  m < n ->
  (forall j, i <= j < i + m ->
             round_ok vlm_call j /\ achieved_at vlm_call j = false) ->
  round_ok vlm_call (i + m) ->
  achieved_at vlm_call (i + m) = true ->
  exists s' produced r,
    for_range i n s = Some s'
    /\ records s' = records s ++ produced
    /\ iteration_index <$> produced = seq (i + 1) (m + 1)
    /\ last produced = Some r
    /\ iteration_index r = i + m + 1
    /\ iteration_success r = true.
Proof.
  induction m as [|m IH]; intros n i s Hlt Hbefore Hok Hgoal;
    (destruct n as [|n]; [lia|]); cbn [GoalOrientedMode.for_range].
  - rewrite Nat.add_0_r in *.
    destruct (loop_body_break i s Hok Hgoal) as (s' & r & -> & Hr & Hi & Hs).
    exists s', [r], r. repeat split; try done; try lia.
    cbn. by rewrite Hi.
  - destruct (Hbefore i ltac:(lia)) as [Hok0 Hno0].
    destruct (loop_body_continue i s Hok0 Hno0) as [s1 Hs1].
    pose proof (loop_body_records i s) as Hrec. rewrite Hs1 in *.
    destruct Hrec as (r0 & Hr0 & Hidx0).
    destruct (IH n (S i) s1) as (s' & produced & r & Hrun & Hrecs & Hseq & Hlast & Hi & Hs).
    { lia. }
    { intros j Hj. apply Hbefore. lia. }
    { by replace (S i + m) with (i + S m) by lia. }
    { by replace (S i + m) with (i + S m) by lia. }
    exists s', (r0 :: produced), r. split; [done|]. split; [|split; [|split; [|split]]].
    + rewrite Hrecs, Hr0, <- app_assoc. done.
    + cbn [fmap list_fmap]. rewrite Hidx0.
      replace (S m + 1) with (S (m + 1)) by lia. cbn [seq]. f_equal.
      replace (S (i + 1)) with (S i + 1) by lia. exact Hseq.
    + destruct produced; [discriminate|]. exact Hlast.
    + lia.
    + done.
Qed.

Lemma execute_of_run_loop user_query spec img chart ctx ex s :
  run_loop user_query spec img ctx ex = Some s ->
  exists ctx',
    execute user_query spec img chart ctx ex
      = Some ({| success := true; mode := "goal_oriented";
                 iterations := records s;
                 final_spec := current_spec s;
                 final_image := current_image s |},
              ctx', tool_executor s)
    /\ (forall c, ctx = Some c ->
          ctx' = Some {| goal_oriented_messages := Some (messages s);
                         goal_oriented_iterations := Some (records s) |}).
Proof.
  intros Hrun. unfold GoalOrientedMode.execute. rewrite Hrun.
  eexists. split; [reflexivity|]. by intros c ->.
Qed.

(** A decision the engine does not accept makes the pass raise. *)
Lemma loop_body_raises i s reply decision :
  vlm_call i = VlmOk reply decision -> accepted decision = false ->
  loop_body i s = Raise.
Proof.
  intros Hcall Hacc. unfold GoalOrientedMode.loop_body. rewrite Hcall.
  unfold accepted in Hacc.
  destruct (tool_call_loggable decision); [|reflexivity]. cbn [negb andb] in *.
  destruct (goal_achieved decision); [discriminate|]. cbn [orb] in Hacc.
  destruct (read_tool_call decision); (discriminate || reflexivity).
Qed.

(** A loop whose pass [i + m] is the first with a decision the engine
    does not accept raises there. *)
Lemma for_range_raises m : forall n i s reply decision,
  m < n ->
  (forall j, i <= j < i + m ->
             round_ok vlm_call j /\ achieved_at vlm_call j = false) ->
  vlm_call (i + m) = VlmOk reply decision ->
  accepted decision = false ->
  for_range i n s = None.
Proof.
  induction m as [|m IH]; intros n i s reply decision Hlt Hbefore Hcall Hacc;
    (destruct n as [|n]; [lia|]); cbn [GoalOrientedMode.for_range].
  - rewrite Nat.add_0_r in Hcall.
    by rewrite (loop_body_raises i s reply decision Hcall Hacc).
  - destruct (Hbefore i ltac:(lia)) as [Hok0 Hno0].
    destruct (loop_body_continue i s Hok0 Hno0) as [s1 ->].
    apply (IH n (S i) s1 reply decision); [lia| | |done].
    + intros j Hj. apply Hbefore. lia.
    + by replace (S i + m) with (i + S m) by lia.
Qed.

(** C1 (as amended).  A structured decision is accepted when the loop
    body can process it: what it holds under [tool_call], if truthy, is
    an object, and unless the decision sets [goal_achieved] that object
    holds a hashable [tool] and, if it holds [params], an object under
    it.  When the endpoint answers every round up to round [k]
    successfully with an accepted decision and round [k], with
    [1 <= k <= MAX], is the first to set [goal_achieved], [execute]
    returns, the rounds it ran produced exactly [k] iteration records,
    numbered [1..k], the last of them the successful record of round
    [k], and the result reports success; started from an empty
    transcript the result holds exactly these [k] records.  When all
    [MAX] rounds are answered that way and none sets [goal_achieved],
    [execute] returns with exactly [MAX] records produced and the
    result still reports success.  When the first round whose decision
    is not accepted comes before any round that sets [goal_achieved],
    an exception leaves [execute] in that round and nothing is
    returned. *)
Theorem goal_loop_iteration_count user_query spec img chart ctx ex :
  (forall k,
      1 <= k <= MAX ->
      (forall i, i < k -> round_ok vlm_call i) ->
      (forall i, i < k - 1 -> achieved_at vlm_call i = false) ->
      achieved_at vlm_call (k - 1) = true ->
      exists res ctx' ex' produced last_record,
        execute user_query spec img chart ctx ex = Some (res, ctx', ex')
        /\ iterations res = starting_records ctx ++ produced
        /\ length produced = k
        /\ iteration_index <$> produced = seq 1 k
        /\ last produced = Some last_record
        /\ iteration_success last_record = true
        /\ (starting_records ctx = [] -> length (iterations res) = k)
        /\ success res = true)
  /\ ((forall i, i < MAX ->
                 round_ok vlm_call i /\ achieved_at vlm_call i = false) ->
      exists res ctx' ex' produced,
        execute user_query spec img chart ctx ex = Some (res, ctx', ex')
        /\ iterations res = starting_records ctx ++ produced
        /\ length produced = MAX
        /\ iteration_index <$> produced = seq 1 MAX
        /\ (starting_records ctx = [] -> length (iterations res) = MAX)
        /\ success res = true)
  /\ (forall k reply decision,
        1 <= k <= MAX ->
        (forall i, i < k - 1 ->
                   round_ok vlm_call i /\ achieved_at vlm_call i = false) ->
        vlm_call (k - 1) = VlmOk reply decision ->
        accepted decision = false ->
        execute user_query spec img chart ctx ex = None).
Proof.
  split; [|split].
  - intros k Hk Hok Hbefore Hgoal.
    edestruct (for_range_stops (k - 1) MAX 0) as
      (s & produced & r & Hrun & Hrecs & Hseq & Hlast & _ & Hsucc).
    { lia. }
    { intros j Hj. split; [apply Hok | apply Hbefore]; lia. }
    { apply Hok. lia. }
    { exact Hgoal. }
    replace (k - 1 + 1) with k in Hseq by lia. cbn [Nat.add] in Hseq.
    destruct (execute_of_run_loop user_query spec img chart ctx ex s Hrun)
      as (ctx' & -> & _).
    assert (Hlen : length produced = k).
    { rewrite <- (length_fmap iteration_index), Hseq. apply length_seq. }
    eexists _, _, _, produced, r. split; [reflexivity|].
    cbn [iterations success]. cbn [records] in Hrecs.
    repeat split; try done.
    intros Hfresh. by rewrite Hrecs, Hfresh.
  - intros Hall.
    edestruct (for_range_exhausts MAX 0) as (s & produced & Hrun & Hrecs & Hseq).
    { intros j Hj. apply Hall. lia. }
    cbn [Nat.add] in Hseq.
    destruct (execute_of_run_loop user_query spec img chart ctx ex s Hrun)
      as (ctx' & -> & _).
    assert (Hlen : length produced = MAX).
    { rewrite <- (length_fmap iteration_index), Hseq. apply length_seq. }
    eexists _, _, _, produced. split; [reflexivity|].
    cbn [iterations success]. cbn [records] in Hrecs.
    repeat split; try done.
    intros Hfresh. by rewrite Hrecs, Hfresh.
  - intros k reply decision Hk Hbefore Hcall Hacc.
    unfold GoalOrientedMode.execute, GoalOrientedMode.run_loop.
    rewrite (for_range_raises (k - 1) MAX 0 _ reply decision);
      [reflexivity|lia| |exact Hcall|exact Hacc].
    intros j Hj. apply Hbefore. lia.
Qed.

(** What a pass does when the tool returned a new chart and the
    renderer then failed: the failure is reported in a user turn, the
    record is marked unsuccessful and the image is kept, but the loop's
    chart is already the tool's. *)
Lemma render_failure_round i s reply decision name p tool_result ex new_spec err :
  vlm_call i = VlmOk reply decision ->
  tool_call_loggable decision = true ->
  goal_achieved decision = false ->
  read_tool_call decision = ToolCall name p ->
  dispatch registry clock py_repr i (tool_executor s) name
    (<["vega_spec" := current_spec s]> (list_to_map p)) = (tool_result, ex) ->
  get_truthy "success" tool_result = true ->
  tool_result !! "vega_spec" = Some new_spec ->
  render i new_spec = RenderFailed err ->
  exists s' record,
    loop_body i s = Continue s'
    /\ messages s' = messages s
         ++ [assistant_message reply;
             render_failure_feedback (str_ py_repr name) err (current_image s)]
    /\ records s' = records s ++ [record]
    /\ iteration_success record = false
    /\ current_image s' = current_image s
    /\ current_spec s' = new_spec.
Proof.
  intros Hcall Hlog Hgoal Hshape Hdisp Hok Hspec Hrender.
  unfold GoalOrientedMode.loop_body.
  rewrite Hcall, Hlog, Hgoal, Hshape. cbn [negb].
  rewrite Hdisp, Hok, Hspec, Hrender.
  eexists _, _. split; [reflexivity|]. cbn.
  rewrite <- app_assoc. repeat split; reflexivity.
Qed.

Lemma engine_feedback_user m : engine_feedback m -> msg_role m = user.
Proof. intros (? & ? & ? & [-> | [-> | [-> | ->]]]); reflexivity. Qed.

(** The turns of one pass. *)
Lemma loop_body_turns i s :
  match loop_body i s with
  | Continue s' =>
      exists turns, messages s' = messages s ++ turns
                    /\ round_turns vlm_call i true turns
  | Break s' =>
      exists turns, messages s' = messages s ++ turns
                    /\ round_turns vlm_call i false turns
  | Raise => True
  end.
Proof.
  body_cases; try exact I; cbn [messages];
    try (exists []; split; [by rewrite app_nil_r | by econstructor]);
    try (eexists [_]; split; [reflexivity | by econstructor]);
    rewrite <- app_assoc; (eexists [_; _]; split; [reflexivity|]);
    (eapply turns_dispatched; [done..|]);
    eexists _, _, _; eauto.
Qed.

Lemma for_range_turns n : forall i s s',
  for_range i n s = Some s' ->
  exists tail, messages s' = messages s ++ tail
               /\ run_turns vlm_call i n tail.
Proof.
  induction n as [|n IH]; intros i s s'; cbn [GoalOrientedMode.for_range].
  - intros [= <-]. exists []. split; [by rewrite app_nil_r | constructor].
  - pose proof (loop_body_turns i s) as Hstep.
    destruct (loop_body i s) as [s1|s1|]; [| |discriminate].
    + destruct Hstep as (turns & Hm & Ht). intros Hrun.
      destruct (IH _ _ _ Hrun) as (rest & Hm' & Hr).
      exists (turns ++ rest). split; [by rewrite Hm', Hm, app_assoc|].
      by apply run_continue.
    + destruct Hstep as (turns & Hm & Ht). intros [= <-].
      exists turns. split; [done | by apply run_break].
Qed.

Lemma round_turns_assistant i b turns m :
  round_turns vlm_call i b turns -> m ∈ turns -> msg_role m = assistant ->
  exists reply decision,
    vlm_call i = VlmOk reply decision /\ m = assistant_message reply.
Proof.
  intros Ht Hin Hrole. destruct Ht as [err H|r d H Hg|r d H Hg Hs|r d nm p fb H Hg Hs Hfb].
  - by apply elem_of_nil in Hin.
  - apply list_elem_of_singleton in Hin as ->. eauto.
  - apply list_elem_of_singleton in Hin as ->. eauto.
  - apply elem_of_cons in Hin as [-> | Hin]; [eauto|].
    apply list_elem_of_singleton in Hin as ->.
    apply engine_feedback_user in Hfb. congruence.
Qed.

Lemma run_turns_assistant i n tail :
  run_turns vlm_call i n tail ->
  forall m, m ∈ tail -> msg_role m = assistant ->
  exists j reply decision,
    i <= j < i + n /\ vlm_call j = VlmOk reply decision
    /\ m = assistant_message reply.
Proof.
  induction 1 as [i|i n turns Ht|i n turns rest Ht Hr IH]; intros m Hin Hrole.
  - by apply elem_of_nil in Hin.
  - destruct (round_turns_assistant _ _ _ _ Ht Hin Hrole) as (r & d & ? & ?).
    exists i, r, d. split; [lia | done].
  - apply elem_of_app in Hin as [Hin|Hin].
    + destruct (round_turns_assistant _ _ _ _ Ht Hin Hrole) as (r & d & ? & ?).
      exists i, r, d. split; [lia | done].
    + destruct (IH m Hin Hrole) as (j & r & d & ? & ? & ?).
      exists j, r, d. split; [lia | done].
Qed.

(** A user turn of one pass is the engine's and comes second. *)
Lemma round_turns_user i b turns j m :
  round_turns vlm_call i b turns -> turns !! j = Some m -> msg_role m = user ->
  engine_feedback m
  /\ exists reply, j = 1 /\ turns !! 0 = Some (assistant_message reply).
Proof.
  intros Ht Hj Hrole. destruct Ht as [err H|r d H Hg|r d H Hg Hs|r d nm p fb H Hg Hs Hfb].
  - discriminate.
  - destruct j; [|discriminate]. injection Hj as <-. discriminate.
  - destruct j; [|discriminate]. injection Hj as <-. discriminate.
  - destruct j as [|[|j]]; [| |discriminate].
    + injection Hj as <-. discriminate.
    + injection Hj as <-. eauto.
Qed.

Lemma run_turns_user i n tail :
  run_turns vlm_call i n tail ->
  forall j m, tail !! j = Some m -> msg_role m = user ->
  engine_feedback m
  /\ exists j' reply, j = S j' /\ tail !! j' = Some (assistant_message reply).
Proof.
  induction 1 as [i|i n turns Ht|i n turns rest Ht Hr IH]; intros j m Hj Hrole.
  - discriminate.
  - destruct (round_turns_user _ _ _ _ _ Ht Hj Hrole) as (Hfb & r & -> & H0).
    split; [done|]. by exists 0, r.
  - destruct (decide (j < length turns)) as [Hlt|Hge].
    + rewrite lookup_app_l in Hj by done.
      destruct (round_turns_user _ _ _ _ _ Ht Hj Hrole) as (Hfb & r & -> & H0).
      split; [done|]. exists 0, r. split; [done|].
      rewrite lookup_app_l; [done|]. apply lookup_lt_Some in H0. lia.
    + rewrite lookup_app_r in Hj by lia.
      destruct (IH _ _ Hj Hrole) as (Hfb & j' & r & Heq & Hj').
      split; [done|]. exists (length turns + j'), r. split; [lia|].
      rewrite lookup_app_r by lia.
      by replace (length turns + j' - length turns) with j' by lia.
Qed.

Lemma alternates_cons a b l :
  alternates (a :: b :: l)
  = negb (role_eqb (msg_role a) (msg_role b)) && alternates (b :: l).
Proof. reflexivity. Qed.

Lemma run_turns_alternates i n tail :
  (forall j reply decision,
      i <= j < i + n ->
      vlm_call j = VlmOk reply decision ->
      goal_achieved decision = false ->
      read_tool_call decision <> NoToolCall) ->
  run_turns vlm_call i n tail ->
  forall u, msg_role u = user -> alternates (u :: tail) = true.
Proof.
  intros Hcalls Hrun. revert Hcalls.
  induction Hrun as [i|i n turns Ht|i n turns rest Ht Hr IH]; intros Hcalls u Hu.
  - reflexivity.
  - inversion Ht; subst; cbn; rewrite ?Hu; reflexivity.
  - inversion Ht as [| |r d H Hg Hs|r d nm p fb H Hg Hs Hfb]; subst.
    + exfalso. eapply (Hcalls i); eauto. lia.
    + pose proof (engine_feedback_user _ Hfb) as Hfbu.
      assert (Hrest : alternates (fb :: rest) = true).
      { apply IH; [|done]. intros j ? ? Hj. apply Hcalls. lia. }
      clear IH. cbn [app]. rewrite !alternates_cons, Hrest, Hu, Hfbu.
      reflexivity.
Qed.

(** C3 (as amended).  For every execution of the goal-oriented mode that
    returns, the transcript is the one it started from followed by the
    turns of its rounds.  Every assistant turn among them is the
    verbatim reply of one of the rounds.  Every user turn among them is
    one of the engine's feedback turns and directly follows an
    assistant turn, so no two user turns are neighbours.  When each
    decision that does not declare the goal achieved carries a tool
    call, an execution started from an empty transcript leaves a
    strictly alternating transcript. *)
Theorem transcript_discipline user_query spec img ctx ex s :
  run_loop user_query spec img ctx ex = Some s ->
  exists tail,
    messages s = starting_messages user_query img ctx ++ tail
    /\ (forall m, m ∈ tail -> msg_role m = assistant ->
          exists i reply decision,
            i < MAX /\ vlm_call i = VlmOk reply decision
            /\ m = assistant_message reply)
    /\ (forall j m, tail !! j = Some m -> msg_role m = user ->
          engine_feedback m
          /\ exists j' reply,
               j = S j' /\ tail !! j' = Some (assistant_message reply))
    /\ ((forall i reply decision,
           i < MAX ->
           vlm_call i = VlmOk reply decision ->
           goal_achieved decision = false ->
           read_tool_call decision <> NoToolCall) ->
        starting_messages user_query img ctx
          = [initial_message user_query img] ->
        alternates (messages s) = true).
Proof.
  intros Hrun. unfold GoalOrientedMode.run_loop in Hrun.
  destruct (for_range_turns _ _ _ _ Hrun) as (tail & Hm & Ht).
  cbn [messages] in Hm. exists tail. split; [done|]. split; [|split].
  - intros m Hin Hrole.
    destruct (run_turns_assistant _ _ _ Ht m Hin Hrole) as (j & r & d & ? & ? & ?).
    exists j, r, d. split; [lia | done].
  - apply (run_turns_user _ _ _ Ht).
  - intros Hcalls Hstart. rewrite Hm, Hstart.
    apply (run_turns_alternates 0 MAX); [|done..].
    intros j r d Hj. apply Hcalls. lia.
Qed.

End GoalLoopFacts.

Section GoalLoopRuns.

Import GoalOrientedMode.

(** The third round is the first to declare the goal achieved: three
    records. *)
Lemma goal_loop_iteration_count_witness :
  exists res ctx' ex' produced last_record,
    demo_execute vlm_two_calls render_ok = Some (res, ctx', ex')
    /\ iterations res = [] ++ produced
    /\ length produced = 3
    /\ iteration_index <$> produced = [1; 2; 3]
    /\ last produced = Some last_record
    /\ iteration_success last_record = true
    /\ (@nil iteration_record = [] -> length (iterations res) = 3)
    /\ success res = true.
Proof.
  refine (proj1 (goal_loop_iteration_count 15 _ vlm_two_calls _ _ _ _ _
                   _ _ _ _ _ _) 3 _ _ _ _).
  - lia.
  - intros i Hi. destruct i as [|[|[|i]]]; [..|lia];
      (eexists _, _; split; reflexivity).
  - intros i Hi. destruct i as [|[|i]]; [..|simpl in Hi; lia]; reflexivity.
  - reflexivity.
Defined.

(** An endpoint that never declares the goal achieved is stopped by the
      cap of fifteen rounds. *)
Example never_done_fills_the_cap :
    (fun out => length (iterations out.1.1))
      <$> demo_execute vlm_never_done render_ok = Some 15.
Proof. vm_compute. reflexivity. Qed.

(** C1 as stated fails: every round is answered successfully with a
    structured decision and the second round is the first to set
    [goal_achieved], yet no record is returned.  The first decision asks
    for a tool under ['name'] instead of ['tool'], the statement
    [tool_call["tool"]] raises outside of any handler and the exception
    leaves [execute].  Likewise when every round is answered that way
    and none sets [goal_achieved]: the engine does not reach the cap of
    fifteen records. *)
Lemma malformed_tool_call_counterexample :
  (forall i, exists reply decision,
      vlm_misnamed_first i = VlmOk reply decision)
  /\ achieved_at vlm_misnamed_first 0 = false
  /\ achieved_at vlm_misnamed_first 1 = true
  /\ demo_execute vlm_misnamed_first render_ok = None
  /\ (forall i, achieved_at vlm_misnamed_always i = false)
  /\ demo_execute vlm_misnamed_always render_ok = None.
Proof.
  split; [intros [|i]; eexists _, _; reflexivity|].
  repeat split; vm_compute; reflexivity.
Qed.

(** C2 fails on the code.  On a bar chart the model calls
    [compare_groups], whose body returns a copy of the chart with a
    colour encoding added, and the renderer fails; the next round
    declares the goal achieved.  Whatever the other tool bodies, the
    clocks and the texts of exceptions are: the failed round is recorded
    as unsuccessful, its user turn reports the render failure and the
    image is the original one, but [final_spec] is the chart the tool
    returned, not the chart the execution started from. *)
Theorem render_failure_advances_spec
    (other_bodies : string -> tool_function)
    (exception_text : string -> gmap string value -> string * string)
    (time_time : nat -> value) (clock : nat -> string)
    (py_repr : value -> string) (py_repr_dict : gmap string value -> string) :
  exists res ctx' ex' first rest call,
    execute 15
      (registered_tools (ToolBodies.tool_bodies other_bodies exception_text))
      ToolBodies.vlm_compare_once render_fails_first time_time clock
      py_repr py_repr_dict "group the bars by region" ToolBodies.bar_spec
      demo_image "bar_chart"
      (Some {| goal_oriented_messages := None;
               goal_oriented_iterations := None |})
      ToolExecutor.init
    = Some (res, ctx', ex')
    /\ iterations res = first :: rest
    /\ iteration_success first = false
    /\ first = Iteration 1 false (time_time 0)
                 (decision_after_call ToolBodies.bar_spec
                    ToolBodies.decision_compare)
                 "group the bars by region" [demo_image]
                 (summary_of ToolBodies.decision_compare) (Some call)
    /\ te_tool_result call !! "success" = Some (VBool true)
    /\ te_tool_result call !! "vega_spec"
       = Some ToolBodies.bar_spec_by_region
    /\ (ctx' ≫= goal_oriented_messages) ≫= (fun l => l !! 2)
       = Some (render_failure_feedback "compare_groups"
                 "vega-cli execution failed" demo_image)
    /\ final_image res = demo_image
    /\ final_spec res = ToolBodies.bar_spec_by_region
    /\ final_spec res <> ToolBodies.bar_spec.
Proof.
  eexists _, _, _, _, _, _. split; [vm_compute; reflexivity|].
  repeat split; try reflexivity. discriminate.
Qed.

(** C3 as stated fails: two rounds that neither call a tool nor declare
    the goal achieved leave two assistant turns side by side. *)
Lemma adjacent_assistant_turns_counterexample :
  exists res ctx' ex' transcript,
    demo_execute vlm_idle_twice render_ok = Some (res, Some ctx', ex')
    /\ goal_oriented_messages ctx' = Some transcript
    /\ msg_role <$> transcript = [user; assistant; assistant; assistant]
    /\ alternates transcript = false.
Proof.
  eexists _, _, _, _. split; [vm_compute; reflexivity|].
  repeat split; reflexivity.
Qed.

(** A run in which every round before the last calls a tool. *)
Lemma transcript_discipline_witness :
  exists s tail,
    run_loop 15 (registered_tools ToolExecutor.demo_impl) vlm_two_calls
      render_ok demo_time (fun _ => ToolExecutor.demo_clock) demo_repr
      demo_repr_dict "brush the unit square" demo_spec demo_image None
      ToolExecutor.init = Some s
    /\ messages s = [initial_message "brush the unit square" demo_image] ++ tail
    /\ msg_role <$> tail = [assistant; user; assistant; user; assistant]
    /\ alternates (messages s) = true.
Proof.
  eexists. 
  edestruct (transcript_discipline 15 (registered_tools ToolExecutor.demo_impl)
               vlm_two_calls render_ok demo_time
               (fun _ => ToolExecutor.demo_clock) demo_repr demo_repr_dict
               "brush the unit square" demo_spec demo_image None
               ToolExecutor.init) as (tail & Hm & _ & _ & Halt).
  { vm_compute. reflexivity. }
  exists tail. split; [reflexivity|]. split; [exact Hm|].
  split.
  - vm_compute in Hm. injection Hm as <-. reflexivity.
  - apply Halt; [|reflexivity].
    intros i reply decision Hi Hcall Hgoal.
    destruct i as [|[|i]]; cbn in Hcall; injection Hcall as <- <-;
      (discriminate Hgoal || discriminate).
Defined.

End GoalLoopRuns.

(** ** Bounds and frame of the goal-oriented loop *)

Section GoalLoopBounds.

Import GoalOrientedMode.

Variable MAX : nat.
Variable registry : list (string * tool_info).
Variable vlm_call : nat -> vlm_response.
Variable render : nat -> value -> render_outcome.
Variable time_time : nat -> value.
Variable clock : nat -> string.
Variable py_repr : value -> string.
Variable py_repr_dict : gmap string value -> string.

Abbreviation loop_body :=
  (loop_body registry vlm_call render time_time clock py_repr py_repr_dict).
Abbreviation for_range :=
  (for_range registry vlm_call render time_time clock py_repr py_repr_dict).
Abbreviation run_loop :=
  (run_loop MAX registry vlm_call render time_time clock py_repr
            py_repr_dict).
Abbreviation execute :=
  (execute MAX registry vlm_call render time_time clock py_repr
           py_repr_dict).

(** A dispatch calls at most one tool body. *)
Lemma execute_calls_at_most_one now self name args validate :
  let st := (ToolExecutor.execute registry now self name args validate).2 in
  ToolExecutor.bodies_invoked st = ToolExecutor.bodies_invoked self
  \/ exists filled,
       ToolExecutor.bodies_invoked st
       = ToolExecutor.bodies_invoked self ++ [(name, filled)].
Proof.
  cbv zeta.
  destruct (ToolExecutor.get_tool registry name) as [info|] eqn:Hget.
  2:{ rewrite (execute_unknown registry now self name args validate Hget).
      left. reflexivity. }
  destruct (reaches_body_dec registry name info args validate Hget)
    as [Hpass|[-> Hbad]].
  2:{ rewrite (execute_invalid registry now self name info args Hget Hbad).
      left. reflexivity. }
  rewrite (execute_body registry now self name info args validate Hget Hpass).
  cbv zeta. right. eexists.
  destruct (function info (ToolExecutor._fill_default_params info args));
    reflexivity.
Qed.

Lemma dispatch_frame i ex tool_name tool_params tool_result ex' :
  dispatch registry clock py_repr i ex tool_name tool_params
    = (tool_result, ex') ->
  (length (ToolExecutor.bodies_invoked ex')
   <= length (ToolExecutor.bodies_invoked ex) + 1)
  /\ (length (ToolExecutor.execution_history ex) <= 100 ->
      length (ToolExecutor.execution_history ex') <= 100).
Proof.
  unfold dispatch. destruct tool_name as [| | | |name| |];
    try (intros H; injection H as _ <-; split; [lia|auto]).
  intros H.
  pose proof (execute_calls_at_most_one (clock i) ex name tool_params true)
    as Hcalls.
  pose proof (execute_history_bound registry (clock i) ex name tool_params
                true) as Hbound.
  rewrite H in Hcalls, Hbound. cbn [snd] in Hcalls, Hbound. split.
  - destruct Hcalls as [->|[filled ->]]; [lia|].
    rewrite length_app. cbn. lia.
  - exact Hbound.
Qed.

Lemma loop_body_frame i s :
  match loop_body i s with
  | Continue s' => pass_frame render i s s'
  | Break s' =>
      messages s' = messages s \/ exists m, messages s' = messages s ++ [m]
  | Raise => True
  end.
Proof.
  unfold GoalOrientedMode.loop_body.
  destruct (vlm_call i) as [reply decision|err]; [|left; reflexivity].
  destruct (tool_call_loggable decision); cbn [negb]; [|exact I].
  destruct (goal_achieved decision); [right; eexists; reflexivity|].
  destruct (read_tool_call decision) as [| |name p]; [|exact I|].
  { unfold pass_frame. cbn. split; [lia|]. split; [auto|]. left. reflexivity. }
  destruct (dispatch registry clock py_repr i (tool_executor s) name _)
    as [tool_result ex] eqn:Hd.
  apply dispatch_frame in Hd as [Hcalls Hbound].
  destruct (get_truthy "success" tool_result).
  - destruct (tool_result !! "vega_spec") as [new_spec|].
    + destruct (render i new_spec) as [img|render_error] eqn:Hr;
        unfold pass_frame; cbn [tool_executor current_image current_spec];
        (split; [exact Hcalls|]); (split; [exact Hbound|]).
      * right. exact Hr.
      * left. reflexivity.
    + unfold pass_frame. cbn [tool_executor current_image current_spec].
      split; [exact Hcalls|]. split; [exact Hbound|]. left. reflexivity.
  - unfold pass_frame. cbn [tool_executor current_image current_spec].
    split; [exact Hcalls|]. split; [exact Hbound|]. left. reflexivity.
Qed.

(** A pass that ends the loop leaves chart, image and dispatcher alone. *)
Lemma loop_body_break_frame i s s' :
  loop_body i s = Break s' ->
  current_spec s' = current_spec s
  /\ current_image s' = current_image s
  /\ tool_executor s' = tool_executor s.
Proof.
  unfold GoalOrientedMode.loop_body.
  destruct (vlm_call i) as [reply decision|err].
  2:{ intros H. injection H as <-. auto. }
  destruct (tool_call_loggable decision); cbn [negb]; [|discriminate].
  destruct (goal_achieved decision).
  { intros H. injection H as <-. auto. }
  destruct (read_tool_call decision) as [| |name p]; try discriminate.
  destruct (dispatch registry clock py_repr i (tool_executor s) name _)
    as [tool_result ex].
  destruct (get_truthy "success" tool_result); [|discriminate].
  destruct (tool_result !! "vega_spec") as [new_spec|]; [|discriminate].
  destruct (render i new_spec); discriminate.
Qed.

(** The loop as a whole. *)
Lemma for_range_bounds n : forall i s s',
  for_range i n s = Some s' ->
  exists produced,
    records s' = records s ++ produced
    /\ length produced <= n
    /\ (0 < n -> produced <> [])
    /\ iteration_index <$> produced = seq (i + 1) (length produced)
    /\ (length (ToolExecutor.bodies_invoked (tool_executor s'))
        <= length (ToolExecutor.bodies_invoked (tool_executor s))
           + length produced)
    /\ (length (ToolExecutor.execution_history (tool_executor s)) <= 100 ->
        length (ToolExecutor.execution_history (tool_executor s')) <= 100)
    /\ (current_image s' = current_image s
        \/ exists j spec, i <= j < i + n
                          /\ render j spec = Rendered (current_image s')).
Proof.
  induction n as [|n IH]; intros i s s'; cbn [GoalOrientedMode.for_range].
  - intros [= <-]. exists []. rewrite app_nil_r.
    repeat split; auto; lia.
  - pose proof (loop_body_records registry vlm_call render time_time clock
                  py_repr py_repr_dict i s) as Hrec.
    pose proof (loop_body_frame i s) as Hframe.
    destruct (loop_body i s) as [s1|s1|] eqn:Hbody; [| |discriminate].
    + intros Hrun. destruct Hrec as (r & Hr & Hidx).
      destruct Hframe as (Hcalls & Hbound & Himg).
      destruct (IH _ _ _ Hrun)
        as (produced & Hp & Hlen & _ & Hseq & Hcalls' & Hbound' & Himg').
      exists (r :: produced).
      split; [rewrite Hp, Hr, <- app_assoc; reflexivity|].
      split; [cbn; lia|]. split; [discriminate|].
      split; [cbn [fmap list_fmap length seq]; rewrite Hidx; f_equal;
              replace (S (i + 1)) with (S i + 1) by lia; exact Hseq|].
      split; [cbn [length]; lia|]. split; [auto|].
      destruct Himg' as [Hsame|(j & spec & Hj & Hrj)].
      * rewrite Hsame. destruct Himg as [->|Hr1]; [left; reflexivity|].
        right. exists i, (current_spec s1). split; [lia|exact Hr1].
      * right. exists j, spec. split; [lia|exact Hrj].
    + intros [= <-]. destruct Hrec as (r & Hr & Hidx).
      destruct (loop_body_break_frame i s s1 Hbody) as (_ & Himg & Hex).
      exists [r]. split; [exact Hr|]. split; [cbn; lia|].
      split; [discriminate|]. split; [cbn; rewrite Hidx; reflexivity|].
      rewrite Hex. split; [lia|]. split; [auto|]. left. exact Himg.
Qed.

(** X17.  Whatever the endpoint, the tools and the renderer do, an
    execution of the goal-oriented mode that returns reports success and
    has added between one and [MAX] records to those it started from (none
    only when [MAX] is zero), numbered from 1 without gaps.  It has
    called at most one tool body per record, the dispatcher's log is
    still within its bound, and the final image is the one passed in or
    one the renderer returned during this execution.  A context is
    returned exactly when one was passed, and holds the same records as
    the result. *)
Theorem goal_run_bounds user_query spec img chart ctx ex res ctx' ex' :
  execute user_query spec img chart ctx ex = Some (res, ctx', ex') ->
  success res = true
  /\ mode res = "goal_oriented"
  /\ (exists produced,
        iterations res = starting_records ctx ++ produced
        /\ length produced <= MAX
        /\ (0 < MAX -> produced <> [])
        /\ iteration_index <$> produced = seq 1 (length produced)
        /\ length (ToolExecutor.bodies_invoked ex')
           <= length (ToolExecutor.bodies_invoked ex) + length produced)
  /\ (length (ToolExecutor.execution_history ex) <= 100 ->
      length (ToolExecutor.execution_history ex') <= 100)
  /\ (final_image res = img
      \/ exists j spec', j < MAX /\ render j spec' = Rendered (final_image res))
  /\ (ctx' = None <-> ctx = None)
  /\ (forall c', ctx' = Some c' ->
        goal_oriented_iterations c' = Some (iterations res)).
Proof.
  unfold GoalOrientedMode.execute.
  destruct (run_loop user_query spec img ctx ex) as [s|] eqn:Hrun;
    [|discriminate].
  intros H. injection H as <- <- <-.
  unfold GoalOrientedMode.run_loop in Hrun.
  destruct (for_range_bounds _ _ _ _ Hrun)
    as (produced & Hp & Hlen & Hne & Hseq & Hcalls & Hbound & Himg).
  cbn [records tool_executor current_image success mode iterations
       final_image] in *.
  split; [reflexivity|]. split; [reflexivity|]. split.
  { exists produced. auto. }
  split; [exact Hbound|]. split.
  { destruct Himg as [Hsame|(j & spec' & Hj & Hr)]; [left; exact Hsame|].
    right. exists j, spec'. split; [lia|exact Hr]. }
  split.
  - destruct ctx; split; congruence.
  - intros c' Hc'. destruct ctx; [|discriminate]. injection Hc' as <-.
    reflexivity.
Qed.

(** A loop whose pass [i + k] is the first the endpoint fails on: it is
    the loop of [k] passes, with the record of the failure added. *)
Lemma for_range_endpoint_failure k : forall n i s err,
  k < n ->
  (forall j, i <= j < i + k ->
             round_ok vlm_call j /\ achieved_at vlm_call j = false) ->
  vlm_call (i + k) = VlmError err ->
  exists sk,
    for_range i k s = Some sk
    /\ for_range i n s
       = Some {| messages := messages sk;
                 records := records sk
                   ++ [FailedIteration (i + k + 1) err (time_time (i + k))];
                 current_spec := current_spec sk;
                 current_image := current_image sk;
                 tool_executor := tool_executor sk |}.
Proof.
  induction k as [|k IH]; intros n i s err Hlt Hbefore Hfail;
    (destruct n as [|n]; [lia|]); cbn [GoalOrientedMode.for_range].
  - rewrite Nat.add_0_r in *. exists s. split; [reflexivity|].
    unfold GoalOrientedMode.loop_body. rewrite Hfail. reflexivity.
  - destruct (Hbefore i ltac:(lia)) as [Hok Hno].
    destruct (loop_body_continue registry vlm_call render time_time clock
                py_repr py_repr_dict i s Hok Hno) as [s1 Hs1].
    rewrite Hs1.
    destruct (IH n (S i) s1 err) as (sk & Hk & Hn).
    { lia. }
    { intros j Hj. apply Hbefore. lia. }
    { replace (S i + k) with (i + S k) by lia. exact Hfail. }
    exists sk. split; [exact Hk|].
    rewrite Hn. replace (S i + k) with (i + S k) by lia. reflexivity.
Qed.

(** X18.  When the endpoint fails in pass [k + 1], after [k] passes
    that went on, the execution stops there and still reports success:
    its outcome is that of a loop capped at [k] passes, with one record
    of the failure added, so the failed pass adds no turn and leaves
    chart, image and dispatcher as pass [k] left them. *)
Theorem endpoint_failure_ends_run k err user_query spec img chart ctx ex :
  k < MAX ->
  (forall j, j < k -> round_ok vlm_call j /\ achieved_at vlm_call j = false) ->
  vlm_call k = VlmError err ->
  exists res ctx' sk,
    execute user_query spec img chart ctx ex
      = Some (res, ctx', tool_executor sk)
    /\ GoalOrientedMode.run_loop k registry vlm_call render time_time clock
         py_repr py_repr_dict user_query spec img ctx ex = Some sk
    /\ success res = true
    /\ iterations res
       = records sk ++ [FailedIteration (k + 1) err (time_time k)]
    /\ length (iterations res) = length (starting_records ctx) + k + 1
    /\ final_spec res = current_spec sk
    /\ final_image res = current_image sk
    /\ (forall c', ctx' = Some c' ->
          goal_oriented_messages c' = Some (messages sk)).
Proof.
  intros Hlt Hbefore Hfail.
  destruct (for_range_endpoint_failure k MAX 0
              {| messages := starting_messages user_query img ctx;
                 records := starting_records ctx;
                 current_spec := spec; current_image := img;
                 tool_executor := ex |} err Hlt)
    as (sk & Hk & Hn).
  { intros j Hj. apply Hbefore. lia. }
  { exact Hfail. }
  destruct (for_range_exhausts registry vlm_call render time_time clock
              py_repr py_repr_dict k 0
              {| messages := starting_messages user_query img ctx;
                 records := starting_records ctx;
                 current_spec := spec; current_image := img;
                 tool_executor := ex |})
    as (sk' & produced & Hk' & Hrecs & Hseq).
  { intros j Hj. apply Hbefore. lia. }
  rewrite Hk in Hk'. injection Hk' as <-.
  unfold GoalOrientedMode.execute, GoalOrientedMode.run_loop.
  rewrite Hn. cbn [Nat.add] in *.
  eexists _, _, sk. split; [reflexivity|]. split; [exact Hk|].
  cbn [success iterations final_spec final_image records].
  split; [reflexivity|]. split; [reflexivity|]. split.
  { rewrite Hrecs, !length_app. cbn [records length].
    apply (f_equal length) in Hseq. rewrite length_fmap, length_seq in Hseq.
    lia. }
  split; [reflexivity|]. split; [reflexivity|].
  intros c' Hc'. destruct ctx; [|discriminate]. injection Hc' as <-.
  reflexivity.
Qed.

Lemma for_range_messages_nonempty n : forall i s s',
  for_range i n s = Some s' -> messages s <> [] -> messages s' <> [].
Proof.
  intros i s s' Hrun Hne.
  destruct (for_range_turns registry vlm_call render time_time clock
              py_repr py_repr_dict n i s s' Hrun) as (tail & -> & _).
  intros Heq. apply app_eq_nil in Heq as [? _]. contradiction.
Qed.

(** X19.  The wording of the query reaches the endpoint only through
    the first turn of a new transcript.  When the context passed in
    already holds a transcript, the execution does not depend on the
    query at all; and since every execution on a context stores a
    non-empty transcript in the context it returns, this is the case of
    every call on a context after the first. *)
Theorem resumed_run_ignores_query spec img chart ctx ex :
  (forall m rest user_query other_query,
      goal_oriented_messages ctx = Some (m :: rest) ->
      execute user_query spec img chart (Some ctx) ex
      = execute other_query spec img chart (Some ctx) ex)
  /\ (forall user_query res ctx' ex',
        execute user_query spec img chart (Some ctx) ex
          = Some (res, ctx', ex') ->
        exists c' m rest,
          ctx' = Some c' /\ goal_oriented_messages c' = Some (m :: rest)).
Proof.
  split.
  - intros m rest q q' Hm.
    unfold GoalOrientedMode.execute, GoalOrientedMode.run_loop,
      starting_messages.
    rewrite Hm. reflexivity.
  - intros q res ctx' ex'. unfold GoalOrientedMode.execute.
    destruct (run_loop q spec img (Some ctx) ex) as [s|] eqn:Hrun;
      [|discriminate].
    intros H. injection H as _ <- _.
    unfold GoalOrientedMode.run_loop in Hrun.
    apply for_range_messages_nonempty in Hrun.
    + destruct (messages s) as [|m rest] eqn:Hms; [contradiction|].
      eexists _, m, rest. split; reflexivity.
    + cbn [messages]. unfold starting_messages.
      destruct (default [] (goal_oriented_messages ctx)); discriminate.
Qed.

End GoalLoopBounds.

Section GoalLoopBoundRuns.

Import GoalOrientedMode.

(** An endpoint that never declares the goal achieved: fifteen records
    at most, and no more tool calls than records. *)
Lemma goal_run_bounds_witness :
  exists res ctx' ex' produced,
    demo_execute vlm_never_done render_ok = Some (res, ctx', ex')
    /\ iterations res = produced
    /\ length produced <= 15
    /\ iteration_index <$> produced = seq 1 (length produced)
    /\ length (ToolExecutor.bodies_invoked ex') <= length produced.
Proof.
  assert (Hsome : (fun _ => tt) <$> demo_execute vlm_never_done render_ok
                  = Some tt) by (vm_compute; reflexivity).
  destruct (demo_execute vlm_never_done render_ok)
    as [[[res ctx'] ex']|] eqn:Hrun; [clear Hsome|discriminate Hsome].
  unfold demo_execute in Hrun.
  destruct (goal_run_bounds 15 (registered_tools ToolExecutor.demo_impl)
              vlm_never_done render_ok demo_time
              (fun _ => ToolExecutor.demo_clock) demo_repr demo_repr_dict
              "brush the unit square" demo_spec demo_image "scatter_plot"
              (Some {| goal_oriented_messages := None;
                       goal_oriented_iterations := None |})
              ToolExecutor.init res ctx' ex' Hrun)
    as (_ & _ & (produced & Hp & Hlen & _ & Hseq & Hcalls) & _).
  exists res, ctx', ex', produced.
  split; [reflexivity|]. split; [exact Hp|]. split; [exact Hlen|].
  split; [exact Hseq | exact Hcalls].
Defined.

(** The endpoint fails in the second pass: two records, and success all
    the same. *)
Lemma endpoint_failure_ends_run_witness :
  exists res ctx' ex',
    demo_execute vlm_fails_second render_ok = Some (res, ctx', ex')
    /\ success res = true
    /\ length (iterations res) = 2
    /\ last (iterations res)
       = Some (FailedIteration 2 "endpoint unreachable" (demo_time 1)).
Proof.
  destruct (endpoint_failure_ends_run 15
              (registered_tools ToolExecutor.demo_impl)
              vlm_fails_second render_ok demo_time
              (fun _ => ToolExecutor.demo_clock) demo_repr demo_repr_dict
              1 "endpoint unreachable" "brush the unit square" demo_spec
              demo_image "scatter_plot"
              (Some {| goal_oriented_messages := None;
                       goal_oriented_iterations := None |})
              ToolExecutor.init)
    as (res & ctx' & sk & Hrun & _ & Hok & Hrecs & Hlen & _).
  - lia.
  - intros j Hj. destruct j as [|j]; [|lia].
    split; [|reflexivity]. eexists _, _. split; reflexivity.
  - reflexivity.
  - exists res, ctx', (tool_executor sk). split; [exact Hrun|].
    split; [exact Hok|]. split; [exact Hlen|].
    rewrite Hrecs. apply last_snoc.
Defined.

(** Two different queries on a context that holds a transcript. *)
Lemma resumed_run_ignores_query_witness :
  execute 15 (registered_tools ToolExecutor.demo_impl) vlm_one_call render_ok
    demo_time (fun _ => ToolExecutor.demo_clock) demo_repr demo_repr_dict
    "sort the bars" demo_spec demo_image "scatter_plot"
    (Some demo_resumed_context) ToolExecutor.init
  = execute 15 (registered_tools ToolExecutor.demo_impl) vlm_one_call
      render_ok demo_time (fun _ => ToolExecutor.demo_clock) demo_repr
      demo_repr_dict "zoom in on the largest cluster" demo_spec demo_image
      "scatter_plot" (Some demo_resumed_context) ToolExecutor.init.
Proof.
  eapply (proj1 (resumed_run_ignores_query 15 _ _ _ _ _ _ _ _ _ _ _ _)).
  reflexivity.
Defined.

End GoalLoopBoundRuns.

(** ** The transcript of the direct mode *)

Section ChitchatTranscript.

Import GoalOrientedMode.

Variable vlm_call : list message -> vlm_response.

Lemma alternates_answered l u a :
  alternates l = true ->
  (forall m, last l = Some m -> msg_role m = assistant) ->
  msg_role u = user -> msg_role a = assistant ->
  alternates (l ++ [u; a]) = true.
Proof.
  intros Halt Hlast Hu Ha. induction l as [|m1 [|m2 rest] IH].
  - cbn. rewrite Hu, Ha. reflexivity.
  - cbn. rewrite (Hlast m1 eq_refl), Hu, Ha. reflexivity.
  - change ((m1 :: m2 :: rest) ++ [u; a])
      with (m1 :: (m2 :: rest) ++ [u; a]).
    change ((m2 :: rest) ++ [u; a]) with (m2 :: rest ++ [u; a]) at 1.
    rewrite alternates_cons in Halt |- *.
    apply andb_true_iff in Halt as [-> Halt]. cbn [andb].
    apply IH; [exact Halt|]. intros m Hm. apply Hlast. exact Hm.
Qed.

Lemma alternates_unanswered l u1 u2 :
  msg_role u1 = user -> msg_role u2 = user ->
  alternates (l ++ [u1; u2]) = false.
Proof.
  intros H1 H2. induction l as [|m1 [|m2 rest] IH].
  - cbn. rewrite H1, H2. reflexivity.
  - cbn. rewrite H1, H2. cbn. apply andb_false_r.
  - change ((m1 :: m2 :: rest) ++ [u1; u2])
      with (m1 :: m2 :: rest ++ [u1; u2]).
    rewrite alternates_cons.
    change (m2 :: rest ++ [u1; u2]) with ((m2 :: rest) ++ [u1; u2]).
    rewrite IH. apply andb_false_r.
Qed.

(** X20.  The direct mode asks the endpoint once, about the stored
    transcript followed by one user turn that carries the query.  An
    answer is stored after that turn, so a transcript whose turns
    alternate and whose last turn is an answer stays such and grows by
    two.  A failure on a stored transcript leaves the unanswered user
    turn in it, so that the next call sends two user turns in a row; on
    a session without a transcript a failure stores nothing. *)
Theorem chitchat_transcript_turns user_query image_base64 stored :
  let out := ChitchatMode.execute vlm_call user_query image_base64 stored in
  exists turn,
    msg_role turn = user
    /\ text user_query ∈ content turn
    /\ match vlm_call (default [] stored ++ [turn]) with
       | VlmOk reply _ =>
           out = (ChitchatMode.Answered reply reply,
                  Some (default [] stored ++ [turn; assistant_message reply]))
           /\ (alternates (default [] stored) = true ->
               (forall m, last (default [] stored) = Some m ->
                          msg_role m = assistant) ->
               alternates (default [] stored
                             ++ [turn; assistant_message reply]) = true)
       | VlmError error =>
           out = (ChitchatMode.Failed error,
                  match stored with
                  | Some l => Some (l ++ [turn])
                  | None => None
                  end)
           /\ forall l next,
                stored = Some l -> msg_role next = user ->
                alternates ((l ++ [turn]) ++ [next]) = false
       end.
Proof.
  cbv zeta. unfold ChitchatMode.execute.
  set (turn := if negb (String.eqb image_base64 "") then _ else _).
  assert (Hrole : msg_role turn = user).
  { subst turn. destruct (negb (String.eqb image_base64 "")); reflexivity. }
  assert (Htext : text user_query ∈ content turn).
  { subst turn. destruct (negb (String.eqb image_base64 "")); cbn; left. }
  exists turn. split; [exact Hrole|]. split; [exact Htext|].
  destruct (vlm_call (default [] stored ++ [turn])) as [reply parsed|error].
  - split.
    + rewrite <- app_assoc. reflexivity.
    + intros Halt Hlast. apply alternates_answered; auto.
  - split; [destruct stored; reflexivity|].
    intros l next _ Hnext. rewrite <- app_assoc.
    apply alternates_unanswered; assumption.
Qed.

End ChitchatTranscript.

Section ChitchatRuns.

Import GoalOrientedMode.

(** A greeting on a fresh session, answered. *)
Lemma chitchat_transcript_turns_witness :
  exists transcript,
    (ChitchatMode.execute (fun _ => VlmOk "hello" []) "hi" "" None).2
      = Some transcript
    /\ msg_role <$> transcript = [user; assistant]
    /\ alternates transcript = true.
Proof.
  destruct (chitchat_transcript_turns (fun _ => VlmOk "hello" []) "hi" ""
              None) as (turn & Hrole & _ & Hout & Halt).
  eexists. split; [rewrite Hout; reflexivity|]. split.
  - cbn. rewrite Hrole. reflexivity.
  - apply Halt; [reflexivity|]. intros m Hm. discriminate Hm.
Defined.

End ChitchatRuns.
(** ** Intent classification and routing *)

Section SessionFacts.

Import SessionManager.

Variable call_with_image : string -> string -> vlm_response.
Variable get_intent_recognition_prompt : string -> string -> string.
Variable chitchat_vlm : list message -> vlm_response.
Variable goal_execute :
  string -> value -> string -> string -> option GoalOrientedMode.context ->
  ToolExecutor.t ->
  option (GoalOrientedMode.result * option GoalOrientedMode.context
          * ToolExecutor.t).
Variable explore_execute :
  string -> value -> string -> string -> session ->
  option (gmap string value * session).
Variable time_time : nat -> value.

Abbreviation recognize :=
  (_recognize_intent call_with_image get_intent_recognition_prompt).
Abbreviation process :=
  (process_query call_with_image get_intent_recognition_prompt chitchat_vlm
     goal_execute explore_execute time_time).

(** The classifier is its keyword rules first, the endpoint second. *)
Lemma recognize_intent_lexical user_query img chart :
  recognize user_query img chart
  = match lexical_intent user_query with
    | Some it => (it, [])
    | None =>
        let prompt := get_intent_recognition_prompt user_query chart in
        match call_with_image prompt img with
        | VlmOk _ parsed =>
            (intent_of_label
               (default (VStr "unknown") (dget "intent_type" parsed)),
             [(prompt, img)])
        | VlmError _ => (UNKNOWN, [(prompt, img)])
        end
    end.
Proof.
  unfold _recognize_intent, lexical_intent. cbv zeta.
  repeat match goal with
         | |- context [if ?b then _ else _] => destruct b
         end; reflexivity.
Qed.

(** C9.  The query [你好] has two characters, fewer than the threshold of
    ten, and holds a greeting; the query [筛选出销量前十的商品] has ten
    characters and holds the action word [筛选].  Whatever the endpoint
    would answer, the first is classified as chitchat and the second as
    an explicit goal, and no request is sent to the endpoint. *)
Theorem lexical_intents_skip_endpoint img chart :
  let hello := "你好" in
  let top_ten := "筛选出销量前十的商品" in
  length (query_lower hello) = 2
  /\ PyStr.any_in greetings (query_lower hello) = true
  /\ recognize hello img chart = (CHITCHAT, [])
  /\ length (query_lower top_ten) = 10
  /\ PyStr.any_in explicit_actions (query_lower top_ten) = true
  /\ recognize top_ten img chart = (EXPLICIT_ANALYSIS, []).
Proof.
  cbv zeta. rewrite !recognize_intent_lexical.
  repeat split; vm_compute; reflexivity.
Qed.

Lemma lookup_session_update (m : gmap string session) sid s :
  <[sid := s]> m !! sid = Some s.
Proof. apply lookup_insert_eq. Qed.

(** C10.  For a query on an existing session, every intent other than
    chitchat and explicit goal is handed to the exploration engine: the
    query's result is that engine's result and the session stored is the
    one that engine left, with the history entry added and nothing else
    written.  The unknown intent, which the classifier returns when no
    keyword rule matches and the endpoint fails or names no intent, has
    no handler of its own and takes that route.  The chitchat branch
    leaves chart and image of the session as they were; the explicit-goal
    branch alone stores the engine's [final_spec] and [final_image] in
    the session. *)
Theorem intent_routing self sid user_query s :
  sessions self !! sid = Some s ->
  let s0 := set_last_activity (time_time 0) s in
  let it := (recognize user_query (current_image s0) (chart_type s0)).1 in
  let entry r := {| query := user_query; intent := intent_value it;
                    result := r; timestamp := time_time 1 |} in
  (it <> CHITCHAT -> it <> EXPLICIT_ANALYSIS ->
     process self sid user_query
     = match explore_execute user_query (vega_spec s0) (current_image s0)
               (chart_type s0) s0 with
       | None => None
       | Some (r, s') =>
           Some (ExploreResult r,
                 {| sessions :=
                      <[sid := append_history (entry (ExploreResult r)) s']>
                        (sessions self);
                    tool_executor := tool_executor self |})
       end)
  /\ (lexical_intent user_query = None ->
      match call_with_image
              (get_intent_recognition_prompt user_query (chart_type s0))
              (current_image s0) with
      | VlmError _ => True
      | VlmOk _ parsed =>
          forall label, dget "intent_type" parsed = Some (VStr label) ->
                        label <> "chitchat" /\ label <> "explicit_analysis"
                        /\ label <> "vague_exploration"
      end ->
      it = UNKNOWN)
  /\ (it = CHITCHAT ->
      exists r self' s',
        process self sid user_query = Some (ChitchatResult r, self')
        /\ sessions self' !! sid = Some s'
        /\ vega_spec s' = vega_spec s
        /\ current_image s' = current_image s)
  /\ (it = EXPLICIT_ANALYSIS ->
      forall r c ex',
        goal_execute user_query (vega_spec s0) (current_image s0)
          (chart_type s0) (Some (goal_context s0)) (tool_executor self)
          = Some (r, c, ex') ->
        GoalOrientedMode.success r = true ->
        exists self' s',
          process self sid user_query = Some (GoalResult r, self')
          /\ sessions self' !! sid = Some s'
          /\ vega_spec s' = GoalOrientedMode.final_spec r
          /\ current_image s' = GoalOrientedMode.final_image r).
Proof.
  intros Hs s0 it entry. split; [|split; [|split]].
  - intros Hc He. unfold process_query. rewrite Hs. cbv zeta.
    fold s0. fold it. unfold dispatch_mode.
    destruct it; try congruence;
      destruct (explore_execute _ _ _ _ _) as [[r s']|]; reflexivity.
  - intros Hlex Hresp. subst it.
    rewrite recognize_intent_lexical, Hlex. cbv zeta.
    destruct (call_with_image _ _) as [reply parsed|err]; [|reflexivity].
    cbn [fst]. destruct (dget "intent_type" parsed) as [v|] eqn:Hv;
      [|reflexivity].
    destruct v as [| | | |label| |]; try reflexivity.
    destruct (Hresp label eq_refl) as (H1 & H2 & H3).
    unfold intent_of_label, default. cbn [from_option id].
    destruct (String.eqb_spec label "chitchat"); [done|].
    destruct (String.eqb_spec label "explicit_analysis"); [done|].
    destruct (String.eqb_spec label "vague_exploration"); [done|].
    reflexivity.
  - intros Hit. unfold process_query. rewrite Hs. cbv zeta.
    fold s0. fold it. rewrite Hit. unfold dispatch_mode.
    destruct (ChitchatMode.execute _ _ _ _) as [r msgs].
    eexists _, _, _. split; [reflexivity|].
    split; [apply lookup_session_update|]. split; reflexivity.
  - intros Hit r c ex' Hgoal Hok. unfold process_query. rewrite Hs. cbv zeta.
    fold s0. fold it. rewrite Hit. unfold dispatch_mode.
    rewrite Hgoal, Hok.
    eexists _, _. split; [reflexivity|].
    split; [apply lookup_session_update|]. split; reflexivity.
Qed.

End SessionFacts.

Section SessionRuns.

Import SessionManager.

(** A vague question on the sample session, with the intent endpoint
    down: the unknown intent reaches the exploration engine, whose result
    comes back, and chart and image of the session stay as they were. *)
Lemma intent_routing_witness :
  exists self' s',
    sessions demo_manager !! "s-1" = Some demo_session
    /\ demo_process_query demo_manager "s-1" "有什么规律"
       = Some (ExploreResult
                 {[ "success" := VBool true;
                    "mode" := VStr "autonomous_exploration" ]}, self')
    /\ sessions self' !! "s-1" = Some s'
    /\ intent <$> conversation_history s' = ["unknown"]
    /\ extra s' !! "exploration_messages" = Some (VList [])
    /\ vega_spec s' = vega_spec demo_session
    /\ current_image s' = current_image demo_session.
Proof.
  assert (Hs : sessions demo_manager !! "s-1" = Some demo_session)
    by reflexivity.
  pose proof (intent_routing
                (fun _ _ => VlmError "endpoint unreachable")
                (fun q _ => "classify: " +:+ q)
                (fun _ => VlmOk "hello" [])
                (GoalOrientedMode.execute 15
                   (registered_tools ToolExecutor.demo_impl)
                   GoalOrientedMode.vlm_one_call GoalOrientedMode.render_ok
                   GoalOrientedMode.demo_time
                   (fun _ => ToolExecutor.demo_clock)
                   GoalOrientedMode.demo_repr GoalOrientedMode.demo_repr_dict)
                demo_explore GoalOrientedMode.demo_time
                demo_manager "s-1" "有什么规律" demo_session Hs) as H.
  cbv zeta in H. destruct H as (Hroute & Hunknown & _ & _).
  assert (Hit : (_recognize_intent (fun _ _ => VlmError "endpoint unreachable")
                   (fun q _ => "classify: " +:+ q) "有什么规律"
                   (current_image
                      (set_last_activity (GoalOrientedMode.demo_time 0)
                         demo_session))
                   (chart_type
                      (set_last_activity (GoalOrientedMode.demo_time 0)
                         demo_session))).1 = UNKNOWN).
  { apply Hunknown; [vm_compute; reflexivity | exact I]. }
  rewrite Hit in Hroute.
  specialize (Hroute ltac:(discriminate) ltac:(discriminate)).
  eexists _, _. split; [exact Hs|]. split; [exact Hroute|].
  split; [apply lookup_insert_eq|]. repeat split; reflexivity.
Defined.

End SessionRuns.

(** ** Sessions over a conversation *)

Section IntentNames.

Import SessionManager.

(** X11.  [IntentType.from_string] inverts the members' values and
    answers [UNKNOWN] for everything it does not recognise: a result
    other than [UNKNOWN] means that the text, in lower case and with
    spaces and hyphens read as underscores, is that member's value.  It
    accepts every label the classifier's own matching loop accepts, with
    the same verdict. *)
Theorem from_string_normalises :
  (forall it, from_string (intent_value it) = it)
  /\ (forall s,
        from_string s <> UNKNOWN ->
        replace_char 45 95
          (replace_char 32 95 (PyStr.lower (PyStr.codepoints s)))
        = PyStr.codepoints (intent_value (from_string s)))
  /\ (forall s, intent_of_label (VStr s) <> UNKNOWN ->
                from_string s = intent_of_label (VStr s)).
Proof.
  split; [|split].
  - intros []; vm_compute; reflexivity.
  - intros s. unfold from_string. cbv zeta.
    repeat match goal with
           | |- context [bool_decide (?a = ?b)] =>
               destruct (bool_decide_reflect (a = b)) as [Heq|_];
               [intros _; symmetry; exact Heq|]
           end.
    intros H. contradiction.
  - intros s. unfold intent_of_label.
    destruct (String.eqb_spec s "chitchat") as [->|_];
      [intros _; vm_compute; reflexivity|].
    destruct (String.eqb_spec s "explicit_analysis") as [->|_];
      [intros _; vm_compute; reflexivity|].
    destruct (String.eqb_spec s "vague_exploration") as [->|_];
      [intros _; vm_compute; reflexivity|].
    intros H. contradiction.
Qed.

(** A label in capitals with a space and a hyphen. *)
Lemma from_string_normalises_witness :
  from_string "Explicit Analysis" = EXPLICIT_ANALYSIS
  /\ replace_char 45 95
       (replace_char 32 95
          (PyStr.lower (PyStr.codepoints "Vague-Exploration")))
     = PyStr.codepoints "vague_exploration".
Proof.
  split; [vm_compute; reflexivity|].
  destruct from_string_normalises as (_ & Hsound & _).
  apply (Hsound "Vague-Exploration"). vm_compute. discriminate.
Defined.

End IntentNames.

Section SessionLifecycle.

Import SessionManager.

Variable call_with_image : string -> string -> vlm_response.
Variable get_intent_recognition_prompt : string -> string -> string.
Variable chitchat_vlm : list message -> vlm_response.
Variable goal_execute :
  string -> value -> string -> string -> option GoalOrientedMode.context ->
  ToolExecutor.t ->
  option (GoalOrientedMode.result * option GoalOrientedMode.context
          * ToolExecutor.t).
Variable explore_execute :
  string -> value -> string -> string -> session ->
  option (gmap string value * session).
Variable time_time : nat -> value.

Abbreviation process_one :=
  (process_query call_with_image get_intent_recognition_prompt chitchat_vlm
     goal_execute explore_execute time_time).
Abbreviation process_all :=
  (process_queries call_with_image get_intent_recognition_prompt chitchat_vlm
     goal_execute explore_execute time_time).

Hypothesis Hexplore : explore_keeps_record explore_execute.

(** One processed query: the engine's result is appended to the history
    of the addressed session, whose original chart is kept. *)
Lemma process_query_step self sid user_query r self' :
  process_one self sid user_query = Some (r, self') ->
  match sessions self !! sid with
  | None => r = SessionNotFound /\ self' = self
  | Some s =>
      exists s' e,
        sessions self' = <[sid := s']> (sessions self)
        /\ original_spec s' = original_spec s
        /\ conversation_history s' = conversation_history s ++ [e]
        /\ query e = user_query
        /\ SessionManager.result e = r
        /\ intent e
           = intent_value
               (_recognize_intent call_with_image
                  get_intent_recognition_prompt user_query
                  (current_image s) (chart_type s)).1
  end.
Proof.
  unfold process_query.
  destruct (sessions self !! sid) as [s|] eqn:Hs.
  2:{ intros H. injection H as <- <-. auto. }
  cbv zeta. cbn [current_image chart_type set_last_activity].
  set (it := (_recognize_intent _ _ _ _ _).1).
  destruct (dispatch_mode _ _ _ it user_query _ _)
    as [[[r0 s0] ex]|] eqn:Hd; [|discriminate].
  intros H. injection H as <- <-.
  eexists _, _. split; [reflexivity|].
  cbn [append_history original_spec conversation_history query intent
       SessionManager.result].
  assert (Hkept : original_spec s0 = original_spec s
                  /\ conversation_history s0 = conversation_history s).
  { unfold dispatch_mode in Hd. destruct it.
    - destruct (ChitchatMode.execute _ _ _ _) as [r1 msgs].
      injection Hd as <- <- <-. auto.
    - cbn [vega_spec current_image chart_type set_last_activity] in Hd.
      destruct (goal_execute _ _ _ _ _ _) as [[[r1 c] ex1]|]; [|discriminate].
      injection Hd as <- <- <-.
      destruct c as [c|], (GoalOrientedMode.success r1); auto.
    - destruct (explore_execute _ _ _ _ _) as [[r1 s1]|] eqn:He;
        [|discriminate].
      injection Hd as <- <- <-. apply Hexplore in He. exact He.
    - destruct (explore_execute _ _ _ _ _) as [[r1 s1]|] eqn:He;
        [|discriminate].
      injection Hd as <- <- <-. apply Hexplore in He. exact He. }
  destruct Hkept as [-> ->]. auto.
Qed.

(** A conversation that returns: what it leaves in each session. *)
Lemma process_queries_record self queries self' :
  process_all self queries = Some self' ->
  forall sid,
    match sessions self !! sid with
    | None => sessions self' !! sid = None
    | Some s =>
        exists s',
          sessions self' !! sid = Some s'
          /\ original_spec s' = original_spec s
          /\ conversation_history s'
             = conversation_history s
                 ++ drop (length (conversation_history s))
                      (conversation_history s')
          /\ query <$> conversation_history s'
             = (query <$> conversation_history s)
                 ++ (snd <$> filter (fun q => q.1 = sid) queries)
    end.
Proof.
  revert self. induction queries as [|[sid0 q] rest IH]; intros self Hrun sid.
  - injection Hrun as <-. destruct (sessions self !! sid) as [s|]; [|reflexivity].
    exists s. rewrite drop_all, !app_nil_r. auto.
  - cbn [process_queries] in Hrun.
    destruct (process_one self sid0 q) as [[r self1]|] eqn:Hone;
      [|discriminate].
    specialize (IH self1 Hrun sid).
    apply process_query_step in Hone.
    rewrite filter_cons. cbn [fst].
    destruct (sessions self !! sid0) as [s0|] eqn:Hs0.
    + destruct Hone as (s1 & e & Hsessions & Horig & Hhist & Hq & _ & _).
      rewrite Hsessions in IH.
      destruct (decide (sid0 = sid)) as [->|Hne].
      * rewrite Hs0. rewrite lookup_insert_eq in IH.
        destruct IH as (s' & Hs' & Horig' & Hpre & Hhist').
        exists s'. split; [exact Hs'|]. split; [congruence|]. split.
        -- rewrite Hpre at 1. rewrite Hhist, <- app_assoc. f_equal.
           rewrite Hpre at 2. rewrite Hhist, <- app_assoc.
           rewrite drop_app_length. reflexivity.
        -- rewrite Hhist', Hhist, fmap_app, fmap_cons, <- app_assoc.
           cbn [fmap list_fmap snd app]. rewrite Hq. reflexivity.
      * rewrite lookup_insert_ne in IH by exact Hne. exact IH.
    + destruct Hone as [_ ->].
      destruct (decide (sid0 = sid)) as [->|Hne]; [|exact IH].
      rewrite Hs0 in IH |- *. exact IH.
Qed.

(** X12.  Over a whole conversation that returns, no session appears or
    disappears, and every session keeps its original chart; its history
    grows by exactly one entry for each query addressed to it, in the
    order they were asked, and the entries it had keep their query,
    intent and timestamp.  Queries addressed to a session that does not
    exist leave no trace. *)
Theorem conversation_history_records_queries self queries self' :
  process_queries call_with_image get_intent_recognition_prompt chitchat_vlm
    goal_execute explore_execute time_time self queries = Some self' ->
  dom (sessions self') = dom (sessions self)
  /\ forall sid s,
       sessions self !! sid = Some s ->
       exists s',
         sessions self' !! sid = Some s'
         /\ original_spec s' = original_spec s
         /\ length (conversation_history s')
            = length (conversation_history s)
              + length (filter (fun q => q.1 = sid) queries)
         /\ query <$> conversation_history s'
            = (query <$> conversation_history s)
                ++ (snd <$> filter (fun q => q.1 = sid) queries)
         /\ (fun e => (query e, intent e, timestamp e))
              <$> take (length (conversation_history s))
                    (conversation_history s')
            = (fun e => (query e, intent e, timestamp e))
                <$> conversation_history s.
Proof.
  intros Hrun. pose proof (process_queries_record _ _ _ Hrun) as Hrec. split.
  - apply set_eq. intros sid. rewrite !elem_of_dom. specialize (Hrec sid).
    destruct (sessions self !! sid) as [s|].
    + destruct Hrec as (s' & -> & _). split; eauto.
    + rewrite Hrec. reflexivity.
  - intros sid s Hs. specialize (Hrec sid). rewrite Hs in Hrec.
    destruct Hrec as (s' & Hs' & Horig & Hpre & Hq).
    exists s'. split; [exact Hs'|]. split; [exact Horig|].
    split; [|split; [exact Hq|]].
    + rewrite <- (length_fmap query (conversation_history s')), Hq.
      rewrite length_app, !length_fmap. reflexivity.
    + rewrite Hpre, take_app_length. reflexivity.
Qed.

(** The session [reset_view] leaves. *)
Lemma reset_view_session (vega_render : value -> render_outcome) self sid s :
  sessions self !! sid = Some s ->
  exists s',
    sessions (reset_view vega_render self sid).2 !! sid = Some s'
    /\ vega_spec s' = original_spec s
    /\ current_image s'
       = match vega_render (original_spec s) with
         | Rendered image_base64 => image_base64
         | RenderFailed _ => current_image s
         end
    /\ original_spec s' = original_spec s
    /\ conversation_history s' = conversation_history s
    /\ chitchat_messages s' = chitchat_messages s
    /\ goal_oriented_messages s' = goal_oriented_messages s
    /\ goal_oriented_iterations s' = goal_oriented_iterations s.
Proof.
  intros Hs. unfold reset_view. rewrite Hs.
  cbn [fst snd sessions tool_executor set_view vega_spec original_spec
       current_image].
  rewrite lookup_insert_eq. eexists. split; [reflexivity|].
  destruct (vega_render (original_spec s)); repeat split.
Qed.

(** X13.  [reset_view] on a session that exists puts the original chart
    back and reports success whether or not the renderer does: the
    image is replaced only when the render succeeds, and otherwise stays
    the one of the chart just discarded.  History and engine
    transcripts are not touched, other sessions neither, and a second
    reset changes nothing more.  On a session that does not exist it
    reports the failure and changes nothing. *)
Theorem reset_view_restores_chart
    (vega_render : value -> render_outcome) self sid :
  let out := reset_view vega_render self sid in
  match sessions self !! sid with
  | None =>
      out = ({[ "success" := VBool false;
                "error" := VStr "Session not found" ]}, self)
  | Some s =>
      out.1 !! "success" = Some (VBool true)
      /\ tool_executor out.2 = tool_executor self
      /\ (forall other, other <> sid ->
            sessions out.2 !! other = sessions self !! other)
      /\ reset_view vega_render out.2 sid = out
      /\ exists s',
           sessions out.2 !! sid = Some s'
           /\ vega_spec s' = original_spec s
           /\ current_image s'
              = match vega_render (original_spec s) with
                | Rendered image_base64 => image_base64
                | RenderFailed _ => current_image s
                end
           /\ original_spec s' = original_spec s
           /\ conversation_history s' = conversation_history s
           /\ chitchat_messages s' = chitchat_messages s
           /\ goal_oriented_messages s' = goal_oriented_messages s
           /\ goal_oriented_iterations s' = goal_oriented_iterations s
  end.
Proof.
  cbv zeta. unfold reset_view.
  destruct (sessions self !! sid) as [s|] eqn:Hs; [|reflexivity].
  cbn [fst snd sessions tool_executor set_view vega_spec original_spec
       current_image].
  split; [reflexivity|]. split; [reflexivity|]. split.
  { intros other Hne. apply lookup_insert_ne. congruence. }
  split.
  - rewrite lookup_insert_eq.
    destruct (vega_render (original_spec s)) as [img|err] eqn:Hr;
      cbn [set_view vega_spec original_spec current_image];
      rewrite Hr; cbn [set_view vega_spec original_spec current_image];
      rewrite insert_insert_eq; reflexivity.
  - rewrite lookup_insert_eq. eexists. split; [reflexivity|].
    destruct (vega_render (original_spec s)); repeat split.
Qed.

(** X14.  A session is created only when its chart renders: on a
    failed render [create_session] returns no identifier and stores
    nothing.  Otherwise the new session holds the chart both as current
    and as original chart, the other sessions are as before, and after
    any conversation that returns, a reset of the new session brings
    back the chart it was created with, its history being the queries
    put to it since. *)
Theorem created_session_resets_to_its_chart
    (render_first render_again : value -> render_outcome)
    (identify_call : string -> string -> vlm_response)
    (get_candidate_chart_types : value -> list ChartTypes.ChartType)
    (creation_time : nat -> value)
    (chart_repr : ChartTypes.ChartType -> string)
    self new_id spec :
  let created :=
    create_session render_first identify_call get_candidate_chart_types
      creation_time chart_repr self new_id spec in
  match render_first spec with
  | RenderFailed _ => created = (None, self)
  | Rendered image_base64 =>
      created.1 = Some new_id
      /\ (forall other, other <> new_id ->
            sessions created.2 !! other = sessions self !! other)
      /\ (exists s, get_session created.2 new_id = Some s
                    /\ vega_spec s = spec /\ original_spec s = spec
                    /\ current_image s = image_base64
                    /\ conversation_history s = [])
      /\ forall queries after,
           process_all created.2 queries = Some after ->
           exists s,
             get_session (reset_view render_again after new_id).2 new_id
               = Some s
             /\ vega_spec s = spec
             /\ original_spec s = spec
             /\ query <$> conversation_history s
                = snd <$> filter (fun q => q.1 = new_id) queries
  end.
Proof.
  cbv zeta. unfold create_session.
  destruct (render_first spec) as [img|err]; [|reflexivity].
  cbn [fst snd sessions]. split; [reflexivity|]. split.
  { intros other Hne. apply lookup_insert_ne. congruence. }
  split.
  { unfold get_session. cbn [sessions]. rewrite lookup_insert_eq.
    eexists. split; [reflexivity|]. repeat split. }
  intros queries after Hrun.
  pose proof (process_queries_record _ _ _ Hrun new_id) as Hconv.
  cbn [sessions] in Hconv. rewrite lookup_insert_eq in Hconv.
  destruct Hconv as (s1 & Hs1 & Horig & _ & Hhist).
  cbn [original_spec conversation_history] in Horig, Hhist.
  destruct (reset_view_session render_again after new_id s1 Hs1)
    as (s2 & Hs2 & Hspec & _ & Horig2 & Hhist2 & _).
  exists s2. unfold get_session. split; [exact Hs2|].
  split; [congruence|]. split; [congruence|].
  rewrite Hhist2, Hhist. reflexivity.
Qed.

End SessionLifecycle.


Section SessionLifecycleRuns.

Import SessionManager.

Lemma demo_explore_keeps_record : explore_keeps_record demo_explore.
Proof.
  intros user_query spec img chart s r s' H. unfold demo_explore in H.
  injection H as _ <-. auto.
Qed.

(** A greeting, a query to a session that does not exist and a vague
    question, put to the sample manager. *)
Lemma conversation_history_records_queries_witness :
  exists after s',
    demo_process_queries demo_manager
      [("s-1", "你好"); ("s-9", "你好"); ("s-1", "有什么规律")] = Some after
    /\ sessions after !! "s-1" = Some s'
    /\ original_spec s' = original_spec demo_session
    /\ query <$> conversation_history s' = ["你好"; "有什么规律"]
    /\ dom (sessions after) = dom (sessions demo_manager).
Proof.
  destruct (demo_process_queries demo_manager
              [("s-1", "你好"); ("s-9", "你好"); ("s-1", "有什么规律")])
    as [after|] eqn:Hrun; [|exfalso; vm_compute in Hrun; discriminate].
  destruct (conversation_history_records_queries _ _ _ _ _ _
              demo_explore_keeps_record _ _ _ Hrun) as [Hdom Hrec].
  destruct (Hrec "s-1" demo_session eq_refl)
    as (s' & Hs' & Horig & _ & Hq & _).
  exists after, s'. split; [reflexivity|]. split; [exact Hs'|].
  split; [exact Horig|]. split; [exact Hq | exact Hdom].
Defined.

(** A reset of the sample session while the renderer is down: it
    succeeds all the same, and repeating it changes nothing. *)
Lemma reset_view_restores_chart_witness :
  let out := reset_view demo_render_down demo_manager "s-1" in
  out.1 !! "success" = Some (VBool true)
  /\ sessions out.2 !! "s-2" = sessions demo_manager !! "s-2"
  /\ reset_view demo_render_down out.2 "s-1" = out
  /\ exists s', sessions out.2 !! "s-1" = Some s'
                /\ current_image s' = current_image demo_session.
Proof.
  intros out.
  pose proof (reset_view_restores_chart demo_render_down demo_manager "s-1")
    as H.
  cbv zeta in H.
  change (sessions demo_manager !! "s-1") with (Some demo_session) in H.
  destruct H as (Hok & _ & Hothers & Hagain & s' & Hs' & _ & Himg & _).
  split; [exact Hok|]. split; [apply Hothers; discriminate|].
  split; [exact Hagain|]. exists s'. split; [exact Hs' | exact Himg].
Defined.

(** A second session created on the sample manager, a greeting put to
    it, then a reset. *)
Lemma created_session_resets_to_its_chart_witness :
  let created :=
    create_session demo_render (fun _ _ => VlmError "endpoint unreachable")
      (fun _ => [ChartTypes.BAR_CHART]) GoalOrientedMode.demo_time
      ChartTypes.chart_value demo_manager "s-2" (VDict [("mark", VStr "bar")])
  in
  created.1 = Some "s-2"
  /\ exists after s,
       demo_process_queries created.2 [("s-2", "你好")] = Some after
       /\ get_session (reset_view demo_render after "s-2").2 "s-2" = Some s
       /\ vega_spec s = VDict [("mark", VStr "bar")]
       /\ query <$> conversation_history s = ["你好"].
Proof.
  intros created.
  pose proof (created_session_resets_to_its_chart
                (fun _ _ => VlmError "endpoint unreachable")
                (fun q _ => "classify: " +:+ q)
                (fun _ => VlmOk "hello" [])
                (GoalOrientedMode.execute 15
                   (registered_tools ToolExecutor.demo_impl)
                   GoalOrientedMode.vlm_one_call GoalOrientedMode.render_ok
                   GoalOrientedMode.demo_time
                   (fun _ => ToolExecutor.demo_clock)
                   GoalOrientedMode.demo_repr GoalOrientedMode.demo_repr_dict)
                demo_explore GoalOrientedMode.demo_time
                demo_explore_keeps_record demo_render demo_render
                (fun _ _ => VlmError "endpoint unreachable")
                (fun _ => [ChartTypes.BAR_CHART]) GoalOrientedMode.demo_time
                ChartTypes.chart_value demo_manager "s-2"
                (VDict [("mark", VStr "bar")])) as H.
  cbv zeta in H. change (demo_render (VDict [("mark", VStr "bar")]))
    with (Rendered "cmVzZXQ=") in H.
  cbv beta iota in H. fold created in H.
  destruct H as (Hid & _ & _ & Hafter).
  split; [exact Hid|].
  destruct (demo_process_queries created.2 [("s-2", "你好")])
    as [after|] eqn:Hrun; [|exfalso; vm_compute in Hrun; discriminate].
  destruct (Hafter _ _ Hrun) as (s & Hs & Hspec & _ & Hq).
  exists after, s. split; [reflexivity|]. split; [exact Hs|].
  split; [exact Hspec|exact Hq].
Defined.

End SessionLifecycleRuns.

(** ** The keyword rules of the classifier *)

Section KeywordRules.

Import SessionManager.

Variable call_with_image : string -> string -> vlm_response.
Variable get_intent_recognition_prompt : string -> string -> string.

Lemma lstrip_spaces ws s :
  Forall (fun c => PyStr.isspace c = true) ws ->
  PyStr.lstrip (ws ++ s) = PyStr.lstrip s.
Proof.
  induction 1 as [|c ws Hc _ IH]; [reflexivity|].
  cbn [app PyStr.lstrip]. rewrite Hc. exact IH.
Qed.

Lemma lstrip_app_spaces s ws :
  Forall (fun c => PyStr.isspace c = true) ws ->
  PyStr.lstrip (rev (PyStr.lstrip (s ++ ws)))
  = PyStr.lstrip (rev (PyStr.lstrip s)).
Proof.
  intros Hws. induction s as [|c s IH].
  - cbn [app PyStr.lstrip rev].
    assert (Hnil : PyStr.lstrip ws = []).
    { rewrite <- (app_nil_r ws). rewrite lstrip_spaces by exact Hws.
      reflexivity. }
    rewrite Hnil. reflexivity.
  - cbn [app PyStr.lstrip]. destruct (PyStr.isspace c); [exact IH|].
    change (c :: s ++ ws) with ((c :: s) ++ ws).
    rewrite rev_app_distr. apply lstrip_spaces.
    apply Forall_forall. intros x Hx. rewrite Forall_forall in Hws.
    apply Hws. apply list_elem_of_In. apply list_elem_of_In in Hx.
    apply in_rev. exact Hx.
Qed.

Lemma strip_padding ws1 s ws2 :
  Forall (fun c => PyStr.isspace c = true) ws1 ->
  Forall (fun c => PyStr.isspace c = true) ws2 ->
  PyStr.strip (ws1 ++ s ++ ws2) = PyStr.strip s.
Proof.
  intros H1 H2. unfold PyStr.strip.
  rewrite lstrip_spaces by exact H1.
  rewrite lstrip_app_spaces by exact H2. reflexivity.
Qed.

Lemma lexical_intent_of_query_lower q q' :
  query_lower q' = query_lower q -> lexical_intent q' = lexical_intent q.
Proof. unfold lexical_intent. intros ->. reflexivity. Qed.

(** Lower case leaves white space as it is. *)
Lemma lower_spaces ws :
  Forall (fun c => PyStr.isspace c = true) ws -> PyStr.lower ws = ws.
Proof.
  induction 1 as [|c ws Hc _ IH]; [reflexivity|].
  unfold PyStr.lower in *. cbn [fmap list_fmap]. rewrite IH. f_equal.
  destruct (N.leb_spec 65 c), (N.leb_spec c 90); cbn [andb]; try reflexivity.
  exfalso. unfold PyStr.isspace in Hc.
  repeat match type of Hc with
         | context [N.leb ?a ?b] => destruct (N.leb_spec a b); try lia
         | context [N.eqb ?a ?b] => destruct (N.eqb_spec a b); try lia
         end.
Qed.

(** Lower case reads a letter the same in its two cases. *)
Lemma lower_same_letters body s :
  Forall2 (fun a b => PyStr.same_letter a b = true) body s ->
  PyStr.lower body = PyStr.lower s.
Proof.
  induction 1 as [|a b body s Hab _ IH]; [reflexivity|].
  unfold PyStr.lower in *. cbn [fmap list_fmap]. rewrite IH. f_equal.
  unfold PyStr.same_letter in Hab.
  repeat match goal with
         | |- context [N.leb ?x ?y] => destruct (N.leb_spec x y)
         end; cbn [andb];
    repeat match type of Hab with
           | context [N.leb ?x ?y] => destruct (N.leb_spec x y)
           | context [N.eqb ?x ?y] => destruct (N.eqb_spec x y)
           end; cbn [andb orb] in Hab; try discriminate Hab; lia.
Qed.

(** X15.  The keyword rules do not tell apart the two cases of an ASCII
    letter and do not see white space around the query.  For a query
    [q] of ASCII and CJK characters, a query made of the characters of
    [q], each ASCII letter in either case, with white space before and
    after, gets the verdict of [q]; when that verdict exists both are
    classified without the endpoint. *)
Theorem keyword_rules_ignore_case_and_padding q q' ws1 body ws2 img chart :
  PyStr.plain (PyStr.codepoints q) = true ->
  PyStr.codepoints q' = ws1 ++ body ++ ws2 ->
  Forall (fun c => PyStr.isspace c = true) ws1 ->
  Forall (fun c => PyStr.isspace c = true) ws2 ->
  Forall2 (fun a b => PyStr.same_letter a b = true)
    body (PyStr.codepoints q) ->
  lexical_intent q' = lexical_intent q
  /\ forall it,
       lexical_intent q = Some it ->
       _recognize_intent call_with_image get_intent_recognition_prompt
         q' img chart = (it, [])
       /\ _recognize_intent call_with_image get_intent_recognition_prompt
            q img chart = (it, []).
Proof.
  intros _ Hq H1 H2 Hbody.
  assert (Hlex : lexical_intent q' = lexical_intent q).
  { apply lexical_intent_of_query_lower. unfold query_lower.
    rewrite Hq. unfold PyStr.lower at 1. rewrite !fmap_app.
    fold (PyStr.lower ws1) (PyStr.lower body) (PyStr.lower ws2).
    rewrite (lower_spaces ws1 H1), (lower_spaces ws2 H2).
    rewrite (lower_same_letters _ _ Hbody).
    apply strip_padding; assumption. }
  split; [exact Hlex|]. intros it Hit.
  rewrite !recognize_intent_lexical, Hlex, Hit. auto.
Qed.

(** X16.  On a query of ASCII and CJK characters the classifier sends
    the endpoint at most one request, and exactly when no keyword rule
    matches.  The keyword rules only ever answer chitchat or explicit
    goal: a verdict of vague exploration means the endpoint was asked
    and named that intent in so many words, and a failed request gives
    the unknown intent. *)
Theorem classifier_endpoint_use q img chart :
  PyStr.plain (PyStr.codepoints q) = true ->
  let out :=
    _recognize_intent call_with_image get_intent_recognition_prompt
      q img chart in
  let request := (get_intent_recognition_prompt q chart, img) in
  (out.2 = [] \/ out.2 = [request])
  /\ (out.2 = [] <-> lexical_intent q <> None)
  /\ (out.2 = [] -> out.1 = CHITCHAT \/ out.1 = EXPLICIT_ANALYSIS)
  /\ (out.1 = VAGUE_EXPLORATION ->
      out.2 = [request]
      /\ exists reply parsed,
           call_with_image request.1 img = VlmOk reply parsed
           /\ dget "intent_type" parsed
              = Some (VStr "vague_exploration"))
  /\ (forall error, lexical_intent q = None ->
        call_with_image request.1 img = VlmError error ->
        out.1 = UNKNOWN).
Proof.
  intros _. cbv zeta. rewrite recognize_intent_lexical. cbn [fst].
  destruct (lexical_intent q) as [it|] eqn:Hlex.
  - cbn [fst snd]. split; [left; reflexivity|]. split; [split; congruence|].
    split.
    + intros _. unfold lexical_intent in Hlex.
      repeat match type of Hlex with
             | (if ?b then _ else _) = _ => destruct b
             end; inversion Hlex; auto.
    + split.
      * intros ->. exfalso. unfold lexical_intent in Hlex.
        repeat match type of Hlex with
               | (if ?b then _ else _) = _ => destruct b
               end; discriminate.
      * discriminate.
  - cbv zeta.
    destruct (call_with_image (get_intent_recognition_prompt q chart) img)
      as [reply parsed|err] eqn:Hcall; cbn [fst snd].
    + split; [right; reflexivity|]. split; [split; [discriminate|congruence]|].
      split; [discriminate|]. split; [|discriminate].
      intros Hv. split; [reflexivity|]. exists reply, parsed.
      split; [reflexivity|].
      destruct (dget "intent_type" parsed) as [v|]; [|discriminate Hv].
      cbn [default from_option id] in Hv. unfold intent_of_label in Hv.
      destruct v as [| | | |s| |]; try discriminate Hv.
      destruct (String.eqb_spec s "chitchat"); [discriminate|].
      destruct (String.eqb_spec s "explicit_analysis"); [discriminate|].
      destruct (String.eqb_spec s "vague_exploration"); [|discriminate].
      congruence.
    + split; [right; reflexivity|]. split; [split; [discriminate|congruence]|].
      split; [discriminate|]. split; [discriminate|]. reflexivity.
Qed.

End KeywordRules.

Section KeywordRuleRuns.

Import SessionManager.

(** A greeting in mixed case between blanks. *)
Lemma keyword_rules_ignore_case_and_padding_witness :
  lexical_intent "  HeLLo " = Some CHITCHAT
  /\ _recognize_intent (fun _ _ => VlmError "endpoint unreachable")
       (fun q _ => "classify: " +:+ q) "  HeLLo " "" "bar_chart"
     = (CHITCHAT, []).
Proof.
  destruct (keyword_rules_ignore_case_and_padding
              (fun _ _ => VlmError "endpoint unreachable")
              (fun q _ => "classify: " +:+ q)
              "hello" "  HeLLo " [32; 32]%N (PyStr.codepoints "HeLLo")
              [32]%N "" "bar_chart")
    as [Hlex Hrec].
  - vm_compute. reflexivity.
  - vm_compute. reflexivity.
  - repeat constructor.
  - repeat constructor.
  - vm_compute. repeat constructor.
  - split.
    + rewrite Hlex. vm_compute. reflexivity.
    + apply Hrec. vm_compute. reflexivity.
Defined.

(** A vague question while the endpoint is down: one request, and the
    unknown intent. *)
Lemma classifier_endpoint_use_witness :
  let out :=
    _recognize_intent (fun _ _ => VlmError "endpoint unreachable")
      (fun q _ => "classify: " +:+ q) "有什么规律" "" "bar_chart" in
  out.1 = UNKNOWN /\ length out.2 = 1.
Proof.
  intros out.
  destruct (classifier_endpoint_use
              (fun _ _ => VlmError "endpoint unreachable")
              (fun q _ => "classify: " +:+ q) "有什么规律" "" "bar_chart")
    as (Hreq & Hnone & _ & _ & Hdown).
  { vm_compute. reflexivity. }
  fold out in Hreq, Hnone, Hdown. split.
  - apply (Hdown "endpoint unreachable"); [vm_compute|]; reflexivity.
  - destruct Hreq as [Hreq|Hreq].
    + exfalso. apply Hnone in Hreq. apply Hreq. vm_compute. reflexivity.
    + rewrite Hreq. reflexivity.
Defined.

End KeywordRuleRuns.
(** ** JSON extraction *)

Section ExtractionFacts.

Import JsonUtils.

Lemma append_assoc_cons a (x y : string) :
  String a x +:+ y = String a (x +:+ y).
Proof. reflexivity. Qed.

Lemma append_nil_l (y : string) : EmptyString +:+ y = y.
Proof. reflexivity. Qed.

(** [simpl] leaves string concatenation folded; this unfolds it on
    constructors. *)
Ltac unfold_append :=
  rewrite ?append_assoc_cons, ?append_nil_l; simpl.

Lemma string_app_assoc (x y z : string) : (x +:+ y) +:+ z = x +:+ (y +:+ z).
Proof. induction x as [|a x IH]; unfold_append; [done | by rewrite IH]. Qed.

Lemma string_length_app (x y : string) :
  String.length (x +:+ y) = String.length x + String.length y.
Proof. induction x as [|a x IH]; unfold_append; [done | by rewrite IH]. Qed.

(** The first occurrence sits right after a prefix without one. *)
Lemma find_app c pre rest :
  find c pre = None ->
  find c (pre +:+ String c rest) = Some (String.length pre).
Proof.
  induction pre as [|a pre IH]; unfold_append.
  - intros _. by rewrite Ascii.eqb_refl.
  - destruct (Ascii.eqb a c); [discriminate|].
    destruct (find c pre); [discriminate|]. intros _. by rewrite IH.
Qed.

(** The last occurrence sits right before a suffix without one. *)
Lemma rfind_app c x post :
  rfind c post = None ->
  rfind c (x +:+ String c post) = Some (String.length x).
Proof.
  intros Hpost. induction x as [|a x IH]; unfold_append.
  - by rewrite Hpost, Ascii.eqb_refl.
  - by rewrite IH.
Qed.

Lemma find_split c text i :
  find c text = Some i ->
  exists pre rest, text = pre +:+ String c rest
                   /\ find c pre = None /\ String.length pre = i.
Proof.
  revert i. induction text as [|a text IH]; simpl; [discriminate|].
  intros i. destruct (Ascii.eqb_spec a c) as [->|Hne].
  - intros [= <-]. by exists EmptyString, text.
  - destruct (find c text) as [i'|] eqn:Hf; [|discriminate].
    intros [= <-]. destruct (IH i' eq_refl) as (pre & rest & -> & Hpre & Hlen).
    exists (String a pre), rest. simpl. rewrite Hpre, Hlen.
    by destruct (Ascii.eqb_spec a c).
Qed.

Lemma rfind_split c text j :
  rfind c text = Some j ->
  exists x post, text = x +:+ String c post
                 /\ rfind c post = None /\ String.length x = j.
Proof.
  revert j. induction text as [|a text IH]; simpl; [discriminate|].
  intros j. destruct (rfind c text) as [j'|] eqn:Hr.
  - intros [= <-]. destruct (IH j' eq_refl) as (x & post & -> & Hpost & Hlen).
    exists (String a x), post. simpl. by rewrite Hlen.
  - destruct (Ascii.eqb_spec a c) as [->|Hne]; [|discriminate].
    intros [= <-]. by exists EmptyString, text.
Qed.

(** A first [c1] before a last [c2] splits the text in three. *)
Lemma find_rfind_split c1 c2 text i j :
  find c1 text = Some i -> rfind c2 text = Some j -> i < j ->
  exists pre mid post, text = pre +:+ String c1 (mid +:+ String c2 post).
Proof.
  revert i j. induction text as [|a text IH]; simpl; [discriminate|].
  intros i j Hf Hr Hlt.
  destruct (rfind c2 text) as [j'|] eqn:Hr'.
  2:{ destruct (Ascii.eqb a c2); [|discriminate]. injection Hr as <-. lia. }
  injection Hr as <-.
  destruct (Ascii.eqb_spec a c1) as [->|Hne].
  - destruct (rfind_split _ _ _ Hr') as (x & post & -> & _ & _).
    by exists EmptyString, x, post.
  - destruct (find c1 text) as [i'|] eqn:Hf'; [|discriminate].
    injection Hf as <-.
    destruct (IH i' j' eq_refl eq_refl ltac:(lia)) as (pre & mid & post & ->).
    by exists (String a pre), mid, post.
Qed.

(** A first [c1] before a last [c2] splits the text in three, with no
    [c1] before the first part ends and no [c2] after the last begins. *)
Lemma find_rfind_split_first c1 c2 text i j :
  find c1 text = Some i -> rfind c2 text = Some j -> i < j ->
  exists pre mid post,
    text = pre +:+ String c1 (mid +:+ String c2 post)
    /\ find c1 pre = None /\ rfind c2 post = None.
Proof.
  intros Hf Hr Hlt.
  destruct (find_split _ _ _ Hf) as (pre & rest & -> & Hpre & Hi).
  assert (Hrest : exists j', rfind c2 rest = Some j').
  { clear Hf. revert j Hr Hlt. subst i.
    induction pre as [|a pre IH]; intros j Hr Hlt.
    - rewrite append_nil_l in Hr. cbn [rfind] in Hr.
      destruct (rfind c2 rest) as [j'|]; [eauto|].
      destruct (Ascii.eqb c1 c2); [|discriminate].
      injection Hr as <-. simpl in Hlt. lia.
    - rewrite append_assoc_cons in Hr. cbn [rfind] in Hr.
      simpl in Hpre. destruct (Ascii.eqb a c1); [discriminate|].
      destruct (find c1 pre) eqn:Hfp; [discriminate|].
      destruct (rfind c2 (pre +:+ String c1 rest)) as [j0|] eqn:Hr0.
      + injection Hr as <-. apply (IH eq_refl j0 eq_refl).
        simpl in Hlt. lia.
      + destruct (Ascii.eqb a c2); [|discriminate].
        injection Hr as <-. lia. }
  destruct Hrest as [j' Hj'].
  destruct (rfind_split _ _ _ Hj') as (mid & post & -> & Hpost & _).
  by exists pre, mid, post.
Qed.

Lemma substring_skip pre n (s : string) :
  String.substring (String.length pre) n (pre +:+ s) = String.substring 0 n s.
Proof. induction pre as [|a pre IH]; unfold_append; [done | exact IH]. Qed.

Lemma substring_upto x c post :
  String.substring 0 (String.length x + 1) (x +:+ String c post)
  = x +:+ String c EmptyString.
Proof.
  induction x as [|a x IH]; unfold_append; [|by rewrite IH].
  by destruct post.
Qed.

(** The text between the first opening and the last closing character. *)
Lemma span_between_split opening closing pre mid post :
  find opening pre = None -> rfind closing post = None ->
  span_between opening closing
    (pre +:+ String opening (mid +:+ String closing post))
  = Some (String opening (mid +:+ String closing EmptyString)).
Proof.
  intros Hpre Hpost. unfold span_between.
  rewrite (find_app _ _ _ Hpre).
  replace (pre +:+ String opening (mid +:+ String closing post))
    with ((pre +:+ String opening mid) +:+ String closing post)
    by (by rewrite string_app_assoc).
  rewrite (rfind_app _ _ _ Hpost), string_length_app. simpl String.length.
  destruct (Nat.ltb_spec (String.length pre)
              (String.length pre + S (String.length mid))); [|lia].
  f_equal. unfold slice. rewrite string_app_assoc, append_assoc_cons.
  replace (String.length pre + S (String.length mid) + 1 - String.length pre)
    with (S (String.length mid + 1)) by lia.
  rewrite substring_skip. simpl. by rewrite substring_upto.
Qed.

Lemma span_between_none opening closing text :
  (forall pre mid post,
      text <> pre +:+ String opening (mid +:+ String closing post)) ->
  span_between opening closing text = None.
Proof.
  intros Hno. unfold span_between.
  destruct (find opening text) as [i|] eqn:Hf; [|done].
  destruct (rfind closing text) as [j|] eqn:Hr; [|done].
  destruct (Nat.ltb_spec i j) as [Hlt|]; [|done].
  destruct (find_rfind_split _ _ _ _ _ Hf Hr Hlt) as (pre & mid & post & ->).
  by destruct (Hno pre mid post).
Qed.

(** A span that was found splits the text around it. *)
Lemma span_between_inv opening closing text json_str :
  span_between opening closing text = Some json_str ->
  exists pre mid post,
    text = pre +:+ String opening (mid +:+ String closing post)
    /\ find opening pre = None
    /\ rfind closing post = None
    /\ json_str = String opening (mid +:+ String closing EmptyString).
Proof.
  intros Hspan.
  destruct (find opening text) as [i|] eqn:Hf;
    [|unfold span_between in Hspan; by rewrite Hf in Hspan].
  destruct (rfind closing text) as [j|] eqn:Hr;
    [|unfold span_between in Hspan; by rewrite Hf, Hr in Hspan].
  destruct (Nat.ltb_spec i j) as [Hlt|Hge].
  2:{ unfold span_between in Hspan. rewrite Hf, Hr in Hspan.
      destruct (Nat.ltb_spec i j); [lia | discriminate]. }
  destruct (find_rfind_split_first _ _ _ _ _ Hf Hr Hlt)
    as (pre & mid & post & -> & Hpre & Hpost).
  exists pre, mid, post. split; [done|]. split; [done|]. split; [done|].
  rewrite (span_between_split _ _ _ _ _ Hpre Hpost) in Hspan. congruence.
Qed.

Variable loads : string -> loads_outcome.

(** The array search ends with the empty object unless reading its
    span raises. *)
Lemma array_search_span text :
  array_search loads text
  = match span_between "[" "]" text with
    | Some json_str =>
        match loads json_str with
        | OtherError => None
        | _ => Some []
        end
    | None => Some []
    end.
Proof.
  unfold array_search, safe_json_loads.
  destruct (span_between "[" "]" text) as [s|]; [|done].
  destruct (loads s) as [r| |]; [|done..]. by destruct (truthy r).
Qed.

(** The object search returns a non-empty object read from its span,
    lets an exception of the reader through, and in every other case
    leaves the result to the array search. *)
Lemma extract_from_span text :
  extract_json_from_text loads text
  = match span_between "{" "}" text with
    | Some json_str =>
        match loads json_str with
        | Loaded (VDict (e :: d)) => Some (e :: d)
        | OtherError => None
        | _ => array_search loads text
        end
    | None => array_search loads text
    end.
Proof.
  unfold extract_json_from_text, safe_json_loads.
  destruct (span_between "{" "}" text) as [s|]; [|done].
  destruct (loads s) as [r| |]; [|done..].
  destruct r as [| | | | | |[|e d]]; try done; cbn [truthy];
    by repeat match goal with |- context [if ?b then _ else _] => destruct b end.
Qed.

(** C7 (as amended).  The extraction reads the span from the first [{]
    of the text to its last [}]: when the text is [pre { mid } post] with
    no [{] in [pre] and no [}] in [post], the result is the JSON value of
    [{ mid }] if that is a non-empty object; an exception of the reader
    other than a decode error leaves the extraction; if the span is no
    JSON text or another kind of value the result is left to the search
    for an array, as it is for a text without a [{] that is followed by
    a [}].  That search reads the span from the first [[] to the last
    []] and ends with the empty object whatever it finds, unless the
    reader raises such an exception on the span.  So with a reader that
    raises nothing but decode errors the extraction always returns, a
    non-empty result being the value of the object span. *)
Theorem extract_json_outer_span text :
  (forall pre mid post,
      text = pre +:+ String "{" (mid +:+ String "}" post) ->
      find "{" pre = None ->
      rfind "}" post = None ->
      extract_json_from_text loads text
      = match loads (String "{" (mid +:+ "}")) with
        | Loaded (VDict (e :: d)) => Some (e :: d)
        | OtherError => None
        | _ => array_search loads text
        end)
  /\ ((forall pre mid post,
          text <> pre +:+ String "{" (mid +:+ String "}" post)) ->
      extract_json_from_text loads text = array_search loads text)
  /\ (forall pre mid post,
        text = pre +:+ String "[" (mid +:+ String "]" post) ->
        find "[" pre = None ->
        rfind "]" post = None ->
        array_search loads text
        = match loads (String "[" (mid +:+ "]")) with
          | OtherError => None
          | _ => Some []
          end)
  /\ ((forall pre mid post,
          text <> pre +:+ String "[" (mid +:+ String "]" post)) ->
      array_search loads text = Some [])
  /\ ((forall json_str, loads json_str <> OtherError) ->
      exists d,
        extract_json_from_text loads text = Some d
        /\ (d = []
            \/ exists pre mid post,
                 text = pre +:+ String "{" (mid +:+ String "}" post)
                 /\ find "{" pre = None
                 /\ rfind "}" post = None
                 /\ loads (String "{" (mid +:+ "}")) = Loaded (VDict d))).
Proof.
  split; [|split; [|split; [|split]]].
  - intros pre mid post -> Hpre Hpost.
    by rewrite extract_from_span, span_between_split.
  - intros Hno. by rewrite extract_from_span, span_between_none.
  - intros pre mid post -> Hpre Hpost.
    by rewrite array_search_span, span_between_split.
  - intros Hno. by rewrite array_search_span, span_between_none.
  - intros Hsafe.
    assert (Harr : array_search loads text = Some []).
    { rewrite array_search_span.
      destruct (span_between "[" "]" text) as [s|]; [|done].
      pose proof (Hsafe s). by destruct (loads s). }
    rewrite extract_from_span, Harr.
    destruct (span_between "{" "}" text) as [s|] eqn:Hspan; [|eauto].
    pose proof (Hsafe s) as Hs.
    destruct (loads s) as [r| |] eqn:Hload; [|eauto|done].
    destruct r as [| | | | | |[|e d]]; eauto.
    exists (e :: d). split; [done|]. right.
    destruct (span_between_inv _ _ _ _ Hspan)
      as (pre & mid & post & -> & Hpre & Hpost & ->).
    exists pre, mid, post. by rewrite Hload.
Qed.

End ExtractionFacts.

Section ExtractionRuns.

Import JsonUtils.

(** C7 as stated fails: in a reply holding two objects the first balanced
    object is valid JSON, yet the extraction reads from the first [{] to
    the last [}], which is no JSON text, and returns the empty object. *)
Lemma two_objects_counterexample :
  first_balanced "{" "}" two_objects = Some first_object
  /\ json_loads first_object = Loaded (VDict [("a", VInt 1)])
  /\ first_balanced_object_value json_loads two_objects = [("a", VInt 1)]
  /\ span_between "{" "}" two_objects = Some two_objects
  /\ json_loads two_objects = DecodeError
  /\ extract_json_from_text json_loads two_objects = Some []
  /\ extract_json_from_text json_loads two_objects
     <> Some (first_balanced_object_value json_loads two_objects).
Proof. repeat split; try (vm_compute; reflexivity). vm_compute. discriminate. Qed.

(** An object wrapped in prose is found. *)
Lemma extract_json_outer_span_witness :
  extract_json_from_text json_loads ("reply: " +:+ first_object +:+ " ok")
  = Some [("a", VInt 1)].
Proof.
  rewrite (proj1 (extract_json_outer_span json_loads
                    ("reply: " +:+ first_object +:+ " ok"))
             "reply: " (dquote +:+ "a" +:+ dquote +:+ ":1") " ok");
    reflexivity.
Defined.

(** An integer of 4300 digits is read; one digit more and the
    [ValueError] of the conversion leaves the extraction, although the
    text holds a balanced object. *)
Example long_integer_leaves_extraction :
  (exists n, extract_json_from_text json_loads (long_integer_reply 4300)
             = Some [("n", VInt n)])
  /\ is_Some (first_balanced "{" "}" (long_integer_reply 4301))
  /\ extract_json_from_text json_loads (long_integer_reply 4301) = None.
Proof.
  split; [|split].
  - eexists. vm_compute. reflexivity.
  - eexists. vm_compute. reflexivity.
  - vm_compute. reflexivity.
Qed.

End ExtractionRuns.
(** ** Tool bodies and the caller's chart *)

Section ToolBodyRuns.

Import PyHeap.

(** The sibling body [compare_series] does return an independent copy:
    on the same chart, no object of the chart it returns is an object the
    store held before the call, and the call left those as they were. *)
Example compare_series_copies :
  exists res h1 returned,
    compare_series line_chart "v" line_chart_heap = (Some res, h1)
    /\ follow h1 res [Key "success"] = Some (HBool true)
    /\ follow h1 res [Key "vega_spec"] = Some returned
    /\ forallb (fun l => Nat.leb (length line_chart_heap) l)
               (reachable h1 returned) = true
    /\ take (length line_chart_heap) h1 = line_chart_heap.
Proof.
  eexists _, _, _. split; [vm_compute; reflexivity|].
  split; [vm_compute; reflexivity|].
  split; [vm_compute; reflexivity|].
  split; vm_compute; reflexivity.
Qed.

(** C8 fails on the code.  [highlight_trend] on a line chart without
    layers succeeds and, during the call, writes to no object of the
    caller's chart.  But the chart it returns is no independent copy: the
    [encoding] of its first layer is the very object that is the
    [encoding] of the caller's chart, so the returned chart reaches
    objects of the caller's.  An assignment through the returned chart
    therefore changes the document the caller passed in. *)
Theorem highlight_trend_shares_input :
  exists res h1 returned shared x_axis h2,
    highlight_trend line_chart "increasing" line_chart_heap = (Some res, h1)
    /\ follow h1 res [Key "success"] = Some (HBool true)
    /\ take (length line_chart_heap) h1 = line_chart_heap
    /\ follow h1 res [Key "vega_spec"] = Some returned
    /\ follow h1 returned [Key "layer"; Idx 0; Key "encoding"] = Some shared
    /\ follow line_chart_heap line_chart [Key "encoding"] = Some shared
    /\ shared = HRef 2
    /\ filter (fun l => l < length line_chart_heap) (reachable h1 returned)
       = [1; 0; 2]
    /\ follow h1 shared [Key "x"] = Some x_axis
    /\ setitem x_axis "field" (HStr "month") h1 = (Some tt, h2)
    /\ follow h2 line_chart [Key "encoding"; Key "x"; Key "field"]
       = Some (HStr "month")
    /\ follow line_chart_heap line_chart [Key "encoding"; Key "x"; Key "field"]
       = Some (HStr "t")
    /\ document 8 h2 line_chart <> document 8 line_chart_heap line_chart.
Proof.
  eexists _, _, _, _, _, _.
  split; [vm_compute; reflexivity|].
  split; [vm_compute; reflexivity|].
  split; [vm_compute; reflexivity|].
  split; [vm_compute; reflexivity|].
  split; [vm_compute; reflexivity|].
  split; [vm_compute; reflexivity|].
  split; [reflexivity|].
  split; [vm_compute; reflexivity|].
  split; [vm_compute; reflexivity|].
  split; [vm_compute; reflexivity|].
  split; [vm_compute; reflexivity|].
  split; [vm_compute; reflexivity|].
  vm_compute. discriminate.
Qed.

End ToolBodyRuns.

(** ** Tool bodies that copy their chart *)

Section FreshObjects.

Import PyHeap.

Variable h0 : heap.

Abbreviation n0 := (length h0).

Lemma grown_from_refl : grown_from h0 h0.
Proof. exists []. rewrite app_nil_r. split; [reflexivity|constructor]. Qed.

Lemma grown_from_length h : grown_from h0 h -> n0 <= length h.
Proof. intros (added & -> & _). rewrite length_app. lia. Qed.

Lemma grown_from_alloc h o :
  grown_from h0 h -> fresh_obj n0 o -> grown_from h0 (h ++ [o]).
Proof.
  intros (added & -> & Hall) Ho. exists (added ++ [o]).
  rewrite app_assoc. split; [reflexivity|].
  apply Forall_app. split; [exact Hall|]. constructor; [exact Ho|constructor].
Qed.

Lemma grown_from_insert h l o :
  grown_from h0 h -> n0 <= l -> fresh_obj n0 o ->
  grown_from h0 (<[l := o]> h).
Proof.
  intros (added & -> & Hall) Hl Ho. exists (<[l - n0 := o]> added).
  split; [apply insert_app_r_alt; exact Hl|].
  apply Forall_insert; assumption.
Qed.

Lemma grown_from_lookup h l o :
  grown_from h0 h -> n0 <= l -> h !! l = Some o -> fresh_obj n0 o.
Proof.
  intros (added & -> & Hall) Hl Ho. unfold heap in *.
  rewrite lookup_app_r in Ho by exact Hl.
  rewrite Forall_forall in Hall. apply Hall.
  eapply list_elem_of_lookup_2. exact Ho.
Qed.

Lemma entries_get_fresh k es v :
  Forall (fresh_val n0) (snd <$> es) -> entries_get k es = Some v ->
  fresh_val n0 v.
Proof.
  induction es as [|[k' v'] rest IH]; [discriminate|].
  rewrite fmap_cons. intros Hall. apply Forall_cons in Hall as [Hv Hrest].
  cbn [entries_get]. destruct (String.eqb k k').
  - intros H. injection H as <-. exact Hv.
  - apply IH. exact Hrest.
Qed.

Lemma entries_set_fresh k v es :
  Forall (fresh_val n0) (snd <$> es) -> fresh_val n0 v ->
  Forall (fresh_val n0) (snd <$> entries_set k v es).
Proof.
  intros Hall Hv. induction es as [|[k' v'] rest IH].
  - cbn. constructor; [exact Hv|constructor].
  - rewrite fmap_cons in Hall. apply Forall_cons in Hall as [Hv' Hrest].
    cbn [entries_set]. destruct (String.eqb k k'); rewrite fmap_cons.
    + constructor; assumption.
    + constructor; [exact Hv'|]. apply IH. exact Hrest.
Qed.

(** *** The rules of the primitive operations *)

Lemma keeps_ret {A} (a : A) (Q : A -> Prop) : Q a -> keeps h0 (ret a) Q.
Proof.
  intros Hq h Hh. cbn. split; [exact Hh|]. intros a' H. injection H as <-.
  exact Hq.
Qed.

Lemma keeps_raise {A} (Q : A -> Prop) : keeps h0 (@raise A) Q.
Proof. intros h Hh. cbn. split; [exact Hh|]. discriminate. Qed.

Lemma keeps_bind {A B} (c : M A) (k : A -> M B) (P : A -> Prop)
    (Q : B -> Prop) :
  keeps h0 c P -> (forall a, P a -> keeps h0 (k a) Q) ->
  keeps h0 (bind c k) Q.
Proof.
  intros Hc Hk h Hh. unfold bind. destruct (Hc h Hh) as [Hh' Hp].
  destruct (c h) as [[a|] h'] eqn:Hch; cbn [fst snd] in *.
  - exact (Hk a (Hp a eq_refl) h' Hh').
  - split; [exact Hh'|]. discriminate.
Qed.

Lemma keeps_weaken {A} (c : M A) (P Q : A -> Prop) :
  keeps h0 c P -> (forall a, P a -> Q a) -> keeps h0 c Q.
Proof.
  intros Hc Hpq h Hh. destruct (Hc h Hh) as [Hh' Hp].
  split; [exact Hh'|]. intros a Ha. apply Hpq, Hp, Ha.
Qed.

Lemma keeps_alloc o :
  fresh_obj n0 o -> keeps h0 (alloc o) (fresh_val n0).
Proof.
  intros Ho h Hh. cbn. split; [apply grown_from_alloc; assumption|].
  intros a H. injection H as <-. cbn. apply grown_from_length. exact Hh.
Qed.

Lemma keeps_new_dict es :
  Forall (fresh_val n0) (snd <$> es) ->
  keeps h0 (new_dict es) (fresh_val n0).
Proof. intros H. apply keeps_alloc. exact H. Qed.

Lemma keeps_new_list items :
  Forall (fresh_val n0) items -> keeps h0 (new_list items) (fresh_val n0).
Proof. intros H. apply keeps_alloc. exact H. Qed.

Lemma keeps_read v :
  fresh_val n0 v -> keeps h0 (read v) (fresh_obj n0).
Proof.
  intros Hv h Hh. unfold read. destruct v as [| | | | |l];
    try (cbn; split; [exact Hh|discriminate]).
  cbn [fst snd]. split; [exact Hh|]. intros o Ho.
  exact (grown_from_lookup h l o Hh Hv Ho).
Qed.

Lemma keeps_write l o :
  n0 <= l -> fresh_obj n0 o -> keeps h0 (write l o) (fun _ => True).
Proof.
  intros Hl Ho h Hh. cbn. split; [|auto].
  apply grown_from_insert; assumption.
Qed.

Lemma keeps_dict_get d k dflt :
  fresh_val n0 d -> fresh_val n0 dflt ->
  keeps h0 (dict_get d k dflt) (fresh_val n0).
Proof.
  intros Hd Hdflt. unfold dict_get.
  eapply keeps_bind; [apply keeps_read; exact Hd|].
  intros [es|items] Ho; [|apply keeps_raise].
  apply keeps_ret. destruct (entries_get k es) as [v|] eqn:Hk; cbn.
  - exact (entries_get_fresh k es v Ho Hk).
  - exact Hdflt.
Qed.

Lemma keeps_dict_get_or_new d k :
  fresh_val n0 d -> keeps h0 (dict_get_or_new d k) (fresh_val n0).
Proof.
  intros Hd. unfold dict_get_or_new.
  eapply keeps_bind; [apply keeps_new_dict; constructor|].
  intros fresh Hf. apply keeps_dict_get; assumption.
Qed.

Lemma keeps_dict_get_or_new_list d k :
  fresh_val n0 d -> keeps h0 (dict_get_or_new_list d k) (fresh_val n0).
Proof.
  intros Hd. unfold dict_get_or_new_list.
  eapply keeps_bind; [apply keeps_new_list; constructor|].
  intros fresh Hf. apply keeps_dict_get; assumption.
Qed.

Lemma keeps_key_in k x :
  fresh_val n0 x -> keeps h0 (key_in k x) (fun _ => True).
Proof.
  intros Hx. unfold key_in.
  destruct x as [| | | |s|l]; try (apply keeps_ret; exact I);
    (eapply keeps_bind; [apply keeps_read; exact Hx|]);
    intros [es|items] _; apply keeps_ret; exact I.
Qed.

Lemma keeps_getitem d k :
  fresh_val n0 d -> keeps h0 (getitem d k) (fresh_val n0).
Proof.
  intros Hd. unfold getitem.
  eapply keeps_bind; [apply keeps_read; exact Hd|].
  intros [es|items] Ho; [|apply keeps_raise].
  destruct (entries_get k es) as [v|] eqn:Hk; [|apply keeps_raise].
  apply keeps_ret. exact (entries_get_fresh k es v Ho Hk).
Qed.

Lemma keeps_index x i :
  fresh_val n0 x -> keeps h0 (index x i) (fresh_val n0).
Proof.
  intros Hx. unfold index.
  destruct x as [| | | |s|l];
    try (eapply keeps_bind; [apply keeps_read; exact Hx|];
         intros [es|items] Ho; [apply keeps_raise|];
         destruct (items !! i) as [v|] eqn:Hi; [|apply keeps_raise];
         apply keeps_ret; unfold fresh_obj in Ho; cbn in Ho;
         rewrite Forall_forall in Ho; apply Ho;
         eapply list_elem_of_lookup_2; exact Hi).
  destruct (PyStr.chars s !! i); [apply keeps_ret; exact I|apply keeps_raise].
Qed.

Lemma keeps_len x :
  fresh_val n0 x -> keeps h0 (len x) (fun _ => True).
Proof.
  intros Hx. unfold len.
  destruct x as [| | | |s|l]; try (apply keeps_ret; exact I);
    (eapply keeps_bind; [apply keeps_read; exact Hx|]);
    intros [es|items] _; apply keeps_ret; exact I.
Qed.

Lemma keeps_is_true v :
  fresh_val n0 v -> keeps h0 (is_true v) (fun _ => True).
Proof.
  intros Hv. unfold is_true.
  destruct v as [| | | | |l]; try (apply keeps_ret; exact I).
  eapply keeps_bind; [apply keeps_len; exact Hv|].
  intros n _. apply keeps_ret. exact I.
Qed.

Lemma keeps_setitem d k v :
  fresh_val n0 d -> fresh_val n0 v ->
  keeps h0 (setitem d k v) (fun _ => True).
Proof.
  intros Hd Hv. unfold setitem.
  eapply keeps_bind; [apply keeps_read; exact Hd|].
  intros o Ho. destruct d as [| | | | |l]; try apply keeps_raise.
  destruct o as [es|items]; [|apply keeps_raise].
  apply keeps_write; [exact Hd|].
  apply entries_set_fresh; assumption.
Qed.

(** *** [copy.deepcopy] makes fresh objects only *)

Lemma copy_all_fresh copy :
  copies_fresh h0 copy ->
  forall vs m h vs' m' h',
    copy_all copy vs m h = Some (vs', m', h') ->
    grown_from h0 h -> memo_fresh n0 m ->
    grown_from h0 h' /\ memo_fresh n0 m'
    /\ Forall2 (fun v v' =>
                  match v with HRef _ => fresh_val n0 v' | _ => v' = v end)
         vs vs'.
Proof.
  intros Hcopy. induction vs as [|v rest IH]; intros m h vs' m' h' Hall Hh Hm.
  - injection Hall as <- <- <-. auto.
  - cbn [copy_all] in Hall.
    destruct (copy v m h) as [[[v1 m1] h1]|] eqn:Hv; [|discriminate].
    destruct (copy_all copy rest m1 h1) as [[[rest1 m2] h2]|] eqn:Hrest;
      [|discriminate].
    injection Hall as <- <- <-.
    destruct (Hcopy _ _ _ _ _ _ Hv Hh Hm) as (Hh1 & Hm1 & Hv1).
    destruct (IH _ _ _ _ _ Hrest Hh1 Hm1) as (Hh2 & Hm2 & Hrest2).
    split; [exact Hh2|]. split; [exact Hm2|]. constructor; assumption.
Qed.

Lemma memo_get_fresh l m l' :
  memo_fresh n0 m -> memo_get l m = Some l' -> n0 <= l'.
Proof.
  induction m as [|[a b] rest IH]; [discriminate|].
  intros Hm. apply Forall_cons in Hm as [Hb Hrest]. cbn [memo_get].
  destruct (Nat.eqb l a).
  - intros H. injection H as <-. exact Hb.
  - apply IH. exact Hrest.
Qed.

Lemma zip_fresh (keys : list string) vs :
  Forall (fresh_val n0) vs ->
  Forall (fresh_val n0) (snd <$> zip keys vs).
Proof.
  intros Hvs. revert keys. induction Hvs as [|v vs Hv _ IH]; intros keys.
  - destruct keys; constructor.
  - destruct keys as [|k keys]; [constructor|].
    cbn. constructor; [exact Hv|apply IH].
Qed.

Lemma copied_fresh vs vs' :
  Forall2 (fun v v' =>
             match v with HRef _ => fresh_val n0 v' | _ => v' = v end)
    vs vs' ->
  Forall (fresh_val n0) vs'.
Proof.
  induction 1 as [|v v' vs vs' Hv _ IH]; constructor; [|exact IH].
  destruct v; try (subst v'; exact I). exact Hv.
Qed.

Lemma deepcopy_val_fresh fuel : copies_fresh h0 (deepcopy_val fuel).
Proof.
  induction fuel as [|fuel IH]; intros v m h v' m' h' Hcopy Hh Hm;
    destruct v as [| | | | |l]; cbn [deepcopy_val] in Hcopy;
    try (injection Hcopy as <- <- <-; auto).
  - destruct (memo_get l m) as [l'|] eqn:Hget; [|discriminate].
    injection Hcopy as <- <- <-. split; [exact Hh|]. split; [exact Hm|].
    exact (memo_get_fresh l m l' Hm Hget).
  - destruct (memo_get l m) as [l'|] eqn:Hget.
    { injection Hcopy as <- <- <-. split; [exact Hh|]. split; [exact Hm|].
      exact (memo_get_fresh l m l' Hm Hget). }
    destruct (h !! l) as [o|]; [|discriminate].
    pose proof (grown_from_length h Hh) as Hlen.
    assert (Hm1 : memo_fresh n0 ((l, length h) :: m))
      by (constructor; [exact Hlen|exact Hm]).
    destruct o as [es|items].
    + destruct (copy_all (deepcopy_val fuel) (snd <$> es) _ _)
        as [[[vs m2] h2]|] eqn:Hall; [|discriminate].
      injection Hcopy as <- <- <-.
      destruct (copy_all_fresh _ IH _ _ _ _ _ _ Hall) as (Hh2 & Hm2 & Hvs).
      { apply grown_from_alloc; [exact Hh|constructor]. }
      { exact Hm1. }
      split; [|split; [exact Hm2|exact Hlen]].
      apply grown_from_insert; [exact Hh2|exact Hlen|].
      apply zip_fresh, (copied_fresh _ _ Hvs).
    + destruct (copy_all (deepcopy_val fuel) items _ _)
        as [[[vs m2] h2]|] eqn:Hall; [|discriminate].
      injection Hcopy as <- <- <-.
      destruct (copy_all_fresh _ IH _ _ _ _ _ _ Hall) as (Hh2 & Hm2 & Hvs).
      { apply grown_from_alloc; [exact Hh|constructor]. }
      { exact Hm1. }
      split; [|split; [exact Hm2|exact Hlen]].
      apply grown_from_insert; [exact Hh2|exact Hlen|].
      exact (copied_fresh _ _ Hvs).
Qed.

(** [copy.deepcopy] of any value, on any store. *)
Lemma keeps_deepcopy v : keeps h0 (deepcopy v) (fresh_val n0).
Proof.
  intros h Hh. unfold deepcopy.
  destruct (deepcopy_val (S (length h)) v [] h) as [[[v' m'] h']|] eqn:Hcopy.
  - destruct (deepcopy_val_fresh _ _ _ _ _ _ _ Hcopy Hh) as (Hh' & _ & Hv).
    { constructor. }
    cbn [fst snd]. split; [exact Hh'|]. intros a H. injection H as <-.
    destruct v; try (subst v'; exact I). exact Hv.
  - cbn [fst snd]. split; [exact Hh|]. discriminate.
Qed.

(** What a fresh value reaches on a store grown from [h0] is fresh. *)
Lemma reach_fresh h fuel :
  grown_from h0 h ->
  forall v seen,
    fresh_val n0 v -> Forall (fun l => n0 <= l) seen ->
    Forall (fun l => n0 <= l) (reach fuel h seen v).
Proof.
  intros Hh. induction fuel as [|fuel IH]; intros v seen Hv Hseen;
    destruct v as [| | | | |l]; cbn [reach]; try exact Hseen;
    destruct (bool_decide (l ∈ seen)); try exact Hseen.
  - destruct (h !! l) as [[es|items]|]; constructor; assumption.
  - assert (Hfold : forall vs acc,
              Forall (fresh_val n0) vs -> Forall (fun l => n0 <= l) acc ->
              Forall (fun l => n0 <= l) (fold_left (reach fuel h) vs acc)).
    { induction vs as [|v vs IHvs]; intros acc Hvs Hacc; [exact Hacc|].
      apply Forall_cons in Hvs as [Hv1 Hvs]. cbn [fold_left].
      apply IHvs; [exact Hvs|]. apply IH; assumption. }
    destruct (h !! l) as [[es|items]|] eqn:Hl.
    + apply Hfold; [|constructor; assumption].
      exact (grown_from_lookup h l _ Hh Hv Hl).
    + apply Hfold; [|constructor; assumption].
      exact (grown_from_lookup h l _ Hh Hv Hl).
    + constructor; assumption.
Qed.

Lemma keeps_list_append l v :
  fresh_val n0 l -> fresh_val n0 v ->
  keeps h0 (list_append l v) (fun _ => True).
Proof.
  intros Hl Hv. unfold list_append.
  eapply keeps_bind; [apply keeps_read; exact Hl|].
  intros o Ho. destruct l as [| | | | |loc]; try apply keeps_raise.
  destruct o as [es|items]; [apply keeps_raise|].
  apply keeps_write; [exact Hl|].
  unfold fresh_obj in *. cbn [obj_vals] in *.
  apply Forall_app. split; [exact Ho|]. constructor; [exact Hv|constructor].
Qed.

Lemma keeps_append_method x :
  fresh_val n0 x -> keeps h0 (append_method x) (fun _ => True).
Proof.
  intros Hx. unfold append_method.
  eapply keeps_bind; [apply keeps_read; exact Hx|].
  intros [es|items] _; [apply keeps_raise|apply keeps_ret; exact I].
Qed.

Lemma keeps_ensure_dict d key :
  fresh_val n0 d -> keeps h0 (ensure_dict d key) (fun _ => True).
Proof.
  intros Hd. unfold ensure_dict.
  eapply keeps_bind; [apply keeps_key_in; exact Hd|].
  intros [|] _; [apply keeps_ret; exact I|].
  eapply keeps_bind; [apply keeps_new_dict; constructor|].
  intros fresh Hf. apply keeps_setitem; assumption.
Qed.

Lemma keeps_ensure_list d key :
  fresh_val n0 d -> keeps h0 (ensure_list d key) (fun _ => True).
Proof.
  intros Hd. unfold ensure_list.
  eapply keeps_bind; [apply keeps_key_in; exact Hd|].
  intros [|] _; [apply keeps_ret; exact I|].
  eapply keeps_bind; [apply keeps_new_list; constructor|].
  intros fresh Hf. apply keeps_setitem; assumption.
Qed.

Lemma keeps_encoding_field new_spec axis :
  fresh_val n0 new_spec ->
  keeps h0 (encoding_field new_spec axis) (fresh_val n0).
Proof.
  intros Hnew. unfold encoding_field.
  eapply keeps_bind; [apply keeps_dict_get_or_new; exact Hnew|].
  intros encoding Henc.
  eapply keeps_bind; [apply keeps_dict_get_or_new; exact Henc|].
  intros a Ha. apply keeps_dict_get; [exact Ha|exact I].
Qed.

Lemma keeps_set_opacity new_spec test dimmed :
  fresh_val n0 new_spec -> fresh_val n0 dimmed ->
  keeps h0 (set_opacity new_spec test dimmed) (fun _ => True).
Proof.
  intros Hnew Hdim. unfold set_opacity.
  eapply keeps_bind; [apply keeps_ensure_dict; exact Hnew|]. intros _ _.
  eapply keeps_bind; [apply keeps_new_dict; repeat constructor|].
  intros condition Hcond.
  eapply keeps_bind;
    [apply keeps_new_dict; repeat constructor; assumption|].
  intros opacity Hop.
  eapply keeps_bind; [apply keeps_getitem; exact Hnew|]. intros encoding Henc.
  apply keeps_setitem; assumption.
Qed.

Lemma keeps_format py_str v :
  keeps h0 (format py_str v) (fun _ => True).
Proof. intros h Hh. cbn. split; [exact Hh|auto]. Qed.

(** *** The rules of a tool body *)

Lemma tool_on_bind {A} (c : M A) (k : A -> M hval) (P : A -> Prop) :
  keeps h0 c P -> (forall a, P a -> tool_on h0 (k a)) ->
  tool_on h0 (bind c k).
Proof.
  intros Hc Hk h Hh. unfold bind. destruct (Hc h Hh) as [Hh' Hp].
  destruct (c h) as [[a|] h'] eqn:Hch; cbn [fst snd] in *.
  - exact (Hk a (Hp a eq_refl) h' Hh').
  - split; [exact Hh'|]. discriminate.
Qed.

Lemma tool_on_new_dict es :
  Forall (fresh_val n0) (snd <$> es) -> result_entries es ->
  tool_on h0 (new_dict es).
Proof.
  intros Hes Hres h Hh. cbn [new_dict alloc fst snd].
  split; [apply grown_from_alloc; assumption|].
  intros res H. injection H as <-. exists (length h), es.
  split; [reflexivity|]. split; [apply grown_from_length; exact Hh|].
  split; [|exact Hres]. unfold heap in *.
  rewrite lookup_app_r by lia. rewrite Nat.sub_diag. reflexivity.
Qed.

Lemma failure_entries msg :
  result_entries [("success", HBool false); ("error", HStr msg)].
Proof. exists false. split; [reflexivity|discriminate]. Qed.

Lemma success_entries operation chart msg rest :
  result_entries
    (("success", HBool true) :: ("operation", HStr operation)
       :: ("vega_spec", chart) :: ("message", HStr msg) :: rest).
Proof. exists true. split; [reflexivity|]. intros _. eexists. reflexivity. Qed.

(** What a fresh value leads to on a store grown from [h0] is fresh. *)
Lemma follow_fresh h path : forall v w,
  grown_from h0 h -> fresh_val n0 v -> follow h v path = Some w ->
  fresh_val n0 w.
Proof.
  induction path as [|sel path IH]; intros v w Hh Hv Hw.
  - injection Hw as <-. exact Hv.
  - cbn [follow] in Hw. destruct v as [| | | | |l]; try discriminate.
    destruct (h !! l) as [[es|items]|] eqn:Hl; [| |discriminate].
    + destruct sel as [k|i]; [|discriminate].
      destruct (entries_get k es) as [v'|] eqn:Hk; [|discriminate].
      apply (IH v' w Hh); [|exact Hw].
      apply (entries_get_fresh k es v'); [|exact Hk].
      exact (grown_from_lookup h l _ Hh Hv Hl).
    + destruct sel as [k|i]; [discriminate|].
      destruct (items !! i) as [v'|] eqn:Hi; [|discriminate].
      apply (IH v' w Hh); [|exact Hw].
      pose proof (grown_from_lookup h l _ Hh Hv Hl) as Ho.
      unfold fresh_obj in Ho. cbn in Ho. rewrite Forall_forall in Ho.
      apply Ho. eapply list_elem_of_lookup_2. exact Hi.
Qed.

(** *** The bodies, rule by rule *)

Lemma tool_on_compare_series vega_spec series_field :
  tool_on h0 (compare_series vega_spec series_field).
Proof.
  unfold compare_series.
  eapply tool_on_bind; [apply keeps_deepcopy|]. intros new_spec Hnew.
  eapply tool_on_bind; [apply keeps_dict_get_or_new; exact Hnew|].
  intros data_block Hblock.
  eapply tool_on_bind; [apply keeps_dict_get_or_new_list; exact Hblock|].
  intros data Hdata.
  eapply tool_on_bind; [apply keeps_is_true; exact Hdata|]. intros has_data _.
  eapply (tool_on_bind _ _ (fun _ => True)).
  { destruct has_data; [|apply keeps_ret; exact I].
    eapply keeps_bind; [apply keeps_index; exact Hdata|]. intros row Hrow.
    eapply keeps_bind; [apply keeps_key_in; exact Hrow|]. intros present _.
    apply keeps_ret. exact I. }
  intros field_missing _. destruct field_missing.
  { apply tool_on_new_dict; [repeat constructor|apply failure_entries]. }
  eapply tool_on_bind; [apply keeps_key_in; exact Hnew|]. intros has_encoding _.
  eapply (tool_on_bind _ _ (fun _ => True)).
  { destruct has_encoding; [apply keeps_ret; exact I|].
    eapply keeps_bind; [apply keeps_new_dict; constructor|]. intros fresh Hf.
    apply keeps_setitem; assumption. }
  intros _ _.
  eapply tool_on_bind; [apply keeps_new_dict; repeat constructor|].
  intros legend Hlegend.
  eapply tool_on_bind;
    [apply keeps_new_dict; repeat constructor; exact Hlegend|].
  intros color Hcolor.
  eapply tool_on_bind; [apply keeps_getitem; exact Hnew|]. intros encoding Henc.
  eapply tool_on_bind; [apply keeps_setitem; assumption|]. intros _ _.
  eapply tool_on_bind; [apply keeps_getitem; exact Hnew|].
  intros encoding' Henc'.
  eapply tool_on_bind; [apply keeps_key_in; exact Henc'|]. intros has_detail _.
  eapply (tool_on_bind _ _ (fun _ => True)).
  { destruct has_detail; [apply keeps_ret; exact I|].
    eapply keeps_bind; [apply keeps_new_dict; repeat constructor|].
    intros detail Hdetail.
    eapply keeps_bind; [apply keeps_getitem; exact Hnew|]. intros enc2 Henc2.
    apply keeps_setitem; assumption. }
  intros _ _.
  eapply tool_on_bind; [apply keeps_new_list; repeat constructor|].
  intros details Hdetails.
  apply tool_on_new_dict; [repeat constructor; assumption|].
  apply success_entries.
Qed.

Lemma tool_on_sort_bars vega_spec order :
  tool_on h0 (sort_bars vega_spec order).
Proof.
  unfold sort_bars.
  eapply tool_on_bind; [apply keeps_deepcopy|]. intros new_spec Hnew.
  eapply tool_on_bind; [apply keeps_encoding_field; exact Hnew|].
  intros y_field Hy.
  eapply tool_on_bind; [apply keeps_is_true; exact Hy|]. intros has_y _.
  destruct has_y; cbn [negb].
  2:{ apply tool_on_new_dict; [repeat constructor|apply failure_entries]. }
  eapply tool_on_bind; [apply keeps_ensure_dict; exact Hnew|]. intros _ _.
  eapply tool_on_bind; [apply keeps_getitem; exact Hnew|]. intros encoding Henc.
  eapply tool_on_bind; [apply keeps_key_in; exact Henc|]. intros has_x _.
  eapply (tool_on_bind _ _ (fun _ => True)).
  { destruct has_x; [apply keeps_ret; exact I|].
    eapply keeps_bind; [apply keeps_new_dict; constructor|]. intros fresh Hf.
    eapply keeps_bind; [apply keeps_getitem; exact Hnew|]. intros enc1 Henc1.
    apply keeps_setitem; assumption. }
  intros _ _.
  eapply tool_on_bind;
    [apply keeps_new_dict; repeat constructor; exact Hy|].
  intros sort Hsort.
  eapply tool_on_bind; [apply keeps_getitem; exact Hnew|]. intros enc2 Henc2.
  eapply tool_on_bind; [apply keeps_getitem; exact Henc2|]. intros x Hx.
  eapply tool_on_bind; [apply keeps_setitem; assumption|]. intros _ _.
  apply tool_on_new_dict; [repeat constructor; assumption|].
  apply success_entries.
Qed.

Lemma tool_on_compare_groups vega_spec group_field :
  tool_on h0 (compare_groups vega_spec group_field).
Proof.
  unfold compare_groups.
  eapply tool_on_bind; [apply keeps_deepcopy|]. intros new_spec Hnew.
  eapply tool_on_bind; [apply keeps_ensure_dict; exact Hnew|]. intros _ _.
  eapply tool_on_bind; [apply keeps_new_dict; repeat constructor|].
  intros color Hcolor.
  eapply tool_on_bind; [apply keeps_getitem; exact Hnew|]. intros encoding Henc.
  eapply tool_on_bind; [apply keeps_setitem; assumption|]. intros _ _.
  apply tool_on_new_dict; [repeat constructor; assumption|].
  apply success_entries.
Qed.

Lemma tool_on_filter_categories py_str vega_spec categories :
  tool_on h0 (filter_categories py_str vega_spec categories).
Proof.
  unfold filter_categories.
  eapply tool_on_bind; [apply keeps_deepcopy|]. intros new_spec Hnew.
  eapply tool_on_bind; [apply keeps_encoding_field; exact Hnew|].
  intros x_field Hx.
  eapply tool_on_bind; [apply keeps_is_true; exact Hx|]. intros has_x _.
  destruct has_x; cbn [negb].
  2:{ apply tool_on_new_dict; [repeat constructor|apply failure_entries]. }
  eapply tool_on_bind; [apply keeps_ensure_list; exact Hnew|]. intros _ _.
  cbv zeta.
  eapply tool_on_bind; [apply keeps_getitem; exact Hnew|].
  intros transform Htransform.
  eapply tool_on_bind; [apply keeps_append_method; exact Htransform|].
  intros _ _.
  eapply tool_on_bind; [apply keeps_format|]. intros x_text _.
  eapply tool_on_bind; [apply keeps_new_dict; repeat constructor|].
  intros condition Hcond.
  eapply tool_on_bind; [apply keeps_list_append; assumption|]. intros _ _.
  eapply tool_on_bind; [apply keeps_format|]. intros count _.
  apply tool_on_new_dict; [repeat constructor; assumption|].
  apply success_entries.
Qed.

Lemma tool_on_highlight_path vega_spec source target :
  tool_on h0 (highlight_path vega_spec source target).
Proof.
  unfold highlight_path.
  eapply tool_on_bind; [apply keeps_deepcopy|]. intros new_spec Hnew.
  eapply tool_on_bind; [apply keeps_set_opacity; [exact Hnew|exact I]|].
  intros _ _.
  apply tool_on_new_dict; [repeat constructor; assumption|].
  apply success_entries.
Qed.

Lemma tool_on_trace_node vega_spec node_name :
  tool_on h0 (trace_node vega_spec node_name).
Proof.
  unfold trace_node.
  eapply tool_on_bind; [apply keeps_deepcopy|]. intros new_spec Hnew.
  eapply tool_on_bind; [apply keeps_set_opacity; [exact Hnew|exact I]|].
  intros _ _.
  apply tool_on_new_dict; [repeat constructor; assumption|].
  apply success_entries.
Qed.

End FreshObjects.

Section ToolBodyFrames.

Import PyHeap.

(** A body that satisfies the rules on every store works on a copy. *)
Lemma tool_on_works_on_a_copy (tool : M hval) :
  (forall h0, tool_on h0 tool) -> works_on_a_copy tool.
Proof.
  intros Htool h. cbv zeta.
  destruct (Htool h h (grown_from_refl h)) as [Hgrown Hres].
  split.
  - destruct Hgrown as (added & -> & _). apply take_app_length.
  - intros res Hsome.
    destruct (Hres res Hsome) as (l & es & -> & Hl & Hobj & b & Hb & Hchart).
    split; [|split].
    + exists b. cbn [follow]. rewrite Hobj, Hb. split; [reflexivity|].
      intros Htrue. destruct (Hchart Htrue) as [chart ->]. eexists.
      reflexivity.
    + apply (reach_fresh h); [exact Hgrown|exact Hl|constructor].
    + intros path v Hv. apply (reach_fresh h); [exact Hgrown| |constructor].
      exact (follow_fresh h _ path (HRef l) v Hgrown Hl Hv).
Qed.

(** X21.  [compare_series] works on a copy, whatever chart, field and
    store it is called on: when the call ends, by a return or by an
    exception, every object the store held before is as it was.  When
    it returns, the result is a dictionary with a boolean under
    ['success'] and, when that is true, a chart under ['vega_spec'];
    neither the result nor anything reachable from it is an object the
    store held before, so no later change made through the result can
    reach the caller's chart. *)
Theorem compare_series_works_on_a_copy vega_spec series_field :
  works_on_a_copy (compare_series vega_spec series_field).
Proof.
  apply tool_on_works_on_a_copy. intros h0. apply tool_on_compare_series.
Qed.

(** X22.  The bar chart bodies [sort_bars], [filter_categories] and
    [compare_groups] work on a copy in the same sense, for every chart,
    every argument and every store: the caller's objects are never
    written to, also when the body raises, and nothing of what they
    return is shared with the caller. *)
Theorem bar_chart_tools_work_on_a_copy py_str vega_spec :
  (forall order, works_on_a_copy (sort_bars vega_spec order))
  /\ (forall categories,
        works_on_a_copy (filter_categories py_str vega_spec categories))
  /\ (forall group_field,
        works_on_a_copy (compare_groups vega_spec group_field)).
Proof.
  split; [|split]; intros arg; apply tool_on_works_on_a_copy; intros h0.
  - apply tool_on_sort_bars.
  - apply tool_on_filter_categories.
  - apply tool_on_compare_groups.
Qed.

(** X23.  So do the Sankey bodies [highlight_path] and [trace_node]. *)
Theorem sankey_tools_work_on_a_copy vega_spec :
  (forall source target,
      works_on_a_copy (highlight_path vega_spec source target))
  /\ (forall node_name, works_on_a_copy (trace_node vega_spec node_name)).
Proof.
  split; intros; apply tool_on_works_on_a_copy; intros h0.
  - apply tool_on_highlight_path.
  - apply tool_on_trace_node.
Qed.

End ToolBodyFrames.

Section ToolBodyFrameRuns.

Import PyHeap.

(** [compare_series] on the line chart of the store. *)
Lemma compare_series_works_on_a_copy_witness :
  let out := compare_series line_chart "v" line_chart_heap in
  take (length line_chart_heap) out.2 = line_chart_heap
  /\ exists res,
       out.1 = Some res
       /\ follow out.2 res [Key "success"] = Some (HBool true)
       /\ Forall (fun l => length line_chart_heap <= l)
            (reachable out.2 res).
Proof.
  intros out.
  destruct (compare_series_works_on_a_copy line_chart "v" line_chart_heap)
    as [Htake Hres].
  fold out in Htake, Hres. split; [exact Htake|].
  assert (Hsome : exists res, out.1 = Some res)
    by (eexists; vm_compute; reflexivity).
  destruct Hsome as [res Hsome]. exists res. split; [exact Hsome|].
  destruct (Hres res Hsome) as (_ & Hreach & _).
  split; [|exact Hreach].
  revert Hsome. vm_compute. intros H. injection H as <-. reflexivity.
Defined.

(** [sort_bars] and [compare_groups] on the same chart, and
    [filter_categories] with two categories. *)
Lemma bar_chart_tools_work_on_a_copy_witness :
  take (length line_chart_heap)
    (sort_bars line_chart "descending" line_chart_heap).2 = line_chart_heap
  /\ take (length line_chart_heap)
       (filter_categories (fun _ _ => "?") line_chart ["a"; "b"]
          line_chart_heap).2 = line_chart_heap
  /\ take (length line_chart_heap)
       (compare_groups line_chart "v" line_chart_heap).2 = line_chart_heap.
Proof.
  destruct (bar_chart_tools_work_on_a_copy (fun _ _ => "?") line_chart)
    as (Hsort & Hfilter & Hgroups).
  split; [|split].
  - exact (proj1 (Hsort "descending" line_chart_heap)).
  - exact (proj1 (Hfilter ["a"; "b"] line_chart_heap)).
  - exact (proj1 (Hgroups "v" line_chart_heap)).
Defined.

(** [highlight_path] on the line chart, and [trace_node] on an empty
    store, where it raises. *)
Lemma sankey_tools_work_on_a_copy_witness :
  take (length line_chart_heap)
    (highlight_path line_chart "a" "b" line_chart_heap).2 = line_chart_heap
  /\ take 0 (trace_node (HRef 0) "a" []).2 = [].
Proof.
  destruct (sankey_tools_work_on_a_copy line_chart) as [Hpath _].
  destruct (sankey_tools_work_on_a_copy (HRef 0)) as [_ Htrace].
  split.
  - exact (proj1 (Hpath "a" "b" line_chart_heap)).
  - exact (proj1 (Htrace "a" [])).
Defined.

End ToolBodyFrameRuns.
